(** * Medusa: configuration migration chain, setting helpers and main
      database maintenance, as a shallow embedding.

    Sources embedded here:
    - [medusa/config/setting.py] and the copies of the same helpers in
      [medusa/config/__init__.py] (module [Setting]);
    - [medusa/config/migration.py] (module [Migration]);
    - [medusa/databases/main_db.py] (module [MainDB]).

    Python objects that are mutated in place (the ConfigObj mapping, the
    [app] module globals, the database) are threaded explicitly as state.
    Exceptions and [sys.exit] are results of type [outcome]. *)

From Stdlib Require Import ZArith Ascii String DecimalString.
From stdpp Require Import gmap strings list fin_maps.

Local Open Scope string_scope.
Local Open Scope list_scope.
Local Open Scope Z_scope.

(** ** Python values, exceptions and string primitives *)

Module Py.

(** The exception classes the embedded code raises or catches. *)
Inductive exn : Type :=
| KeyError (key : string)
| IndexError
| ValueError
| TypeError
| AttributeError (name : string)
| Exception.

(** Result of running a piece of Python: a value, a raised exception, or
    [sys.exit(status)]. *)
Inductive outcome (A : Type) : Type :=
| Ret (a : A)
| Raise (e : exn)
| Exit (status : Z).
Arguments Ret {A} a.
Arguments Raise {A} e.
Arguments Exit {A} status.

(** Stateful Python code: a function of the state it mutates.  The state
    reached is returned whether the code finishes, raises or exits, since
    a raised exception does not undo earlier mutations. *)
Definition run (S A : Type) : Type := S -> outcome A * S.

Definition ret {S A : Type} (a : A) : run S A := fun s => (Ret a, s).
Definition raise {S A : Type} (e : exn) : run S A := fun s => (Raise e, s).
Definition sys_exit {S A : Type} (status : Z) : run S A := fun s => (Exit status, s).
Definition lift {S A : Type} (r : outcome A) : run S A := fun s => (r, s).
Definition get {S : Type} : run S S := fun s => (Ret s, s).
Definition modify {S : Type} (f : S -> S) : run S unit := fun s => (Ret tt, f s).

Definition bind {S A B : Type} (m : run S A) (k : A -> run S B) : run S B :=
  fun s =>
    match m s with
    | (Ret a, s') => k a s'
    | (Raise e, s') => (Raise e, s')
    | (Exit n, s') => (Exit n, s')
    end.

(** [try: m except Exception: h]: [sys.exit] is not an [Exception] and
    passes through. *)
Definition try_except {S A : Type} (m : run S A) (h : exn -> run S A) : run S A :=
  fun s =>
    match m s with
    | (Raise e, s') => h e s'
    | r => r
    end.

(** Run [m] on a component of a larger state. *)
Definition zoom {S T A : Type} (proj : T -> S) (inj : S -> T -> T) (m : run S A) : run T A :=
  fun t => let (r, s') := m (proj t) in (r, inj s' t).

(** The values a ConfigObj entry or an [app] global holds. *)
#[warnings="-register-all"]
Inductive value : Type :=
| VNone
| VBool (b : bool)
| VInt (z : Z)
| VStr (s : string)
| VList (l : list value).

(** [str.split(sep)] for a non-empty separator: occurrences are found left
    to right and do not overlap.  [skip] counts the characters of a matched
    separator that are still to be dropped. *)
Definition cons_head (c : ascii) (l : list string) : list string :=
  match l with
  | tok :: rest => String c tok :: rest
  | [] => [String c ""]
  end.

Fixpoint split_go (sep : string) (skip : nat) (s : string) : list string :=
  match s with
  | "" => [""]
  | String c s' =>
      match skip with
      | S k => split_go sep k s'
      | O =>
          if String.prefix sep s
          then "" :: split_go sep (String.length sep - 1) s'
          else cons_head c (split_go sep 0 s')
      end
  end.

Definition split (sep s : string) : list string := split_go sep 0 s.

(** [sep.join(l)] *)
Definition join (sep : string) (l : list string) : string := String.concat sep l.

(** ASCII case mapping, as [str.lower] and [str.upper] act on ASCII text. *)
Definition lower_ascii (c : ascii) : ascii :=
  let n := nat_of_ascii c in
  if (Nat.leb 65 n && Nat.leb n 90)%bool then ascii_of_nat (n + 32) else c.

Definition upper_ascii (c : ascii) : ascii :=
  let n := nat_of_ascii c in
  if (Nat.leb 97 n && Nat.leb n 122)%bool then ascii_of_nat (n - 32) else c.

Fixpoint map_string (f : ascii -> ascii) (s : string) : string :=
  match s with
  | "" => ""
  | String c s' => String (f c) (map_string f s')
  end.

Definition lower : string -> string := map_string lower_ascii.
Definition upper : string -> string := map_string upper_ascii.

(** Whitespace as [str.strip] and [int] see it: space, \t, \n, \v, \f, \r. *)
Definition is_space (c : ascii) : bool :=
  let n := nat_of_ascii c in
  (Nat.eqb n 32 || (Nat.leb 9 n && Nat.leb n 13))%bool.

Fixpoint lstrip (s : string) : string :=
  match s with
  | String c s' => if is_space c then lstrip s' else s
  | "" => ""
  end.

Fixpoint rstrip (s : string) : string :=
  match s with
  | "" => ""
  | String c s' =>
      match rstrip s' with
      | "" => if is_space c then "" else String c ""
      | r => String c r
      end
  end.

Definition strip (s : string) : string := rstrip (lstrip s).

(** Decimal digits of a string; [None] on the empty string or a
    non-digit. *)
Definition digit_of (c : ascii) : option Z :=
  let n := nat_of_ascii c in
  if (Nat.leb 48 n && Nat.leb n 57)%bool then Some (Z.of_nat (n - 48)) else None.

Fixpoint digits_go (acc : Z) (s : string) : option Z :=
  match s with
  | "" => Some acc
  | String c s' =>
      match digit_of c with
      | Some d => digits_go (10 * acc + d) s'
      | None => None
      end
  end.

Definition digits (s : string) : option Z :=
  match s with
  | "" => None
  | _ => digits_go 0 s
  end.

(** [int(s)] on text: optional surrounding whitespace, an optional sign,
    then decimal digits. *)
Definition int_of_string (s : string) : option Z :=
  match strip s with
  | String "-" r => Z.opp <$> digits r
  | String "+" r => digits r
  | r => digits r
  end.

(** [int(v)]: [ValueError] on text that is not a number, [TypeError] on
    [None] and on lists. *)
Definition int (v : value) : outcome Z :=
  match v with
  | VInt z => Ret z
  | VBool b => Ret (if b then 1 else 0)
  | VStr s => match int_of_string s with Some z => Ret z | None => Raise ValueError end
  | VNone | VList _ => Raise TypeError
  end.

Definition str_of_Z (z : Z) : string := NilZero.string_of_int (Z.to_int z).

(** [str(v)].  For a list the text is bracketed; the embedded code only
    ever compares [str(v)] with the words true, false and None. *)
Fixpoint str (v : value) : string :=
  match v with
  | VNone => "None"
  | VBool true => "True"
  | VBool false => "False"
  | VInt z => str_of_Z z
  | VStr s => s
  | VList l => "[" +:+ join ", " (map str l) +:+ "]"
  end.

(** [a == b]; [True == 1] and [False == 0] hold in Python. *)
Fixpoint value_eqb (a b : value) : bool :=
  match a, b with
  | VNone, VNone => true
  | VBool x, VBool y => Bool.eqb x y
  | VInt x, VInt y => Z.eqb x y
  | VBool x, VInt y | VInt y, VBool x => Z.eqb (if x then 1 else 0) y
  | VStr x, VStr y => String.eqb x y
  | VList x, VList y =>
      (fix go (x y : list value) : bool :=
         match x, y with
         | [], [] => true
         | a' :: x', b' :: y' => value_eqb a' b' && go x' y'
         | _, _ => false
         end) x y
  | _, _ => false
  end.

(** [s.find(sub) + 1] as a truth value: does [sub] occur in [s]? *)
Fixpoint contains (sub s : string) : bool :=
  String.prefix sub s ||
  match s with
  | String _ s' => contains sub s'
  | "" => false
  end.

(** [s.endswith(suffix)] *)
Fixpoint endswith (suffix s : string) : bool :=
  String.eqb suffix s ||
  match s with
  | String _ s' => endswith suffix s'
  | "" => false
  end.

(** Truth value of [v] in a condition. *)
Definition truthy (v : value) : bool :=
  match v with
  | VNone => false
  | VBool b => b
  | VInt z => negb (Z.eqb z 0)
  | VStr s => negb (String.eqb s "")
  | VList l => match l with [] => false | _ => true end
  end.

(** [l[i]] on a list, for a non-negative index. *)
Definition index {A : Type} (l : list A) (i : nat) : outcome A :=
  match l !! i with
  | Some x => Ret x
  | None => Raise IndexError
  end.

(** [l.insert(i, x)] for [i >= 0] *)
Definition list_insert_at {A : Type} (i : nat) (x : A) (l : list A) : list A :=
  take i l ++ x :: drop i l.

(** [l[i] = x] *)
Definition list_assign {A : Type} (i : nat) (x : A) (l : list A) : outcome (list A) :=
  if Nat.ltb i (length l) then Ret (<[i := x]> l) else Raise IndexError.

(** [try: m except <class>: h], for the classes [handles] accepts. *)
Definition try_except_only {S A : Type} (handles : exn -> bool)
    (m : run S A) (h : exn -> run S A) : run S A :=
  fun s =>
    match m s with
    | (Raise e, s') => if handles e then h e s' else (Raise e, s')
    | r => r
    end.

Definition is_ValueError (e : exn) : bool :=
  match e with ValueError => true | _ => false end.

Definition is_KeyError (e : exn) : bool :=
  match e with KeyError _ => true | _ => false end.

(** Log records: the level, the message template and its arguments. *)
Inductive level : Type := DEBUG | INFO | WARNING | ERROR.

Record log_entry : Type := Log {
  log_level : level;
  log_template : string;
  log_args : list (string * value);
}.

End Py.

Export Py.

Notation "'let*' x ':=' m 'in' k" := (Py.bind m (fun x => k))
  (at level 10, x name, m at level 100, k at level 200).

(** Equations for running sequenced code. *)
Section RunEquations.
Context {S A B : Type}.
Implicit Types (m : run S A) (k : A -> run S B) (h : exn -> run S A).

Lemma bind_ret m k s a s' : m s = (Ret a, s') -> bind m k s = k a s'.
Proof. intros H. unfold bind. rewrite H. reflexivity. Qed.

Lemma bind_raise m k s e s' : m s = (Raise e, s') -> bind m k s = (Raise e, s').
Proof. intros H. unfold bind. rewrite H. reflexivity. Qed.

Lemma bind_exit m k s n s' : m s = (Exit n, s') -> bind m k s = (Exit n, s').
Proof. intros H. unfold bind. rewrite H. reflexivity. Qed.

Lemma try_except_ret m h s a s' : m s = (Ret a, s') -> try_except m h s = (Ret a, s').
Proof. intros H. unfold try_except. rewrite H. reflexivity. Qed.

Lemma try_except_raise m h s e s' : m s = (Raise e, s') -> try_except m h s = h e s'.
Proof. intros H. unfold try_except. rewrite H. reflexivity. Qed.

Lemma try_except_exit m h s n s' : m s = (Exit n, s') -> try_except m h s = (Exit n, s').
Proof. intros H. unfold try_except. rewrite H. reflexivity. Qed.

End RunEquations.

(** Splitting yields at least one piece, and joining the pieces of a
    split on a one-character separator gives the text back. *)
Lemma split_go_nonempty (sep : string) (skip : nat) (s : string) :
  split_go sep skip s <> [].
Proof.
  revert skip. induction s as [|c s IH]; intros skip; cbn [split_go].
  - discriminate.
  - destruct skip as [|k]; [|apply IH].
    destruct (String.prefix sep (String c s)); [discriminate|].
    specialize (IH 0%nat). destruct (split_go sep 0 s); [congruence|simpl; discriminate].
Qed.

Lemma join_cons (sep x : string) (l : list string) :
  l <> [] -> join sep (x :: l) = (x +:+ sep +:+ join sep l)%string.
Proof. destruct l; [congruence|reflexivity]. Qed.

Lemma join_cons_head (sep : string) (c : ascii) (l : list string) :
  l <> [] -> join sep (cons_head c l) = String c (join sep l).
Proof.
  destruct l as [|x [|y l]]; [congruence| |]; intros _; reflexivity.
Qed.

Lemma join_split_char (c : ascii) (s : string) :
  join (String c "") (split (String c "") s) = s.
Proof.
  unfold split. induction s as [|a s IH]; [reflexivity|].
  cbn [split_go String.prefix String.length].
  destruct (Ascii.ascii_dec c a) as [->|Hne].
  - replace (String.prefix "" s) with true by (destruct s; reflexivity).
    change (1 - 1)%nat with 0%nat.
    rewrite join_cons by apply split_go_nonempty.
    rewrite IH. reflexivity.
  - rewrite join_cons_head by apply split_go_nonempty.
    rewrite IH. reflexivity.
Qed.

Example split_pipe : split "|" "1|1||x" = ["1"; "1"; ""; "x"].
Proof. reflexivity. Qed.

Example split_bang : split "!!!" "a|b!!!!c!!!" = ["a|b"; "!c"; ""].
Proof. reflexivity. Qed.

Example int_of_string_examples :
  int_of_string " 42 " = Some 42 /\ int_of_string "-7" = Some (-7) /\
  int_of_string "4x" = None /\ int_of_string "" = None.
Proof. repeat split. Qed.

(** ** Splitting and joining text *)

Module Text.







Lemma prefix_nil (a : ascii) (sep : string) : String.prefix (String a sep) "" = false.
Proof. reflexivity. Qed.















End Text.

(** ** Setting lookup helpers ([medusa/config/setting.py]) *)

Module Setting.

(** A configuration: section name to item name to value. *)
Abbreviation config := (gmap string (gmap string value)).

(** The attributes of the [app] module. *)
Abbreviation globals := (gmap string value).

(** What the helpers can mutate: the configuration object they are handed
    and [logger.censored_items]. *)
Record store : Type := Store {
  cfg : config;
  censored_items : gmap (string * string) value;
}.

Definition set_cfg (c : config) (s : store) : store := Store c (censored_items s).

(** [config[cfg_name][item_name]], without any effect. *)
Definition lookup_item (c : config) (cfg_name item_name : string) : option value :=
  match c !! cfg_name with
  | Some sec => sec !! item_name
  | None => None
  end.

(** [config[cfg_name][item_name]] *)
Definition getitem (cfg_name item_name : string) : run store value :=
  fun s =>
    match cfg s !! cfg_name with
    | None => (Raise (KeyError cfg_name), s)
    | Some sec =>
        match sec !! item_name with
        | None => (Raise (KeyError item_name), s)
        | Some v => (Ret v, s)
        end
    end.

(** [config[cfg_name][item_name] = v] *)
Definition setitem (cfg_name item_name : string) (v : value) : run store unit :=
  fun s =>
    match cfg s !! cfg_name with
    | None => (Raise (KeyError cfg_name), s)
    | Some sec => (Ret tt, set_cfg (<[cfg_name := <[item_name := v]> sec]> (cfg s)) s)
    end.

(** [config[cfg_name] = {}] *)
Definition new_section (cfg_name : string) : run store unit :=
  modify (fun s => set_cfg (<[cfg_name := ∅]> (cfg s)) s).

(** The handler every helper shares:
[[
        try:
            config[cfg_name][item_name] = <v>
        except Exception:
            config[cfg_name] = {}
            config[cfg_name][item_name] = <v>
]]
    where [<v>] is evaluated anew in each branch. *)
Definition write_back (cfg_name item_name : string) (v : run store value) : run store unit :=
  try_except
    (let* x := v in setitem cfg_name item_name x)
    (fun _ => let* _ := new_section cfg_name in let* x := v in setitem cfg_name item_name x).

(** The coercion in the [try] block of [check_int], after the lookup. *)
Definition int_of_setting (my_val : value) : outcome Z :=
  let my_val :=
    if String.eqb (lower (str my_val)) "true" then VInt 1
    else if String.eqb (lower (str my_val)) "false" then VInt 0
    else my_val in
  match int my_val with
  | Ret n => if String.eqb (str (VInt n)) (str VNone) then Raise Exception else Ret n
  | r => r
  end.

(** [check_int(config, cfg_name, item_name, def_val)]; [silent] only
    controls a debug log line. *)
Definition check_int (cfg_name item_name : string) (def_val : value) : run store value :=
  try_except
    (let* my_val := getitem cfg_name item_name in
     let* n := lift (int_of_setting my_val) in
     ret (VInt n))
    (fun _ =>
       let* _ := write_back cfg_name item_name (ret def_val) in
       ret def_val).

Definition check_bool (cfg_name item_name : string) (def_val : value) : run store value :=
  let* v := check_int cfg_name item_name def_val in
  ret (VBool (truthy v)).

(** [convert_csv_string_to_list(value, delimiter, trim)] of
    [medusa/config/__init__.py].  Splitting on an empty delimiter raises
    [ValueError], which the function suppresses, leaving the value as it
    was. *)
Definition convert_csv_string_to_list (v : value) (delimiter : string) (trim : bool) : value :=
  match v with
  | VStr text =>
      if String.eqb text "" then
        VList []
      else if String.eqb delimiter "" then
        v
      else
        let pieces := split delimiter text in
        VList (map VStr (if trim then map strip pieces else pieces))
  | _ => v
  end.

(** The remaining helpers reach into modules that are not part of this
    development: [helpers.encrypt] and [helpers.decrypt] (the secret
    encryption primitive), the table [common.privacy_levels] and
    [helpers.utils.split_and_strip].  They are parameters here. *)
Section Helpers.

Variable decrypt : value -> value -> outcome value.
Variable encrypt : value -> value -> outcome value.
Variable privacy_levels : value -> outcome Z.
Variable split_and_strip : value -> value -> outcome value.

Definition getattr (app : globals) (name : string) : outcome value :=
  match app !! name with
  | Some v => Ret v
  | None => Raise (AttributeError name)
  end.

(** [censor_level], from the [censor_log] argument. *)
Definition censor_level_of (censor_log : value) : outcome Z :=
  if negb (truthy censor_log)
  then privacy_levels (VStr "stupid")
  else privacy_levels censor_log.

(** A section name compared with a key of [censored_items]: a text never
    equals a pair. *)
Definition name_eq_key (name : string) (key : string * string) : bool := false.

(** [(cfg_name, item_name) in iteritems(logger.censored_items)] compares
    the pair of names with each (key, value) item. *)
Definition in_iteritems (cfg_name item_name : string)
    (items : gmap (string * string) value) : bool :=
  existsb (fun kv => name_eq_key cfg_name (fst kv) && value_eqb (VStr item_name) (snd kv))
          (map_to_list items).

(** The block that records a value for log censoring. *)
Definition record_censored (privacy_level censor_level : Z)
    (cfg_name item_name : string) (my_val : value) : run store unit :=
  fun s =>
    if Z.leb censor_level privacy_level || in_iteritems cfg_name item_name (censored_items s)
    then
      if negb (endswith "custom_url" item_name)
      then (Ret tt, Store (cfg s) (<[(cfg_name, item_name) := my_val]> (censored_items s)))
      else (Ret tt, s)
    else (Ret tt, s).

(** [encryption_version] of [check_str] *)
Definition encryption_version_of (app : globals) (item_name : string) : outcome value :=
  if contains "password" item_name then getattr app "ENCRYPTION_VERSION" else Ret (VInt 0).

(** [check_str(config, cfg_name, item_name, def_val, silent, censor_log,
    valid_values)] *)
Definition check_str (app : globals) (cfg_name item_name : string) (def_val : value)
    (censor_log : value) (valid_values : option (list value)) : run store value :=
  let* censor_level := lift (censor_level_of censor_log) in
  let* level_name := lift (getattr app "PRIVACY_LEVEL") in
  let* privacy_level := lift (privacy_levels level_name) in
  let* encryption_version := lift (encryption_version_of app item_name) in
  let* my_val :=
    try_except
      (let* stored := getitem cfg_name item_name in
       let* my_val := lift (decrypt stored encryption_version) in
       if String.eqb (str my_val) (str VNone) then raise Exception else ret my_val)
      (fun _ =>
         let* _ := write_back cfg_name item_name (lift (encrypt def_val encryption_version)) in
         ret def_val) in
  let* _ := record_censored privacy_level censor_level cfg_name item_name my_val in
  match valid_values with
  | Some allowed =>
      if truthy (VList allowed) && negb (existsb (value_eqb my_val) allowed)
      then ret def_val
      else ret my_val
  | None => ret my_val
  end.

(** The loop of [check_list] that casts the items of a list in place.
    [done] holds the items already replaced; the second component is the
    list object as the loop leaves it. *)
Fixpoint transform_items (transform : value -> outcome value) (transform_default : value)
    (done todo : list value) : outcome (list value) * list value :=
  match todo with
  | [] => (Ret done, done)
  | v :: rest =>
      match transform v with
      | Ret v' => transform_items transform transform_default (done ++ [v']) rest
      | Raise ValueError =>
          transform_items transform transform_default (done ++ [transform_default]) rest
      | Raise e => (Raise e, done ++ todo)
      | Exit n => (Exit n, done ++ todo)
      end
  end.

(** [check_list(config, cfg_name, item_name, default, silent, censor_log,
    transform, transform_default, split_value)].  A list read from the
    configuration, or the default just stored there, is the very object
    the configuration holds, so the cast loop rewrites the entry too;
    a list made by [split_and_strip] is a fresh one. *)
Definition check_list (app : globals) (cfg_name item_name : string) (default : value)
    (censor_log : value) (transform : option (value -> outcome value))
    (transform_default : value) (split_value : value) : run store value :=
  let default := if truthy default then default else VList [] in
  let* censor_level := lift (censor_level_of censor_log) in
  let* level_name := lift (getattr app "PRIVACY_LEVEL") in
  let* privacy_level := lift (privacy_levels level_name) in
  let* my_val :=
    try_except
      (getitem cfg_name item_name)
      (fun _ =>
         let* _ := write_back cfg_name item_name (ret default) in
         ret default) in
  let* _ := record_censored privacy_level censor_level cfg_name item_name my_val in
  let* my_val_shared :=
    match my_val with
    | VStr _ =>
        if truthy split_value
        then let* l := lift (split_and_strip my_val split_value) in ret (l, false)
        else ret (my_val, true)
    | _ => ret (my_val, true)
    end in
  match my_val_shared, transform with
  | (VList l, shared), Some f =>
      fun s =>
        let (r, l') := transform_items f transform_default [] l in
        let s' := if (shared : bool)
                  then match setitem cfg_name item_name (VList l') s with
                       | (Ret _, s') => s'
                       | _ => s
                       end
                  else s in
        (match r with
         | Ret l'' => Ret (VList l'')
         | Raise e => Raise e
         | Exit n => Exit n
         end, s')
  | (v, _), _ => ret v
  end.

End Helpers.

(** [config] after [config[cfg_name][item_name] = v], the section being
    created empty first when it is absent. *)
Definition written (c : config) (cfg_name item_name : string) (v : value) : config :=
  <[cfg_name := <[item_name := v]> (default ∅ (c !! cfg_name))]> c.

(** *** Facts about the helpers *)

Lemma getitem_lookup (s : store) (cfg_name item_name : string) :
  getitem cfg_name item_name s =
  (match lookup_item (cfg s) cfg_name item_name with
   | Some v => Ret v
   | None => Raise (KeyError (match cfg s !! cfg_name with
                              | Some _ => item_name
                              | None => cfg_name
                              end))
   end, s).
Proof.
  unfold getitem, lookup_item.
  destruct (cfg s !! cfg_name) as [sec|]; [|reflexivity].
  destruct (sec !! item_name); reflexivity.
Qed.

(** The write-back handler never fails when the value is at hand, and
    leaves [written]. *)
Lemma write_back_ret (s : store) (cfg_name item_name : string) (v : value) :
  write_back cfg_name item_name (ret v) s =
  (Ret tt, set_cfg (written (cfg s) cfg_name item_name v) s).
Proof.
  unfold write_back, try_except, bind, ret, setitem, new_section, modify, written.
  destruct (cfg s !! cfg_name) as [sec|] eqn:E; simpl.
  - reflexivity.
  - rewrite lookup_insert_eq. simpl. rewrite insert_insert_eq. reflexivity.
Qed.

Lemma write_back_lift (s : store) (cfg_name item_name : string) (v : value) :
  write_back cfg_name item_name (lift (Ret v)) s =
  (Ret tt, set_cfg (written (cfg s) cfg_name item_name v) s).
Proof. apply write_back_ret. Qed.

Lemma int_no_exit (v : value) (n : Z) : int v <> Exit n.
Proof.
  destruct v as [| b | z | t | l]; simpl; try discriminate.
  destruct (int_of_string t); discriminate.
Qed.

Lemma int_of_setting_no_exit (v : value) (n : Z) : int_of_setting v <> Exit n.
Proof.
  unfold int_of_setting.
  match goal with |- context [int ?w] => generalize w end.
  intros w. destruct (int w) as [m | e | m] eqn:E.
  - destruct (String.eqb _ _); discriminate.
  - discriminate.
  - exfalso. exact (int_no_exit _ _ E).
Qed.

Lemma check_int_hit (s : store) (cfg_name item_name : string) (def_val v : value) (n : Z) :
  lookup_item (cfg s) cfg_name item_name = Some v ->
  int_of_setting v = Ret n ->
  check_int cfg_name item_name def_val s = (Ret (VInt n), s).
Proof.
  intros Hv Hn. unfold check_int, try_except, bind.
  rewrite getitem_lookup, Hv. unfold lift. rewrite Hn. reflexivity.
Qed.

Lemma check_int_miss (s : store) (cfg_name item_name : string) (def_val : value) :
  (lookup_item (cfg s) cfg_name item_name = None \/
   exists v, lookup_item (cfg s) cfg_name item_name = Some v /\
             forall n, int_of_setting v <> Ret n) ->
  check_int cfg_name item_name def_val s =
  (Ret def_val, set_cfg (written (cfg s) cfg_name item_name def_val) s).
Proof.
  intros H. unfold check_int, try_except.
  unfold bind at 1. rewrite getitem_lookup.
  destruct H as [Hnone | (v & Hv & Hbad)].
  - rewrite Hnone. unfold bind. rewrite write_back_ret. reflexivity.
  - rewrite Hv. unfold lift.
    destruct (int_of_setting v) as [n | e | n] eqn:E.
    + exfalso. exact (Hbad n eq_refl).
    + unfold bind. rewrite write_back_ret. reflexivity.
    + exfalso. exact (int_of_setting_no_exit _ _ E).
Qed.

Section HelperFacts.

Variable decrypt : value -> value -> outcome value.
Variable encrypt : value -> value -> outcome value.
Variable privacy_levels : value -> outcome Z.
Variable split_and_strip : value -> value -> outcome value.

(** The lookups [check_str] and [check_list] make before they touch the
    configuration all succeed. *)
Definition levels_known (app : globals) (censor_log : value) (cl pl : Z) : Prop :=
  censor_level_of privacy_levels censor_log = Ret cl /\
  exists level_name, getattr app "PRIVACY_LEVEL" = Ret level_name /\
                     privacy_levels level_name = Ret pl.

(** [valid_values] is given and does not list [v]. *)
Definition excluded (valid_values : option (list value)) (v : value) : bool :=
  match valid_values with
  | Some allowed => truthy (VList allowed) && negb (existsb (value_eqb v) allowed)
  | None => false
  end.

Lemma record_censored_cfg (pl cl : Z) (cfg_name item_name : string) (v : value) (s : store) :
  fst (record_censored pl cl cfg_name item_name v s) = Ret tt /\
  cfg (snd (record_censored pl cl cfg_name item_name v s)) = cfg s.
Proof.
  unfold record_censored.
  destruct (_ || _); [destruct (negb _)|]; split; reflexivity.
Qed.

Lemma check_str_hit (app : globals) (s : store) (cfg_name item_name : string)
    (def_val censor_log : value) (valid_values : option (list value))
    (cl pl : Z) (ver stored v : value) :
  levels_known app censor_log cl pl ->
  encryption_version_of app item_name = Ret ver ->
  lookup_item (cfg s) cfg_name item_name = Some stored ->
  decrypt stored ver = Ret v ->
  str v <> "None" ->
  check_str decrypt encrypt privacy_levels app cfg_name item_name def_val
            censor_log valid_values s =
  (Ret (if excluded valid_values v then def_val else v),
   snd (record_censored pl cl cfg_name item_name v s)).
Proof.
  intros (Hcl & nm & Hnm & Hpl) Hver Hstored Hdec Hstr.
  unfold check_str.
  unfold bind at 1. unfold lift at 1. rewrite Hcl.
  unfold bind at 1. unfold lift at 1. rewrite Hnm.
  unfold bind at 1. unfold lift at 1. rewrite Hpl.
  unfold bind at 1. unfold lift at 1. rewrite Hver.
  unfold bind at 1. unfold try_except.
  unfold bind at 1. rewrite getitem_lookup, Hstored.
  unfold bind at 1. unfold lift at 1. rewrite Hdec.
  apply String.eqb_neq in Hstr. change (str VNone) with "None". rewrite Hstr.
  unfold ret at 1. unfold bind.
  destruct (record_censored_cfg pl cl cfg_name item_name v s) as [Hr _].
  destruct (record_censored pl cl cfg_name item_name v s) as [r s'].
  simpl in Hr. subst r. cbv beta iota.
  unfold excluded. destruct valid_values as [allowed|]; [|reflexivity].
  destruct (truthy (VList allowed) && _); reflexivity.
Qed.

Lemma check_str_miss (app : globals) (s : store) (cfg_name item_name : string)
    (def_val censor_log : value) (valid_values : option (list value))
    (cl pl : Z) (ver enc : value) :
  levels_known app censor_log cl pl ->
  encryption_version_of app item_name = Ret ver ->
  (lookup_item (cfg s) cfg_name item_name = None \/
   exists stored, lookup_item (cfg s) cfg_name item_name = Some stored /\
     ((exists e, decrypt stored ver = Raise e) \/
      (exists v, decrypt stored ver = Ret v /\ str v = "None"))) ->
  encrypt def_val ver = Ret enc ->
  check_str decrypt encrypt privacy_levels app cfg_name item_name def_val
            censor_log valid_values s =
  (Ret def_val,
   snd (record_censored pl cl cfg_name item_name def_val
          (set_cfg (written (cfg s) cfg_name item_name enc) s))).
Proof.
  intros (Hcl & nm & Hnm & Hpl) Hver Hmiss Henc.
  unfold check_str.
  unfold bind at 1. unfold lift at 1. rewrite Hcl.
  unfold bind at 1. unfold lift at 1. rewrite Hnm.
  unfold bind at 1. unfold lift at 1. rewrite Hpl.
  unfold bind at 1. unfold lift at 1. rewrite Hver.
  unfold bind at 1. unfold try_except.
  assert (Hhandler :
    (let* _ := write_back cfg_name item_name (lift (encrypt def_val ver)) in ret def_val) s =
    (Ret def_val, set_cfg (written (cfg s) cfg_name item_name enc) s)).
  { unfold bind. rewrite Henc, write_back_lift. reflexivity. }
  assert (Hbody :
    match
      (let* stored := getitem cfg_name item_name in
       let* my_val := lift (decrypt stored ver) in
       if String.eqb (str my_val) (str VNone) then raise Exception else ret my_val) s
    with
    | (Raise e, s') =>
        (let* _ := write_back cfg_name item_name (lift (encrypt def_val ver)) in ret def_val) s'
    | r => r
    end = (Ret def_val, set_cfg (written (cfg s) cfg_name item_name enc) s)).
  { unfold bind at 1. rewrite getitem_lookup.
    destruct Hmiss as [Hnone | (stored & Hstored & [(e & Hdec) | (v & Hdec & Hstr)])].
    - rewrite Hnone. exact Hhandler.
    - rewrite Hstored. unfold bind at 1. unfold lift at 1. rewrite Hdec. exact Hhandler.
    - rewrite Hstored. unfold bind at 1. unfold lift at 1. rewrite Hdec.
      change (str VNone) with "None". rewrite Hstr. simpl. exact Hhandler. }
  rewrite Hbody. clear Hbody Hhandler.
  unfold bind.
  match goal with |- context [record_censored ?a ?b ?c ?d ?e ?f] =>
    destruct (record_censored_cfg a b c d e f) as [Hr _];
    destruct (record_censored a b c d e f) as [r s']
  end.
  simpl in Hr. subst r. cbv beta iota.
  destruct valid_values as [allowed|]; [|reflexivity].
  destruct (truthy (VList allowed) && _); reflexivity.
Qed.

(** [default or []] *)
Definition list_default (default : value) : value :=
  if truthy default then default else VList [].

Lemma check_list_prefix (app : globals) (s : store) (cfg_name item_name : string)
    (default censor_log : value) (cl pl : Z) :
  levels_known app censor_log cl pl ->
  check_list privacy_levels split_and_strip app cfg_name item_name default
             censor_log None VNone (VBool false) s =
  match lookup_item (cfg s) cfg_name item_name with
  | Some v => (Ret v, snd (record_censored pl cl cfg_name item_name v s))
  | None =>
      (Ret (list_default default),
       snd (record_censored pl cl cfg_name item_name (list_default default)
              (set_cfg (written (cfg s) cfg_name item_name (list_default default)) s)))
  end.
Proof.
  intros (Hcl & nm & Hnm & Hpl).
  unfold check_list. fold (list_default default).
  unfold bind at 1. unfold lift at 1. rewrite Hcl.
  unfold bind at 1. unfold lift at 1. rewrite Hnm.
  unfold bind at 1. unfold lift at 1. rewrite Hpl.
  unfold bind at 1. unfold try_except. rewrite getitem_lookup.
  destruct (lookup_item (cfg s) cfg_name item_name) as [v|].
  - unfold bind at 1.
    destruct (record_censored_cfg pl cl cfg_name item_name v s) as [Hr _].
    destruct (record_censored pl cl cfg_name item_name v s) as [r s'].
    simpl in Hr. subst r. cbv beta iota.
    destruct v; reflexivity.
  - cbv beta iota.
    rewrite (bind_ret _ _ _ _ _ (write_back_ret s cfg_name item_name (list_default default))).
    unfold ret at 1. unfold bind at 1.
    match goal with |- context [record_censored ?a ?b ?c ?d ?e ?f] =>
      destruct (record_censored_cfg a b c d e f) as [Hr _];
      destruct (record_censored a b c d e f) as [r s']
    end.
    simpl in Hr. subst r. cbv beta iota.
    destruct (list_default default); reflexivity.
Qed.

End HelperFacts.

(** *** Instances of the parameters, for the examples *)

(** A cipher that stores plain text. *)
Definition plain_text (v version : value) : outcome value := Ret v.

(** A table of privacy levels. *)
Definition sample_levels (k : value) : outcome Z :=
  match k with
  | VStr "stupid" => Ret 3
  | VStr "max" => Ret 2
  | VStr "high" => Ret 1
  | VStr "normal" => Ret 0
  | _ => Raise (KeyError (str k))
  end.

Definition sample_app : globals :=
  {[ "PRIVACY_LEVEL" := VStr "normal"; "ENCRYPTION_VERSION" := VInt 0 ]}.

Definition sample_split (v split_value : value) : outcome value :=
  match v, split_value with
  | VStr text, VStr sep => Ret (VList (map (fun t => VStr (strip t)) (split sep text)))
  | _, _ => Raise TypeError
  end.

Definition sample_cast (v : value) : outcome value :=
  match int v with
  | Ret n => Ret (VInt n)
  | Raise e => Raise e
  | Exit n => Exit n
  end.

Definition sample_store : store :=
  Store {[ "General" := {[ "port" := VStr "8081"; "debug" := VStr "True";
                           "mode" := VStr "x"; "retries" := VStr "many" ]};
           "Ports" := {[ "list" := VList [VStr "1"; VStr "x"] ]} ]} ∅.

Example check_int_reads :
  check_int "General" "port" (VInt 1) sample_store = (Ret (VInt 8081), sample_store) /\
  check_int "General" "debug" (VInt 0) sample_store = (Ret (VInt 1), sample_store).
Proof. split; vm_compute; reflexivity. Qed.

Example check_int_writes_back :
  lookup_item (cfg (snd (check_int "General" "retries" (VInt 3) sample_store)))
              "General" "retries" = Some (VInt 3) /\
  lookup_item (cfg (snd (check_int "KODI" "port" (VInt 80) sample_store)))
              "KODI" "port" = Some (VInt 80) /\
  lookup_item (cfg (snd (check_int "General" "retries" (VInt 3) sample_store)))
              "General" "port" = Some (VStr "8081").
Proof. repeat split; vm_compute; reflexivity. Qed.

(** With a [transform], [check_list] rewrites the stored list even though
    the key is present. *)
Example check_list_casts_in_place :
  let r := check_list sample_levels sample_split sample_app "Ports" "list" VNone
             (VBool false) (Some sample_cast) (VInt 0) (VBool false)
             sample_store in
  fst r = Ret (VList [VInt 1; VInt 0]) /\
  lookup_item (cfg (snd r)) "Ports" "list" = Some (VList [VInt 1; VInt 0]).
Proof. split; vm_compute; reflexivity. Qed.

(** *** The write-back effect of a lookup *)

(** The number [check_int] finds: the entry exists and its value parses. *)
Definition parsed_int (c : config) (cfg_name item_name : string) : option Z :=
  match lookup_item c cfg_name item_name with
  | Some v => match int_of_setting v with Ret n => Some n | _ => None end
  | None => None
  end.

(** The value [check_str] finds: the entry exists, decrypts, and its text
    is not the word None. *)
Definition parsed_str (decrypt : value -> value -> outcome value)
    (c : config) (cfg_name item_name : string) (ver : value) : option value :=
  match lookup_item c cfg_name item_name with
  | Some stored =>
      match decrypt stored ver with
      | Ret v => if String.eqb (str v) "None" then None else Some v
      | _ => None
      end
  | None => None
  end.

(** C10, as stated, fails for [check_str] with [valid_values]: the entry
    General/mode exists and parses to "x", yet [check_str] returns the
    default "a" because "x" is not among the valid values; nothing is
    written back either. *)
Lemma check_str_valid_values_returns_default :
  parsed_str plain_text (cfg sample_store) "General" "mode" (VInt 0) = Some (VStr "x") /\
  check_str plain_text plain_text sample_levels sample_app "General" "mode" (VStr "a")
            (VBool false) (Some [VStr "a"; VStr "b"]) sample_store
  = (Ret (VStr "a"), sample_store).
Proof. split; vm_compute; reflexivity. Qed.

Section WriteBack.

Variable decrypt : value -> value -> outcome value.
Variable encrypt : value -> value -> outcome value.
Variable privacy_levels : value -> outcome Z.
Variable split_and_strip : value -> value -> outcome value.

(** C10 (amended).  A lookup that finds a value which parses leaves the
    configuration unchanged and returns the parsed value; [check_str]
    returns the default instead when [valid_values] is given and does not
    list the value.  A lookup that finds no entry, or one that does not
    parse, stores a default under [config[cfg_name][item_name]], creating
    the section when it is absent, and returns the default: [check_int] and
    [check_bool] store the default itself, [check_str] stores what
    [helpers.encrypt] makes of it at the encryption version of the item,
    and [check_list] (called without [transform] and [split_value]) stores
    [default or []]. *)
Theorem check_write_back :
  (forall (s : store) (cfg_name item_name : string) (def_val : value),
     check_int cfg_name item_name def_val s =
     match parsed_int (cfg s) cfg_name item_name with
     | Some n => (Ret (VInt n), s)
     | None => (Ret def_val, set_cfg (written (cfg s) cfg_name item_name def_val) s)
     end) /\
  (forall (s : store) (cfg_name item_name : string) (def_val : value),
     check_bool cfg_name item_name def_val s =
     match parsed_int (cfg s) cfg_name item_name with
     | Some n => (Ret (VBool (negb (Z.eqb n 0))), s)
     | None => (Ret (VBool (truthy def_val)),
                set_cfg (written (cfg s) cfg_name item_name def_val) s)
     end) /\
  (forall (app : globals) (s : store) (cfg_name item_name : string)
          (def_val censor_log : value) (valid_values : option (list value))
          (cl pl : Z) (ver enc : value),
     levels_known privacy_levels app censor_log cl pl ->
     encryption_version_of app item_name = Ret ver ->
     encrypt def_val ver = Ret enc ->
     (forall stored n, decrypt stored ver <> Exit n) ->
     let r := check_str decrypt encrypt privacy_levels app cfg_name item_name def_val
                        censor_log valid_values s in
     match parsed_str decrypt (cfg s) cfg_name item_name ver with
     | Some v =>
         fst r = Ret (if excluded valid_values v then def_val else v) /\
         cfg (snd r) = cfg s
     | None =>
         fst r = Ret def_val /\
         cfg (snd r) = written (cfg s) cfg_name item_name enc
     end) /\
  (forall (app : globals) (s : store) (cfg_name item_name : string)
          (default censor_log : value) (cl pl : Z),
     levels_known privacy_levels app censor_log cl pl ->
     let r := check_list privacy_levels split_and_strip app cfg_name item_name default
                         censor_log None VNone (VBool false) s in
     match lookup_item (cfg s) cfg_name item_name with
     | Some v => fst r = Ret v /\ cfg (snd r) = cfg s
     | None =>
         fst r = Ret (list_default default) /\
         cfg (snd r) = written (cfg s) cfg_name item_name (list_default default)
     end).
Proof.
  assert (Hint : forall s cfg_name item_name def_val,
     check_int cfg_name item_name def_val s =
     match parsed_int (cfg s) cfg_name item_name with
     | Some n => (Ret (VInt n), s)
     | None => (Ret def_val, set_cfg (written (cfg s) cfg_name item_name def_val) s)
     end).
  { intros s cfg_name item_name def_val. unfold parsed_int.
    destruct (lookup_item (cfg s) cfg_name item_name) as [v|] eqn:Hv.
    - destruct (int_of_setting v) as [n | e | n] eqn:Hn.
      + eapply check_int_hit; eauto.
      + apply check_int_miss. right. exists v. split; [assumption|]. congruence.
      + exfalso. exact (int_of_setting_no_exit _ _ Hn).
    - apply check_int_miss. left. assumption. }
  split; [exact Hint|]. split; [|split].
  - intros s cfg_name item_name def_val. unfold check_bool.
    destruct (parsed_int (cfg s) cfg_name item_name) as [n|] eqn:Hp.
    + rewrite (bind_ret _ _ _ (VInt n) s); [reflexivity|].
      rewrite Hint, Hp. reflexivity.
    + erewrite bind_ret; [reflexivity|]. rewrite Hint, Hp. reflexivity.
  - intros app s cfg_name item_name def_val censor_log valid_values cl pl ver enc
           Hlv Hver Henc Hnoexit r. subst r. unfold parsed_str.
    destruct (lookup_item (cfg s) cfg_name item_name) as [stored|] eqn:Hst.
    + destruct (decrypt stored ver) as [v | e | n] eqn:Hdec.
      * destruct (String.eqb (str v) "None") eqn:Hs.
        -- apply String.eqb_eq in Hs.
           erewrite check_str_miss; eauto.
           ++ split; [reflexivity|]. apply record_censored_cfg.
           ++ right. exists stored. split; [assumption|]. right. eauto.
        -- apply String.eqb_neq in Hs.
           erewrite check_str_hit; eauto.
           split; [reflexivity|]. apply record_censored_cfg.
      * erewrite check_str_miss; eauto.
        -- split; [reflexivity|]. apply record_censored_cfg.
        -- right. exists stored. split; [assumption|]. left. eauto.
      * exfalso. exact (Hnoexit _ _ Hdec).
    + erewrite check_str_miss; eauto.
      split; [reflexivity|]. apply record_censored_cfg.
  - intros app s cfg_name item_name default censor_log cl pl Hlv r. subst r.
    rewrite (check_list_prefix privacy_levels split_and_strip app s cfg_name item_name
               default censor_log cl pl Hlv).
    destruct (lookup_item (cfg s) cfg_name item_name) as [v|].
    + split; [reflexivity|]. apply record_censored_cfg.
    + split; [reflexivity|]. apply record_censored_cfg.
Qed.

End WriteBack.

(** The premises of [check_write_back] hold for the sample instances: a
    missing section is created and the default stored in it. *)
Lemma check_write_back_witness :
  cfg (snd (check_str plain_text plain_text sample_levels sample_app "KODI" "kodi_host"
              (VStr "localhost") (VBool false) None sample_store))
  = written (cfg sample_store) "KODI" "kodi_host" (VStr "localhost").
Proof.
  pose proof (check_write_back plain_text plain_text sample_levels sample_split) as H.
  destruct H as (_ & _ & Hstr & _).
  specialize (Hstr sample_app sample_store "KODI" "kodi_host" (VStr "localhost")
                   (VBool false) None 3 0 (VInt 0) (VStr "localhost")).
  assert (H1 : levels_known sample_levels sample_app (VBool false) 3 0).
  { split; [reflexivity|]. exists (VStr "normal"). split; reflexivity. }
  specialize (Hstr H1 eq_refl eq_refl).
  assert (H2 : forall (stored : value) (n : Z), plain_text stored (VInt 0) <> Exit n).
  { intros stored n. discriminate. }
  specialize (Hstr H2).
  exact (proj2 Hstr).
Defined.

(** *** A second lookup *)







(** *** The dispatcher [check] *)

(** The keyword arguments a caller can hand down to the helpers; [None]
    is a keyword that is not given. *)
Record keywords : Type := Keywords {
  kw_censor_log : option value;
  kw_valid_values : option (list value);
  kw_transform : option (value -> outcome value);
  kw_transform_default : option value;
  kw_split_value : option value;
}.


Section Dispatch.

Variable decrypt : value -> value -> outcome value.
Variable encrypt : value -> value -> outcome value.
Variable privacy_levels : value -> outcome Z.
Variable split_and_strip : value -> value -> outcome value.

(** [check_float], which parses floating point numbers. *)
Variable check_float : string -> string -> value -> run store value.

(** A helper that takes no keyword but [silent]. *)
Definition without_keywords (kwargs : keywords) (m : run store value) : run store value :=
  match kwargs with
  | Keywords None None None None None => m
  | _ => raise TypeError
  end.

(** [check(config, section, attr_type, attr, default, silent, **kwargs)]:
    the helper is looked up in a dictionary, then called; a helper handed
    a keyword it does not have raises [TypeError]. *)
Definition check (app : globals) (section attr_type attr : string) (default : value)
    (kwargs : keywords) : run store value :=
  if String.eqb attr_type "string" then
    match kw_transform kwargs, kw_transform_default kwargs, kw_split_value kwargs with
    | None, None, None =>
        check_str decrypt encrypt privacy_levels app section attr default
                  (from_option id (VBool false) (kw_censor_log kwargs))
                  (kw_valid_values kwargs)
    | _, _, _ => raise TypeError
    end
  else if String.eqb attr_type "int" then
    without_keywords kwargs (check_int section attr default)
  else if String.eqb attr_type "float" then
    without_keywords kwargs (check_float section attr default)
  else if String.eqb attr_type "bool" then
    without_keywords kwargs (check_bool section attr default)
  else if String.eqb attr_type "list" then
    match kw_valid_values kwargs with
    | None =>
        check_list privacy_levels split_and_strip app section attr default
                   (from_option id (VBool false) (kw_censor_log kwargs))
                   (kw_transform kwargs)
                   (from_option id (VInt 0) (kw_transform_default kwargs))
                   (from_option id (VBool false) (kw_split_value kwargs))
    | Some _ => raise TypeError
    end
  else raise (KeyError attr_type).

End Dispatch.

End Setting.

(** ** Helpers of [medusa/config/__init__.py] *)

Module Config.

Import Setting.

(** *** [convert_csv_string_to_list] *)



(** What is not a text comes back as it is; the empty text is the empty
    list; and with an empty delimiter, on which [str.split] raises the
    [ValueError] that the function suppresses, the text comes back as it
    is, not as a list. *)
Example convert_csv_string_to_list_edges :
  convert_csv_string_to_list (VList [VStr "a"]) "," true = VList [VStr "a"] /\
  convert_csv_string_to_list (VStr "") "," false = VList [] /\
  convert_csv_string_to_list (VStr "a,b") "" false = VStr "a,b" /\
  convert_csv_string_to_list (VStr " a , b ") "," true = VList [VStr "a"; VStr "b"].
Proof. repeat split. Qed.

(** *** [CheckSection] *)



(** *** [minimax] *)

Section TryInt.

(** [try_int(candidate, default_value)] of [medusa.helper.common], which
    is not among the sources: the number [candidate] stands for, or the
    default. *)
Variable try_int : value -> Z -> Z.



End TryInt.

End Config.

(** ** Provider settings ([medusa/config/provider.py], and
       [check_provider_setting], [load_provider_setting] and
       [save_provider_setting] of [medusa/config/__init__.py], which
       repeat it) *)

Module Provider.

Import Setting.

(** A provider object: what [get_id()] answers, and its attributes. *)
Record provider : Type := ProviderObject {
  get_id : string;
  attributes : gmap string value;
}.



(** ['{name}_{attr}'.format(name=name, attr=attr)] *)
Definition setting_of (name attr : string) : string := name +:+ "_" +:+ attr.

Section ProviderSettings.

Variable decrypt : value -> value -> outcome value.
Variable encrypt : value -> value -> outcome value.
Variable privacy_levels : value -> outcome Z.
Variable split_and_strip : value -> value -> outcome value.
Variable check_float : string -> string -> value -> run store value.

Abbreviation check_setting :=
  (Setting.check decrypt encrypt privacy_levels split_and_strip check_float).

(** [check(config, provider, attr_type, attr, default, silent, **kwargs)] *)
Definition check (app : globals) (p : provider) (attr_type attr : string) (default : value)
    (kwargs : keywords) : run store value :=
  let name := get_id p in
  let section := upper name in
  let attr := setting_of name attr in
  check_setting app section attr_type attr default kwargs.











End ProviderSettings.





End Provider.

(** ** The configuration migration chain ([medusa/config/migration.py]) *)

Module Migration.

Import Setting.

(** *** Step 5: metadata layout *)

(** Code that only writes to the log. *)
Definition logged (A : Type) : Type := run (list log_entry) A.

Definition log_to (lvl : level) (template : string) (args : list (string * value)) :
    logged unit :=
  modify (fun l => l ++ [Log lvl template args]).

(** The local function [_migrate_metadata(metadata, metadata_name,
    use_banner)] of [_migrate_v5]. *)
Definition _migrate_metadata (metadata metadata_name : string) (use_banner : bool) :
    logged string :=
  let cur_metadata := split "|" metadata in
  if Nat.eqb (length cur_metadata) 6 then
    let* _ := log_to INFO "Upgrading {metadata_name} metadata, old value: {value}"
                [("metadata_name", VStr metadata_name); ("value", VStr metadata)] in
    let cur_metadata := list_insert_at 4 "0" cur_metadata in
    let cur_metadata := cur_metadata ++ ["0"] in
    let cur_metadata := cur_metadata ++ ["0"] in
    let cur_metadata := cur_metadata ++ ["0"] in
    (* swap show fanart, show poster *)
    let* a := lift (index cur_metadata 2) in
    let* b := lift (index cur_metadata 3) in
    let* cur_metadata := lift (list_assign 3 a cur_metadata) in
    let* cur_metadata := lift (list_assign 2 b cur_metadata) in
    let* cur_metadata :=
      if String.eqb metadata_name "XBMC" && use_banner then
        let* c := lift (index cur_metadata 3) in
        let* cur_metadata := lift (list_assign 4 c cur_metadata) in
        lift (list_assign 3 "0" cur_metadata)
      else ret cur_metadata in
    let metadata := join "|" cur_metadata in
    let* _ := log_to INFO "Upgrading {metadata_name} metadata, new value: {value}"
                [("metadata_name", VStr metadata_name); ("value", VStr metadata)] in
    ret metadata
  else if Nat.eqb (length cur_metadata) 10 then
    let metadata := join "|" cur_metadata in
    let* _ := log_to INFO "Keeping {metadata_name} metadata, value: {value}"
                [("metadata_name", VStr metadata_name); ("value", VStr metadata)] in
    ret metadata
  else
    let* _ := log_to ERROR "Skipping {metadata_name} metadata {metadata!r}, incorrect format"
                [("metadata_name", VStr metadata_name); ("metadata", VStr metadata)] in
    let metadata := "0|0|0|0|0|0|0|0|0|0" in
    let* _ := log_to INFO "Setting {metadata_name} metadata, new value: {value}"
                [("metadata_name", VStr metadata_name); ("value", VStr metadata)] in
    ret metadata.

Example metadata_upgrade_xbmc_banner :
  fst (_migrate_metadata "1|1|1|1|1|1" "XBMC" true []) = Ret "1|1|1|0|1|1|1|0|0|0".
Proof. reflexivity. Qed.

Example metadata_upgrade_swaps :
  fst (_migrate_metadata "a|b|c|d|e|f" "XBMC" true []) = Ret "a|b|d|0|c|e|f|0|0|0" /\
  fst (_migrate_metadata "a|b|c|d|e|f" "XBMC" false []) = Ret "a|b|d|c|0|e|f|0|0|0" /\
  fst (_migrate_metadata "a|b|c|d|e|f" "PS3" true []) = Ret "a|b|d|c|0|e|f|0|0|0".
Proof. repeat split. Qed.

(** The layout a six-slot value is upgraded to: slots 3 and 4 (show
    fanart, show poster) change places and zeros fill the new slots; when
    the value is the XBMC one and [use_banner] is set, the poster flag moves
    on to the banner slot and the poster slot is cleared. *)
Definition upgraded (metadata_name : string) (use_banner : bool)
    (a b c d e f : string) : list string :=
  if String.eqb metadata_name "XBMC" && use_banner
  then [a; b; d; "0"; c; e; f; "0"; "0"; "0"]
  else [a; b; d; c; "0"; e; f; "0"; "0"; "0"].

Definition skipped_entry (metadata metadata_name : string) : log_entry :=
  Log ERROR "Skipping {metadata_name} metadata {metadata!r}, incorrect format"
      [("metadata_name", VStr metadata_name); ("metadata", VStr metadata)].

Lemma migrate_metadata_six (metadata metadata_name : string) (use_banner : bool)
    (l : list log_entry) (a b c d e f : string) :
  split "|" metadata = [a; b; c; d; e; f] ->
  fst (_migrate_metadata metadata metadata_name use_banner l) =
  Ret (join "|" (upgraded metadata_name use_banner a b c d e f)).
Proof.
  intros H. unfold _migrate_metadata, upgraded. rewrite H.
  destruct (String.eqb metadata_name "XBMC" && use_banner); reflexivity.
Qed.

Lemma migrate_metadata_ten (metadata metadata_name : string) (use_banner : bool)
    (l : list log_entry) :
  length (split "|" metadata) = 10%nat ->
  fst (_migrate_metadata metadata metadata_name use_banner l) = Ret metadata.
Proof.
  intros H. unfold _migrate_metadata. rewrite H.
  change (join "|" (split "|" metadata)) with
    (join (String "|" "") (split (String "|" "") metadata)).
  rewrite join_split_char. reflexivity.
Qed.

Lemma migrate_metadata_other (metadata metadata_name : string) (use_banner : bool)
    (l : list log_entry) :
  length (split "|" metadata) <> 6%nat ->
  length (split "|" metadata) <> 10%nat ->
  _migrate_metadata metadata metadata_name use_banner l =
  (Ret "0|0|0|0|0|0|0|0|0|0",
   l ++ [skipped_entry metadata metadata_name] ++
     [Log INFO "Setting {metadata_name} metadata, new value: {value}"
          [("metadata_name", VStr metadata_name); ("value", VStr "0|0|0|0|0|0|0|0|0|0")]]).
Proof.
  intros H6 H10. unfold _migrate_metadata.
  apply Nat.eqb_neq in H6, H10. rewrite H6, H10.
  unfold bind, log_to, modify, ret. rewrite <- app_assoc. reflexivity.
Qed.

(** C4, as stated, fails: the fanart/poster swap does not depend on the
    banner flag.  With the flag off the two slots still change places, and
    for a value other than the XBMC one the flag changes nothing. *)
Lemma metadata_swap_is_unconditional :
  fst (_migrate_metadata "1|2|3|4|5|6" "PS3" false []) = Ret "1|2|4|3|0|5|6|0|0|0" /\
  fst (_migrate_metadata "1|2|3|4|5|6" "PS3" true []) = Ret "1|2|4|3|0|5|6|0|0|0" /\
  fst (_migrate_metadata "1|2|3|4|5|6" "XBMC" false []) = Ret "1|2|4|3|0|5|6|0|0|0".
Proof. repeat split. Qed.

(** C4 (amended).  A value of exactly six slots becomes the ten-slot
    layout [upgraded]: a zero slot is inserted at index 4, three zero slots
    are appended, slots 2 and 3 are swapped whatever the banner flag, and
    only for the XBMC value with the flag set is the poster slot moved to
    the banner slot and cleared.  A value of exactly ten slots is returned
    as it is.  Any other value is replaced by the all-zero ten-slot default
    and the skip is logged as an error. *)
Theorem migrate_metadata_layout (metadata metadata_name : string) (use_banner : bool)
    (l : list log_entry) :
  (forall a b c d e f : string,
     split "|" metadata = [a; b; c; d; e; f] ->
     fst (_migrate_metadata metadata metadata_name use_banner l) =
     Ret (join "|" (upgraded metadata_name use_banner a b c d e f))) /\
  (length (split "|" metadata) = 10%nat ->
     fst (_migrate_metadata metadata metadata_name use_banner l) = Ret metadata) /\
  (length (split "|" metadata) <> 6%nat ->
   length (split "|" metadata) <> 10%nat ->
     fst (_migrate_metadata metadata metadata_name use_banner l) =
       Ret "0|0|0|0|0|0|0|0|0|0" /\
     In (skipped_entry metadata metadata_name)
        (snd (_migrate_metadata metadata metadata_name use_banner l))).
Proof.
  split; [|split].
  - intros a b c d e f H. apply migrate_metadata_six. exact H.
  - apply migrate_metadata_ten.
  - intros H6 H10. rewrite migrate_metadata_other by assumption.
    split; [reflexivity|]. simpl. apply in_or_app. right. left. reflexivity.
Qed.

(** The three cases of [migrate_metadata_layout] at sample values. *)
Lemma migrate_metadata_layout_witness :
  fst (_migrate_metadata "1|1|1|1|1|1" "XBMC" true []) = Ret "1|1|1|0|1|1|1|0|0|0" /\
  fst (_migrate_metadata "1|0|1|0|1|0|1|0|1|0" "TIVO" false []) = Ret "1|0|1|0|1|0|1|0|1|0" /\
  fst (_migrate_metadata "1|1" "WDTV" false []) = Ret "0|0|0|0|0|0|0|0|0|0".
Proof.
  split; [|split].
  - exact (proj1 (migrate_metadata_layout "1|1|1|1|1|1" "XBMC" true [])
             "1" "1" "1" "1" "1" "1" eq_refl).
  - exact (proj1 (proj2 (migrate_metadata_layout "1|0|1|0|1|0|1|0|1|0" "TIVO" false []))
             eq_refl).
  - refine (proj1 (proj2 (proj2 (migrate_metadata_layout "1|1" "WDTV" false [])) _ _));
      vm_compute; discriminate.
Defined.


(** *** Step 10: RSS torrent providers *)

(** Modelled from the spec: the structured provider record that a legacy
    descriptor is parsed into (section 3, "structured provider entries").
    The class [TorrentRssProvider] is not among the sources; the record
    keeps the arguments its constructor is called with and the [enabled]
    attribute assigned afterwards. *)
Record TorrentRssProvider : Type := {
  name : string;
  url : string;
  cookies : value;
  title_tag : value;
  search_mode : value;
  search_fallback : value;
  enable_daily : value;
  enable_backlog : value;
  enable_manualsearch : value;
  enabled : bool;
}.

(** The local variables of [make_rss_torrent_provider] that the [try]
    block assigns, with their defaults from before the block. *)
Record locals : Type := Locals {
  l_name : string;
  l_url : string;
  l_cookies : value;
  l_title_tag : value;
  l_enabled : string;
  l_search_mode : value;
  l_search_fallback : value;
  l_enable_daily : value;
  l_enable_backlog : value;
  l_enable_manualsearch : value;
}.

(** The body of the [try] block, after [values = config.split('|')].  A
    tuple assignment of the wrong arity raises [ValueError]; [values[i]]
    beyond the end raises [IndexError]. *)
Definition assign_values (values : list string) : outcome locals :=
  let cookies := VStr "" in
  let enable_backlog := VInt 0 in
  let enable_daily := VInt 0 in
  let enable_manualsearch := VInt 0 in
  let search_fallback := VInt 0 in
  let search_mode := VStr "eponly" in
  let title_tag := VStr "title" in
  if Nat.eqb (length values) 9 then
    match values with
    | [n; u; c; t; e; sm; sf; ed; eb] =>
        Ret (Locals n u (VStr c) (VStr t) e (VStr sm) (VStr sf) (VStr ed) (VStr eb)
                    enable_manualsearch)
    | _ => Raise ValueError
    end
  else if Nat.eqb (length values) 10 then
    match values with
    | [n; u; c; t; e; sm; sf; ed; eb; em] =>
        Ret (Locals n u (VStr c) (VStr t) e (VStr sm) (VStr sf) (VStr ed) (VStr eb) (VStr em))
    | _ => Raise ValueError
    end
  else if Nat.eqb (length values) 8 then
    match values with
    | [n; u; c; e; sm; sf; ed; eb] =>
        Ret (Locals n u (VStr c) title_tag e (VStr sm) (VStr sf) (VStr ed) (VStr eb)
                    enable_manualsearch)
    | _ => Raise ValueError
    end
  else
    match index values 4 with
    | Ret e =>
        match index values 0 with
        | Ret n =>
            match index values 1 with
            | Ret u =>
                Ret (Locals n u cookies title_tag e search_mode search_fallback
                            enable_daily enable_backlog enable_manualsearch)
            | Raise x => Raise x
            | Exit k => Exit k
            end
        | Raise x => Raise x
        | Exit k => Exit k
        end
    | Raise x => Raise x
    | Exit k => Exit k
    end.

(** [TorrentRssProvider(name, url, cookies=..., ...)] followed by
    [new_provider.enabled = enabled == '1']. *)
Definition new_provider (v : locals) : TorrentRssProvider :=
  {| name := l_name v; url := l_url v; cookies := l_cookies v;
     title_tag := l_title_tag v; search_mode := l_search_mode v;
     search_fallback := l_search_fallback v; enable_daily := l_enable_daily v;
     enable_backlog := l_enable_backlog v;
     enable_manualsearch := l_enable_manualsearch v;
     enabled := String.eqb (l_enabled v) "1" |}.

(** [make_rss_torrent_provider(config)]; [None] is the Python [None]. *)
Definition make_rss_torrent_provider (config : string) :
    logged (option TorrentRssProvider) :=
  if negb (truthy (VStr config)) then ret None
  else
    let* parsed :=
      try_except_only is_ValueError
        (let values := split "|" config in
         let* v := lift (assign_values values) in
         ret (Some v))
        (fun _ =>
           let* _ := log_to ERROR
                       "Skipping RSS Torrent provider string: {config}, incorrect format"
                       [("config", VStr config)] in
           ret None) in
    match parsed with
    | Some v => ret (Some (new_provider v))
    | None => ret None
    end.

(** A comprehension over [l]: [f] runs on each element in turn, and the
    first exception ends it. *)
Fixpoint for_each {S A B : Type} (f : A -> run S B) (l : list A) : run S (list B) :=
  match l with
  | [] => ret []
  | x :: rest =>
      let* y := f x in
      let* ys := for_each f rest in
      ret (y :: ys)
  end.

(** The loop of [get_rss_torrent_providers_list] over [providers_list]. *)
Fixpoint keep_first (providers_list : list TorrentRssProvider)
    (seen_values : gset string) (providers_set : list TorrentRssProvider) :
    list TorrentRssProvider :=
  match providers_list with
  | [] => providers_set
  | provider :: rest =>
      let value := name provider in
      if decide (value ∈ seen_values)
      then keep_first rest seen_values providers_set
      else keep_first rest ({[value]} ∪ seen_values) (providers_set ++ [provider])
  end.

(** [get_rss_torrent_providers_list(data)].  A provider object is true in
    a condition, [None] is not. *)
Definition get_rss_torrent_providers_list (data : string) :
    logged (list TorrentRssProvider) :=
  let* made := for_each make_rss_torrent_provider (split "!!!" data) in
  let providers_list := omap id made in
  let providers_set := keep_first providers_list ∅ [] in
  ret (List.filter (fun _ => true) providers_set).

(** [get_providers_from_data(providers_string)] *)
Definition get_providers_from_data (providers_string : string) : outcome (list string) :=
  Ret (omap (fun provider =>
               if truthy (VStr provider)
               then match split "|" provider with
                    | first :: _ => Some (upper first)
                    | [] => None
                    end
               else None)
            (split "!!!" providers_string)).

Example rss_two_fields_each :
  fst (get_rss_torrent_providers_list
         "A|http://a/feed|c|title|1|eponly|0|1|1!!!B|http://b/feed|c|1|eponly|0|1|1" [])
  = Ret [ {| name := "A"; url := "http://a/feed"; cookies := VStr "c";
             title_tag := VStr "title"; search_mode := VStr "eponly";
             search_fallback := VStr "0"; enable_daily := VStr "1";
             enable_backlog := VStr "1"; enable_manualsearch := VInt 0;
             enabled := true |};
          {| name := "B"; url := "http://b/feed"; cookies := VStr "c";
             title_tag := VStr "title"; search_mode := VStr "eponly";
             search_fallback := VStr "0"; enable_daily := VStr "1";
             enable_backlog := VStr "1"; enable_manualsearch := VInt 0;
             enabled := true |} ].
Proof. vm_compute. reflexivity. Qed.

(** The provider a descriptor stands for, when it has one: the pure
    content of [make_rss_torrent_provider]. *)
Definition provider_of (config : string) : option TorrentRssProvider :=
  if negb (truthy (VStr config)) then None
  else match assign_values (split "|" config) with
       | Ret v => Some (new_provider v)
       | _ => None
       end.

(** The providers of the descriptors of [data], in order, duplicates
    included. *)
Definition described (data : string) : list TorrentRssProvider :=
  omap provider_of (split "!!!" data).

(** A descriptor [make_rss_torrent_provider] can read: it is empty, or
    has at least five fields. *)
Definition readable (config : string) : Prop :=
  config = "" \/ (5 <= length (split "|" config))%nat.

Lemma assign_values_ok (values : list string) :
  (5 <= length values)%nat -> exists v, assign_values values = Ret v.
Proof.
  intros H.
  destruct values as [|a [|b [|c [|d [|e rest]]]]]; simpl in H; try lia.
  destruct rest as [|f [|g [|h [|i [|j [|k r]]]]]]; cbn; eauto.
Qed.

Lemma make_readable (config : string) (l : list log_entry) :
  readable config ->
  make_rss_torrent_provider config l = (Ret (provider_of config), l).
Proof.
  intros [-> | H]; [reflexivity|].
  unfold make_rss_torrent_provider, provider_of.
  destruct (negb (truthy (VStr config))); [reflexivity|].
  destruct (assign_values_ok _ H) as [v Hv].
  unfold bind, try_except_only, lift, ret. rewrite Hv. reflexivity.
Qed.

Lemma for_each_make_readable (descriptors : list string) (l : list log_entry) :
  Forall readable descriptors ->
  for_each make_rss_torrent_provider descriptors l =
  (Ret (map provider_of descriptors), l).
Proof.
  induction 1 as [|d ds Hd Hds IH]; [reflexivity|].
  cbn [for_each map].
  rewrite (bind_ret _ _ _ _ _ (make_readable d l Hd)).
  rewrite (bind_ret _ _ _ _ _ IH). reflexivity.
Qed.

Lemma omap_id_map {A B : Type} (f : A -> option B) (l : list A) :
  omap id (map f l) = omap f l.
Proof.
  induction l as [|x l IH]; [reflexivity|].
  cbn. destruct (f x); cbn; rewrite <- IH; reflexivity.
Qed.

Lemma filter_all {A : Type} (l : list A) : List.filter (fun _ => true) l = l.
Proof. induction l as [|x l IH]; [reflexivity|]. simpl. congruence. Qed.

Lemma get_rss_torrent_providers_list_readable (data : string) (l : list log_entry) :
  Forall readable (split "!!!" data) ->
  get_rss_torrent_providers_list data l = (Ret (keep_first (described data) ∅ []), l).
Proof.
  intros H. unfold get_rss_torrent_providers_list, described.
  rewrite (bind_ret _ _ _ _ _ (for_each_make_readable _ l H)).
  rewrite omap_id_map, filter_all. reflexivity.
Qed.

(** Facts about the loop: what was kept stays, the names kept are
    distinct, each provider kept is the first of its name, and no name is
    lost. *)
Lemma keep_first_incl (l : list TorrentRssProvider) (seen : gset string)
    (acc : list TorrentRssProvider) (p : TorrentRssProvider) :
  p ∈ acc -> p ∈ keep_first l seen acc.
Proof.
  revert seen acc. induction l as [|x l IH]; intros seen acc Hp; simpl; [exact Hp|].
  destruct (decide (name x ∈ seen)); apply IH; [exact Hp|].
  apply elem_of_app. left. exact Hp.
Qed.

Lemma keep_first_NoDup (l : list TorrentRssProvider) (seen : gset string)
    (acc : list TorrentRssProvider) :
  NoDup (map name acc) ->
  (forall p, p ∈ acc -> name p ∈ seen) ->
  NoDup (map name (keep_first l seen acc)).
Proof.
  revert seen acc. induction l as [|x l IH]; intros seen acc Hnd Hseen; simpl; [exact Hnd|].
  destruct (decide (name x ∈ seen)) as [Hin|Hnin].
  - apply IH; assumption.
  - apply IH.
    + rewrite map_app. apply NoDup_app. split; [exact Hnd|]. split.
      * intros n Hn Hn'. simpl in Hn'. apply list_elem_of_singleton in Hn'. subst n.
        apply list_elem_of_fmap in Hn. destruct Hn as (q & Hq & Hqacc).
        apply Hnin. rewrite Hq. apply Hseen. exact Hqacc.
      * simpl. apply NoDup_singleton.
    + intros p Hp. apply elem_of_app in Hp. destruct Hp as [Hp|Hp].
      * apply elem_of_union. right. apply Hseen. exact Hp.
      * apply list_elem_of_singleton in Hp. subst p.
        apply elem_of_union. left. apply elem_of_singleton. reflexivity.
Qed.

Lemma keep_first_earliest (l : list TorrentRssProvider) (seen : gset string)
    (acc : list TorrentRssProvider) (p : TorrentRssProvider) :
  p ∈ keep_first l seen acc ->
  p ∈ acc \/
  exists pre post, l = pre ++ p :: post /\ (name p ∉ map name pre) /\ (name p ∉ seen).
Proof.
  revert seen acc. induction l as [|x l IH]; intros seen acc Hp; simpl in Hp.
  - left. exact Hp.
  - destruct (decide (name x ∈ seen)) as [Hin|Hnin].
    + destruct (IH _ _ Hp) as [Hacc | (pre & post & -> & Hpre & Hseen)]; [left; exact Hacc|].
      right. exists (x :: pre), post. split; [reflexivity|]. split; [|exact Hseen].
      simpl. intros Hx. apply elem_of_cons in Hx. destruct Hx as [Hx|Hx].
      * apply Hseen. rewrite Hx. exact Hin.
      * exact (Hpre Hx).
    + destruct (IH _ _ Hp) as [Hacc | (pre & post & -> & Hpre & Hseen)].
      * apply elem_of_app in Hacc. destruct Hacc as [Hacc|Hacc]; [left; exact Hacc|].
        apply list_elem_of_singleton in Hacc. subst p.
        right. exists [], l. split; [reflexivity|]. split; [|exact Hnin].
        simpl. apply not_elem_of_nil.
      * right. exists (x :: pre), post. split; [reflexivity|].
        apply not_elem_of_union in Hseen. destruct Hseen as [Hne Hseen].
        split; [|exact Hseen].
        simpl. intros Hx. apply elem_of_cons in Hx. destruct Hx as [Hx|Hx].
        -- apply Hne. apply elem_of_singleton. exact Hx.
        -- exact (Hpre Hx).
Qed.

Lemma keep_first_complete (l : list TorrentRssProvider) (seen : gset string)
    (acc : list TorrentRssProvider) (q : TorrentRssProvider) :
  (forall n, n ∈ seen -> exists p, p ∈ acc /\ name p = n) ->
  q ∈ l ->
  exists p, p ∈ keep_first l seen acc /\ name p = name q.
Proof.
  revert seen acc. induction l as [|x l IH]; intros seen acc Hseen Hq.
  - apply elem_of_nil in Hq. contradiction.
  - simpl. apply elem_of_cons in Hq.
    destruct (decide (name x ∈ seen)) as [Hin|Hnin].
    + destruct Hq as [->|Hq]; [|apply IH; assumption].
      destruct (Hseen _ Hin) as (p & Hp & Hn).
      exists p. split; [|exact Hn]. apply keep_first_incl. exact Hp.
    + assert (Hseen' : forall n, n ∈ ({[name x]} ∪ seen : gset string) ->
                         exists p, p ∈ acc ++ [x] /\ name p = n).
      { intros n Hn. apply elem_of_union in Hn. destruct Hn as [Hn|Hn].
        - apply elem_of_singleton in Hn. subst n. exists x. split; [|reflexivity].
          apply elem_of_app. right. apply list_elem_of_singleton. reflexivity.
        - destruct (Hseen _ Hn) as (p & Hp & Hpn). exists p. split; [|exact Hpn].
          apply elem_of_app. left. exact Hp. }
      destruct Hq as [->|Hq]; [|apply IH; assumption].
      exists x. split; [|reflexivity]. apply keep_first_incl.
      apply elem_of_app. right. apply list_elem_of_singleton. reflexivity.
Qed.

(** C5, as stated, fails on its own example: each descriptor of
    ["A|url1|k|1!!!A|url2|k|1"] has four fields, [values[4]] raises
    [IndexError], which [except ValueError] does not catch, so no provider
    list is produced at all. *)
Lemma four_field_example_raises :
  get_rss_torrent_providers_list "A|url1|k|1!!!A|url2|k|1" [] = (Raise IndexError, []).
Proof. reflexivity. Qed.

(** C5 (amended).  When every non-empty descriptor of the bang-delimited
    list has at least five pipe-delimited fields, the provider list is
    produced, holds at most one provider per name, each of them the
    provider built from the earliest descriptor of that name, and every
    name described is kept. *)
Theorem rss_providers_first_occurrence_wins (data : string) (l : list log_entry) :
  Forall readable (split "!!!" data) ->
  exists providers,
    get_rss_torrent_providers_list data l = (Ret providers, l) /\
    NoDup (map name providers) /\
    (forall p, p ∈ providers ->
       exists pre post, described data = pre ++ p :: post /\ (name p ∉ map name pre)) /\
    (forall q, q ∈ described data -> exists p, p ∈ providers /\ name p = name q).
Proof.
  intros H. exists (keep_first (described data) ∅ []).
  split; [apply get_rss_torrent_providers_list_readable; exact H|].
  split; [|split].
  - apply keep_first_NoDup; [constructor|].
    intros p Hp. apply elem_of_nil in Hp. contradiction.
  - intros p Hp. apply keep_first_earliest in Hp.
    destruct Hp as [Hp | (pre & post & Heq & Hpre & _)].
    + apply elem_of_nil in Hp. contradiction.
    + exists pre, post. split; assumption.
  - intros q Hq. apply keep_first_complete; [|exact Hq].
    intros n Hn. apply elem_of_empty in Hn. contradiction.
Qed.

(** The example of C5 with five-field descriptors: one provider named A,
    the one of the first descriptor. *)
Lemma rss_providers_first_occurrence_wins_witness :
  Forall readable (split "!!!" "A|url1|k|t|1!!!A|url2|k|t|1") /\
  (exists providers,
     get_rss_torrent_providers_list "A|url1|k|t|1!!!A|url2|k|t|1" [] = (Ret providers, []) /\
     NoDup (map name providers) /\
     (forall p, p ∈ providers ->
        exists pre post, described "A|url1|k|t|1!!!A|url2|k|t|1" = pre ++ p :: post /\
                         (name p ∉ map name pre)) /\
     (forall q, q ∈ described "A|url1|k|t|1!!!A|url2|k|t|1" ->
        exists p, p ∈ providers /\ name p = name q)).
Proof.
  assert (H : Forall readable (split "!!!" "A|url1|k|t|1!!!A|url2|k|t|1")).
  { change (split "!!!" "A|url1|k|t|1!!!A|url2|k|t|1")
      with ["A|url1|k|t|1"; "A|url2|k|t|1"].
    constructor; [right; vm_compute; lia|].
    constructor; [right; vm_compute; lia|].
    constructor. }
  split; [exact H|].
  exact (rss_providers_first_occurrence_wins "A|url1|k|t|1!!!A|url2|k|t|1" [] H).
Defined.

Example five_field_example :
  fst (get_rss_torrent_providers_list "A|url1|k|t|1!!!A|url2|k|t|1" []) =
  Ret [ {| name := "A"; url := "url1"; cookies := VStr ""; title_tag := VStr "title";
           search_mode := VStr "eponly"; search_fallback := VInt 0;
           enable_daily := VInt 0; enable_backlog := VInt 0;
           enable_manualsearch := VInt 0; enabled := true |} ].
Proof. vm_compute. reflexivity. Qed.

(** *** The state the chain works on *)

(** Modelled from the spec: a newznab provider entry, of which step 10
    reads the attributes [name] and [default].  The class
    [NewznabProvider] is not among the sources. *)
Record NewznabProvider : Type := {
  newznab_name : string;
  newznab_default : bool;
}.

(** Everything a migration step can read or change: [self.config_obj]
    (with [logger.censored_items]), the globals of the [app] module, the
    two provider lists kept there, and the log. *)
Record world : Type := World {
  settings : store;
  app : globals;
  torrentRssProviderList : list TorrentRssProvider;
  newznabProviderList : list NewznabProvider;
  log : list log_entry;
}.

Definition set_settings (x : store) (w : world) : world :=
  World x (app w) (torrentRssProviderList w) (newznabProviderList w) (log w).
Definition set_log (x : list log_entry) (w : world) : world :=
  World (settings w) (app w) (torrentRssProviderList w) (newznabProviderList w) x.

(** [app.<attr> = v] *)
Definition set_app (attr : string) (v : value) : run world unit :=
  modify (fun w => World (settings w) (<[attr := v]> (app w)) (torrentRssProviderList w)
                         (newznabProviderList w) (log w)).

Definition set_torrentRssProviderList (l : list TorrentRssProvider) : run world unit :=
  modify (fun w => World (settings w) (app w) l (newznabProviderList w) (log w)).

Definition set_newznabProviderList (l : list NewznabProvider) : run world unit :=
  modify (fun w => World (settings w) (app w) (torrentRssProviderList w) l (log w)).

Definition on_settings {A : Type} (m : run store A) : run world A :=
  zoom settings set_settings m.

Definition on_log {A : Type} (m : logged A) : run world A :=
  zoom log set_log m.

(** [self.config_obj[section][key]] *)
Definition config_obj (section key : string) : run world value :=
  on_settings (getitem section key).

(** A method of [str] called on [v]. *)
Definition text_of (v : value) (method : string) : outcome string :=
  match v with
  | VStr t => Ret t
  | _ => Raise (AttributeError method)
  end.

Section Steps.

Variable decrypt : value -> value -> outcome value.
Variable encrypt : value -> value -> outcome value.
Variable privacy_levels : value -> outcome Z.

(** [NewznabProvider.get_providers_list], in a module of its own. *)
Variable get_providers_list : value -> outcome (list NewznabProvider).

(** [check_setting_int(self.config_obj, ...)] and
    [check_setting_str(self.config_obj, ...)] of [medusa.config], which
    repeat [check_int] and [check_str] of [setting.py] line for line. *)
Definition check_setting_int (cfg_name item_name : string) (def_val : value) :
    run world value :=
  on_settings (check_int cfg_name item_name def_val).

Definition check_setting_str (cfg_name item_name : string) (def_val censor_log : value) :
    run world value :=
  fun w =>
    on_settings (check_str decrypt encrypt privacy_levels (app w) cfg_name item_name
                           def_val censor_log None) w.

(** [app.<attr> = check_setting_str(...)] and [app.<attr> =
    bool(check_setting_int(...))] *)
Definition load_str (attr cfg_name item_name : string) (def_val censor_log : value) :
    run world unit :=
  let* v := check_setting_str cfg_name item_name def_val censor_log in
  set_app attr v.

Definition load_bool (attr cfg_name item_name : string) (def_val : Z) : run world unit :=
  let* v := check_setting_int cfg_name item_name (VInt def_val) in
  set_app attr (VBool (truthy v)).

Fixpoint sequence_ {S : Type} (l : list (run S unit)) : run S unit :=
  match l with
  | [] => ret tt
  | m :: rest => let* _ := m in sequence_ rest
  end.

Definition _migrate_v2 : run world unit := ret tt.

Definition _migrate_v3 : run world unit :=
  let* _ := load_str "OMGWTFNZBS_USERNAME" "omgwtfnzbs" "omgwtfnzbs_uid" (VStr "") (VBool false) in
  load_str "OMGWTFNZBS_APIKEY" "omgwtfnzbs" "omgwtfnzbs_key" (VStr "") (VBool false).

(** One pass of the loop of [_migrate_v4]: the new descriptor, or [None]
    after [continue]. *)
Definition add_cat_ids (cur_provider_data : string) : logged (option string) :=
  try_except_only is_ValueError
    (match split "|" cur_provider_data with
     | [name; url; key; enabled] =>
         let key := if String.eqb name "Sick Beard Index" then "0" else key in
         let cat_ids := if String.eqb name "NZBs.org"
                        then "5030,5040,5060,5070,5090"
                        else "5030,5040,5060" in
         let cur_provider_data_list := [name; url; key; cat_ids; enabled] in
         ret (Some (join "|" cur_provider_data_list))
     | _ => raise ValueError
     end)
    (fun _ =>
       let* _ := log_to ERROR
                   "Skipping Newznab provider string: {cur_provider_data!r}, incorrect format"
                   [("cur_provider_data", VStr cur_provider_data)] in
       ret None).

Definition _migrate_v4 : run world unit :=
  let* old_newznab_data :=
    check_setting_str "Newznab" "newznab_data" (VStr "") (VBool false) in
  if truthy old_newznab_data then
    let* text := lift (text_of old_newznab_data "split") in
    let old_newznab_data_list := split "!!!" text in
    let* added := on_log (for_each add_cat_ids old_newznab_data_list) in
    let new_newznab_data := omap id added in
    set_app "NEWZNAB_DATA" (VStr (join "!!!" new_newznab_data))
  else ret tt.

(** [app.<attr> = _migrate_metadata(<value>, <name>, use_banner)] *)
Definition store_metadata (attr : string) (metadata : value) (metadata_name : string)
    (use_banner : bool) : run world unit :=
  let* text := lift (text_of metadata "split") in
  let* migrated := on_log (_migrate_metadata text metadata_name use_banner) in
  set_app attr (VStr migrated).

Definition _migrate_v5 : run world unit :=
  let old := VStr "0|0|0|0|0|0" in
  let* metadata_xbmc := check_setting_str "General" "metadata_xbmc" old (VBool false) in
  let* metadata_xbmc_12plus :=
    check_setting_str "General" "metadata_xbmc_12plus" old (VBool false) in
  let* metadata_mediabrowser :=
    check_setting_str "General" "metadata_mediabrowser" old (VBool false) in
  let* metadata_ps3 := check_setting_str "General" "metadata_ps3" old (VBool false) in
  let* metadata_wdtv := check_setting_str "General" "metadata_wdtv" old (VBool false) in
  let* metadata_tivo := check_setting_str "General" "metadata_tivo" old (VBool false) in
  let* metadata_mede8er := check_setting_str "General" "metadata_mede8er" old (VBool false) in
  let* banner := check_setting_int "General" "use_banner" (VInt 0) in
  let use_banner := truthy banner in
  let* _ := store_metadata "METADATA_XBMC" metadata_xbmc "XBMC" use_banner in
  let* _ := store_metadata "METADATA_XBMC_12PLUS" metadata_xbmc_12plus "XBMC 12+" use_banner in
  let* _ := store_metadata "METADATA_MEDIABROWSER" metadata_mediabrowser "MediaBrowser"
                           use_banner in
  let* _ := store_metadata "METADATA_PS3" metadata_ps3 "PS3" use_banner in
  let* _ := store_metadata "METADATA_WDTV" metadata_wdtv "WDTV" use_banner in
  let* _ := store_metadata "METADATA_TIVO" metadata_tivo "TIVO" use_banner in
  store_metadata "METADATA_MEDE8ER" metadata_mede8er "Mede8er" use_banner.

Definition _migrate_v6 : run world unit :=
  sequence_
    [ load_bool "USE_KODI" "XBMC" "use_xbmc" 0;
      load_bool "KODI_ALWAYS_ON" "XBMC" "xbmc_always_on" 1;
      load_bool "KODI_NOTIFY_ONSNATCH" "XBMC" "xbmc_notify_onsnatch" 0;
      load_bool "KODI_NOTIFY_ONDOWNLOAD" "XBMC" "xbmc_notify_ondownload" 0;
      load_bool "KODI_NOTIFY_ONSUBTITLEDOWNLOAD" "XBMC" "xbmc_notify_onsubtitledownload" 0;
      load_bool "KODI_UPDATE_LIBRARY" "XBMC" "xbmc_update_library" 0;
      load_bool "KODI_UPDATE_FULL" "XBMC" "xbmc_update_full" 0;
      load_bool "KODI_UPDATE_ONLYFIRST" "XBMC" "xbmc_update_onlyfirst" 0;
      load_str "KODI_HOST" "XBMC" "xbmc_host" (VStr "") (VBool false);
      load_str "KODI_USERNAME" "XBMC" "xbmc_username" (VStr "") (VBool true);
      load_str "KODI_PASSWORD" "XBMC" "xbmc_password" (VStr "") (VBool true);
      load_str "METADATA_KODI" "General" "metadata_xbmc"
               (VStr "0|0|0|0|0|0|0|0|0|0") (VBool false);
      load_str "METADATA_KODI_12PLUS" "General" "metadata_xbmc_12plus"
               (VStr "0|0|0|0|0|0|0|0|0|0") (VBool false) ].

Definition _migrate_v7 : run world unit := set_app "ENCRYPTION_VERSION" (VInt 2).

Definition _migrate_v8 : run world unit :=
  sequence_
    [ load_str "PLEX_CLIENT_HOST" "Plex" "plex_host" (VStr "") (VBool false);
      load_str "PLEX_SERVER_USERNAME" "Plex" "plex_username" (VStr "") (VBool true);
      load_str "PLEX_SERVER_PASSWORD" "Plex" "plex_password" (VStr "") (VBool true);
      load_bool "USE_PLEX_SERVER" "Plex" "use_plex" 0 ].

Definition _migrate_v9 : run world unit := ret tt.

(** The local function [make_id(name)]: every character that is not a
    letter, a digit or an underscore becomes an underscore. *)
Definition word_char (c : ascii) : bool :=
  let n := nat_of_ascii c in
  (Nat.leb 48 n && Nat.leb n 57) || (Nat.leb 65 n && Nat.leb n 90) ||
  (Nat.leb 97 n && Nat.leb n 122) || Nat.eqb n 95.

Definition make_id (provider_name : string) : string :=
  if negb (truthy (VStr provider_name)) then ""
  else map_string (fun c => if word_char c then c else "_"%char)
                  (upper (strip provider_name)).

(** [app.<attr> = convert_csv_string_to_list(self.config_obj[section][key],
    delimiter)] *)
Definition load_csv (attr section key delimiter : string) : run world unit :=
  let* v := config_obj section key in
  set_app attr (convert_csv_string_to_list v delimiter false).

Definition list_of_names (l : list string) : value := VList (map VStr l).

Definition _migrate_v10 : run world unit :=
  let* _ :=
    sequence_
      [ (* General *)
        load_csv "GIT_RESET_BRANCHES" "General" "git_reset_branches" ",";
        load_csv "ALLOWED_EXTENSIONS" "General" "allowed_extensions" ",";
        load_csv "PROVIDER_ORDER" "General" "provider_order" " ";
        load_csv "ROOT_DIRS" "General" "root_dirs" "|";
        load_csv "SYNC_FILES" "General" "sync_files" ",";
        load_csv "IGNORE_WORDS" "General" "ignore_words" ",";
        load_csv "PREFERRED_WORDS" "General" "preferred_words" ",";
        load_csv "UNDESIRED_WORDS" "General" "undesired_words" ",";
        load_csv "TRACKERS_LIST" "General" "trackers_list" ",";
        load_csv "REQUIRE_WORDS" "General" "require_words" ",";
        load_csv "IGNORED_SUBS_LIST" "General" "ignored_subs_list" ",";
        load_csv "BROKEN_PROVIDERS" "General" "broken_providers" ",";
        load_csv "EXTRA_SCRIPTS" "General" "extra_scripts" ",";
        (* Metadata *)
        load_csv "METADATA_KODI" "General" "metadata_kodi" "|";
        load_csv "METADATA_KODI_12PLUS" "General" "metadata_kodi_12plus" "|";
        load_csv "METADATA_MEDIABROWSER" "General" "metadata_mediabrowser" "|";
        load_csv "METADATA_PS3" "General" "metadata_ps3" "|";
        load_csv "METADATA_WDTV" "General" "metadata_wdtv" "|";
        load_csv "METADATA_TIVO" "General" "metadata_tivo" "|";
        load_csv "METADATA_MEDE8ER" "General" "metadata_mede8er" "|";
        (* Subtitles *)
        load_csv "SUBTITLES_LANGUAGES" "Subtitles" "subtitles_languages" ",";
        load_csv "SUBTITLES_SERVICES_LIST" "Subtitles" "SUBTITLES_SERVICES_LIST" ",";
        load_csv "SUBTITLES_SERVICES_ENABLED" "Subtitles" "SUBTITLES_SERVICES_ENABLED" "|";
        (* Notifications *)
        load_csv "KODI_HOST" "KODI" "kodi_host" ",";
        load_csv "PLEX_SERVER_HOST" "Plex" "plex_server_host" ",";
        load_csv "PLEX_CLIENT_HOST" "Plex" "plex_client_host" ",";
        load_csv "PROWL_API" "Prowl" "prowl_api" ",";
        load_csv "PUSHOVER_DEVICE" "Pushover" "pushover_device" ",";
        load_csv "NMA_API" "NMA" "nma_api" ",";
        load_csv "EMAIL_LIST" "Email" "email_list" "," ] in
  let* _ :=
    try_except_only is_KeyError
      ((* migrate rsstorrent providers *)
       let* data := config_obj "TorrentRss" "torrentrss_data" in
       let* text := lift (text_of data "split") in
       let* ids := lift (get_providers_from_data text) in
       let* _ := set_app "TORRENTRSS_PROVIDERS" (list_of_names ids) in
       let* data := config_obj "TorrentRss" "torrentrss_data" in
       let* text := lift (text_of data "split") in
       let* providers := on_log (get_rss_torrent_providers_list text) in
       set_torrentRssProviderList providers)
      (fun _ => set_app "TORRENTRSS_PROVIDERS" (VList [])) in
  try_except_only is_KeyError
    ((* migrate newznab providers *)
     let* data := config_obj "Newznab" "newznab_data" in
     let* providers := lift (get_providers_list data) in
     let* _ := set_newznabProviderList providers in
     let* w := get in
     set_app "NEWZNAB_PROVIDERS"
       (list_of_names
          (map (fun provider => make_id (newznab_name provider))
               (List.filter (fun provider => negb (newznab_default provider))
                            (newznabProviderList w)))))
    (fun _ => set_app "NEWZNAB_PROVIDERS" (VList [])).

End Steps.

(** *** The driver: [ConfigMigrator.migrate_config] *)

(** What the chain does to its surroundings, in order: a call of
    [helpers.backup_versioned_file(app.CONFIG_FILE, version)] with its
    answer, a call of the method [_migrate_v<version>], and a call of
    [app.instance.save_config()] made at the given version. *)
Inductive chain_event : Type :=
| Backup (file : value) (version : Z) (ok : bool)
| Transform (version : Z)
| Saved (version : Z).

(** A [ConfigMigrator] in its surroundings.  The methods [_migrate_v<n>]
    act on [surroundings] only: none of them assigns [config_version] or
    [expected_config_version]. *)
Record migrator : Type := Migrator {
  surroundings : world;
  config_version : Z;
  expected_config_version : Z;
  trace : list chain_event;
}.

Definition set_surroundings (w : world) (m : migrator) : migrator :=
  Migrator w (config_version m) (expected_config_version m) (trace m).

Definition on_world {A : Type} (f : run world A) : run migrator A :=
  zoom surroundings set_surroundings f.

Definition record (e : chain_event) : run migrator unit :=
  modify (fun m => Migrator (surroundings m) (config_version m)
                            (expected_config_version m) (trace m ++ [e])).

Definition set_config_version (v : Z) : run migrator unit :=
  modify (fun m => Migrator (surroundings m) v (expected_config_version m) (trace m)).

Definition log_info (template : string) (args : list (string * value)) : run migrator unit :=
  on_world (on_log (log_to INFO template args)).

(** Modelled from the spec: [logger.log_error_and_exit] is not among the
    sources.  Section 6: unsupported conditions "terminate the process with
    a non-zero status and a descriptive message". *)
Definition log_error_and_exit {A : Type} (error_msg : string)
    (args : list (string * value)) : run migrator A :=
  fun m =>
    (Exit 1, set_surroundings
               (set_log (log (surroundings m) ++ [Log ERROR error_msg args])
                        (surroundings m)) m).

(** A text between double quotes. *)
Definition quoted (text : string) : string :=
  String (ascii_of_nat 34) (text +:+ String (ascii_of_nat 34) "").

(** [self.migration_names] *)
Definition migration_names (version : Z) : option string :=
  match version with
  | 1 => Some "Custom naming"
  | 2 => Some "Sync backup number with version number"
  | 3 => Some "Rename omgwtfnzb variables"
  | 4 => Some "Add newznab cat_ids"
  | 5 => Some "Metadata update"
  | 6 => Some "Convert from XBMC to new KODI variables"
  | 7 => Some "Use version 2 for password encryption"
  | 8 => Some "Convert Plex setting keys"
  | 9 => Some ("Added setting " +:+ quoted "enable_manualsearch" +:+ " for providers")
  | 10 => Some "Convert all csv config items to lists"
  | _ => None
  end.

Section Chain.

(** The answer of [helpers.backup_versioned_file] to a call, given the
    file, the version and everything the chain did before. *)
Variable backup_versioned_file : value -> Z -> list chain_event -> bool.

(** [getattr(self, '_migrate_v' + str(version))]: the method of that
    name, when the class has one. *)
Variable method : Z -> option (run world unit).

(** [app.CONFIG_FILE]; [None] until it is set. *)
Definition CONFIG_FILE (m : migrator) : value :=
  default VNone (app (surroundings m) !! "CONFIG_FILE").

(** The body of the [while] loop. *)
Definition upgrade_once : run migrator unit :=
  let* m := get in
  let next_version := config_version m + 1 in
  let migration_name :=
    match migration_names next_version with
    | Some text => ": " +:+ text
    | None => ""
    end in
  let* _ := log_info "Backing up config before upgrade" [] in
  let ok := backup_versioned_file (CONFIG_FILE m) (config_version m) (trace m) in
  let* _ := record (Backup (CONFIG_FILE m) (config_version m) ok) in
  let* _ :=
    if negb ok then
      log_error_and_exit "Config backup failed, abort upgrading config" []
    else
      let* _ := log_info "Proceeding with upgrade" [] in
      log_info "Migrating config up to version {version} {migration_name}"
               [("version", VInt next_version); ("migration_name", VStr migration_name)] in
  let* _ :=
    match method next_version with
    | Some _migrate => let* _ := record (Transform next_version) in on_world _migrate
    | None => raise (AttributeError ("_migrate_v" +:+ str_of_Z next_version))
    end in
  let* _ := set_config_version next_version in
  (* save new config after migration *)
  let* _ := on_world (set_app "CONFIG_VERSION" (VInt next_version)) in
  let* _ := log_info "Saving config file to disk" [] in
  record (Saved next_version).

(** The [while] loop.  Each pass raises [config_version] by one, so a
    count of passes equal to the distance to [expected_config_version] is
    never used up with the condition still true. *)
Fixpoint upgrade_loop (passes : nat) : run migrator unit :=
  fun m =>
    if Z.ltb (config_version m) (expected_config_version m) then
      match passes with
      | O => (Ret tt, m)
      | S k => (let* _ := upgrade_once in upgrade_loop k) m
      end
    else (Ret tt, m).

Definition migrate_config : run migrator unit :=
  fun m =>
    if Z.ltb (expected_config_version m) (config_version m) then
      log_error_and_exit
        ("Your config version (%i) has been incremented past what this version of the " +:+
         "application supports (%i).")
        [("config_version", VInt (config_version m));
         ("expected_config_version", VInt (expected_config_version m))] m
    else
      (let* _ := on_world (set_app "CONFIG_VERSION" (VInt (config_version m))) in
       upgrade_loop (Z.to_nat (expected_config_version m - config_version m))) m.

End Chain.

(** [ConfigMigrator(config_obj)]: the version comes from the
    configuration, with [app.CONFIG_VERSION] as the default. *)
Definition init (tr : list chain_event) : run world migrator :=
  fun w =>
    match getattr (app w) "CONFIG_VERSION" with
    | Ret (VInt expected) =>
        match check_int "General" "config_version" (VInt expected) (settings w) with
        | (Ret (VInt found), st) =>
            let w' := set_settings st w in
            (Ret (Migrator w' found expected tr), w')
        | (Ret _, st) => (Raise TypeError, set_settings st w)
        | (Raise e, st) => (Raise e, set_settings st w)
        | (Exit n, st) => (Exit n, set_settings st w)
        end
    | Ret _ => (Raise TypeError, w)
    | Raise e => (Raise e, w)
    | Exit n => (Exit n, w)
    end.

(** *** The shape of a run of the chain *)

(** The events of a run that starts the loop at version [v], with the
    result of the run and the version it stops at.  A pass that completes
    contributes a successful backup of [v], the transform to [v + 1] and a
    save; the run ends when the loop ends, when a backup fails, when the
    class has no method for the next version, or when a transform does not
    return. *)
Inductive chain_shape : Z -> list chain_event -> outcome unit -> Z -> Prop :=
| shape_done (v : Z) :
    chain_shape v [] (Ret tt) v
| shape_backup_failed (v : Z) (f : value) :
    chain_shape v [Backup f v false] (Exit 1) v
| shape_no_method (v : Z) (f : value) (method_name : string) :
    chain_shape v [Backup f v true] (Raise (AttributeError method_name)) v
| shape_transform_failed (v : Z) (f : value) (r : outcome unit) :
    r <> Ret tt ->
    chain_shape v [Backup f v true; Transform (v + 1)] r v
| shape_step (v : Z) (f : value) (rest : list chain_event) (r : outcome unit) (v' : Z) :
    chain_shape (v + 1) rest r v' ->
    chain_shape v (Backup f v true :: Transform (v + 1) :: Saved (v + 1) :: rest) r v'.

(** The version an event is about: a backup is of the version being
    left, a transform and a save are of the version being reached. *)
Definition is_backup_of (u : Z) (e : chain_event) : bool :=
  match e with
  | Backup _ v _ => Z.eqb v u
  | _ => false
  end.

Definition backups_of (u : Z) (events : list chain_event) : nat :=
  length (List.filter (is_backup_of u) events).

Section ChainFacts.

Variable backup_versioned_file : value -> Z -> list chain_event -> bool.
Variable method : Z -> option (run world unit).

Abbreviation upgrade_once := (upgrade_once backup_versioned_file method).
Abbreviation upgrade_loop := (upgrade_loop backup_versioned_file method).
Abbreviation migrate_config := (migrate_config backup_versioned_file method).

(** One pass of the loop, case by case. *)
Lemma upgrade_once_cases (m : migrator) (r : outcome unit) (m' : migrator) :
  upgrade_once m = (r, m') ->
  let v := config_version m in
  let f := CONFIG_FILE m in
  expected_config_version m' = expected_config_version m /\
  ((r = Exit 1 /\ trace m' = trace m ++ [Backup f v false] /\ config_version m' = v /\
    app (surroundings m') = app (surroundings m)) \/
   (exists method_name, r = Raise (AttributeError method_name) /\
      trace m' = trace m ++ [Backup f v true] /\ config_version m' = v) \/
   (r <> Ret tt /\ trace m' = trace m ++ [Backup f v true; Transform (v + 1)] /\
    config_version m' = v) \/
   (r = Ret tt /\
    trace m' = trace m ++ [Backup f v true; Transform (v + 1); Saved (v + 1)] /\
    config_version m' = v + 1 /\
    app (surroundings m') !! "CONFIG_VERSION" = Some (VInt (v + 1)))).
Proof.
  intros H v f. subst v f. destruct m as [w v e t].
  cbn [config_version trace expected_config_version surroundings].
  set (f := CONFIG_FILE _) in *.
  cbv [Migration.upgrade_once bind get log_info on_world on_log zoom log_to
       modify record set_config_version set_app log_error_and_exit raise ret
       surroundings set_surroundings set_log trace config_version
       expected_config_version] in H.
  fold f in H.
  destruct (backup_versioned_file f v t) eqn:Hok; cbv [negb] in H.
  - destruct (method (v + 1)) as [g|].
    + match type of H with context [g ?w0] => destruct (g w0) as [[[] | x | n] w'] eqn:Hg end;
        inversion H; subst; clear H; cbn; (split; [reflexivity|]).
      * right. right. right. split; [reflexivity|].
        split; [rewrite <- !app_assoc; reflexivity|].
        split; [reflexivity|]. apply lookup_insert_eq.
      * right. right. left. split; [discriminate|].
        split; [rewrite <- !app_assoc; reflexivity|reflexivity].
      * right. right. left. split; [discriminate|].
        split; [rewrite <- !app_assoc; reflexivity|reflexivity].
    + inversion H; subst; clear H; cbn. split; [reflexivity|].
      right. left. eexists. repeat split; reflexivity.
  - inversion H; subst; clear H; cbn. split; [reflexivity|].
    left. repeat split; reflexivity.
Qed.

(** A failed backup is the last thing a run does. *)
Definition ledger_kept (new : list chain_event) (m' : migrator) : Prop :=
  forall pre f u, new = pre ++ [Backup f u false] ->
    app (surroundings m') !! "CONFIG_VERSION" = Some (VInt u).

Lemma upgrade_loop_shape (passes : nat) (m : migrator) (r : outcome unit) (m' : migrator) :
  app (surroundings m) !! "CONFIG_VERSION" = Some (VInt (config_version m)) ->
  upgrade_loop passes m = (r, m') ->
  exists new,
    trace m' = trace m ++ new /\
    chain_shape (config_version m) new r (config_version m') /\
    expected_config_version m' = expected_config_version m /\
    ledger_kept new m'.
Proof.
  revert m. induction passes as [|k IH]; intros m Hledger H; cbn [Migration.upgrade_loop] in H.
  - exists []. destruct (Z.ltb _ _); inversion H; subst; clear H;
      (split; [symmetry; apply app_nil_r|]); (split; [constructor|]);
      (split; [reflexivity|]); intros pre f u Hnew; destruct pre; discriminate.
  - destruct (Z.ltb (config_version m) (expected_config_version m)).
    2: { exists []. inversion H; subst; clear H.
         split; [symmetry; apply app_nil_r|]. split; [constructor|].
         split; [reflexivity|]. intros pre f u Hnew; destruct pre; discriminate. }
    destruct (upgrade_once m) as [r1 m1] eqn:Hone.
    destruct (upgrade_once_cases m r1 m1 Hone) as [Hexp Hcases].
    cbv zeta in Hcases.
    destruct Hcases as [(-> & Htr & Hv & Happ) | [(mn & -> & Htr & Hv) |
                         [(Hr & Htr & Hv) | (-> & Htr & Hv & Happ)]]].
    + rewrite (bind_exit _ _ _ _ _ Hone) in H. inversion H; subst; clear H.
      exists [Backup (CONFIG_FILE m) (config_version m) false].
      split; [exact Htr|]. split; [rewrite Hv; constructor|]. split; [exact Hexp|].
      intros pre f u Hnew. destruct pre as [|x [|y pre]]; try discriminate.
      inversion Hnew; subst. rewrite Happ. exact Hledger.
    + rewrite (bind_raise _ _ _ _ _ Hone) in H. inversion H; subst; clear H.
      exists [Backup (CONFIG_FILE m) (config_version m) true].
      split; [exact Htr|]. split; [rewrite Hv; constructor|]. split; [exact Hexp|].
      intros pre f u Hnew. destruct pre as [|x [|y pre]]; discriminate.
    + assert (H' : r = r1 /\ m' = m1).
      { destruct r1 as [[] | x | n]; [congruence| |].
        - rewrite (bind_raise _ _ _ _ _ Hone) in H. inversion H; auto.
        - rewrite (bind_exit _ _ _ _ _ Hone) in H. inversion H; auto. }
      destruct H' as [-> ->].
      exists [Backup (CONFIG_FILE m) (config_version m) true; Transform (config_version m + 1)].
      split; [exact Htr|]. split; [rewrite Hv; constructor; exact Hr|]. split; [exact Hexp|].
      intros pre f u Hnew. destruct pre as [|x [|y [|z pre]]]; discriminate.
    + rewrite (bind_ret _ _ _ _ _ Hone) in H.
      rewrite <- Hv in Happ.
      destruct (IH m1 Happ H) as (new & Htr' & Hshape & Hexp' & Hkept).
      exists (Backup (CONFIG_FILE m) (config_version m) true
              :: Transform (config_version m + 1) :: Saved (config_version m + 1) :: new).
      split; [rewrite Htr', Htr, <- app_assoc; reflexivity|].
      split; [constructor; rewrite <- Hv; exact Hshape|].
      split; [congruence|].
      intros pre f u Hnew.
      destruct pre as [|x [|y [|z pre]]]; try discriminate.
      inversion Hnew; subst. eapply Hkept. reflexivity.
Qed.

(** The whole of [migrate_config]: either the version is ahead of the
    expected one and the process exits at once, or the loop runs. *)
Lemma migrate_config_cases (m : migrator) (r : outcome unit) (m' : migrator) :
  migrate_config m = (r, m') ->
  (expected_config_version m < config_version m /\
   r = Exit 1 /\ trace m' = trace m /\ config_version m' = config_version m /\
   app (surroundings m') = app (surroundings m) /\
   settings (surroundings m') = settings (surroundings m) /\
   exists msg args, log (surroundings m') = log (surroundings m) ++ [Log ERROR msg args]) \/
  (config_version m <= expected_config_version m /\
   exists new,
     trace m' = trace m ++ new /\
     chain_shape (config_version m) new r (config_version m') /\
     expected_config_version m' = expected_config_version m /\
     ledger_kept new m').
Proof.
  unfold Migration.migrate_config. intros H.
  destruct (Z.ltb (expected_config_version m) (config_version m)) eqn:Hlt.
  - left. apply Z.ltb_lt in Hlt. unfold log_error_and_exit in H.
    inversion H; subst; clear H. cbn.
    repeat split; try assumption. eexists _, _. reflexivity.
  - right. apply Z.ltb_ge in Hlt. split; [exact Hlt|].
    unfold bind, on_world, zoom, set_app, modify in H. cbn [fst snd] in H.
    apply upgrade_loop_shape in H.
    + destruct H as (new & Htr & Hshape & Hexp & Hkept).
      exists new. repeat split; assumption.
    + cbn. apply lookup_insert_eq.
Qed.

End ChainFacts.

(** What the shape of a run says about backups and transforms. *)
Lemma shape_no_earlier_backup (v : Z) (new : list chain_event) (r : outcome unit) (v' : Z) :
  chain_shape v new r v' -> forall u, u < v -> backups_of u new = 0%nat.
Proof.
  unfold backups_of.
  induction 1 as [v | v f | v f mn | v f r Hr | v f rest r v' Hrest IH]; intros u Hu; cbn;
    try reflexivity.
  - destruct (Z.eqb_spec v u); [lia|reflexivity].
  - destruct (Z.eqb_spec v u); [lia|reflexivity].
  - destruct (Z.eqb_spec v u); [lia|reflexivity].
  - destruct (Z.eqb_spec v u); [lia|]. apply IH. lia.
Qed.

Lemma shape_backup_once (v : Z) (new : list chain_event) (r : outcome unit) (v' : Z) :
  chain_shape v new r v' -> forall u, (backups_of u new <= 1)%nat.
Proof.
  induction 1 as [v | v f | v f mn | v f r Hr | v f rest r v' Hrest IH]; intros u;
    unfold backups_of; cbn.
  - lia.
  - destruct (Z.eqb v u); cbn; lia.
  - destruct (Z.eqb v u); cbn; lia.
  - destruct (Z.eqb v u); cbn; lia.
  - destruct (Z.eqb_spec v u) as [->|Hne]; cbn.
    + pose proof (shape_no_earlier_backup _ _ _ _ Hrest u ltac:(lia)) as H0.
      unfold backups_of in H0. rewrite H0. lia.
    + apply IH.
Qed.

Lemma shape_backup_before_transform (v : Z) (new : list chain_event) (r : outcome unit)
    (v' : Z) :
  chain_shape v new r v' ->
  forall pre u post, new = pre ++ Transform u :: post ->
    (exists pre' f, pre = pre' ++ [Backup f (u - 1) true]) /\
    backups_of (u - 1) new = 1%nat.
Proof.
  induction 1 as [v | v f | v f mn | v f r Hr | v f rest r v' Hrest IH];
    intros pre u post Hnew.
  - destruct pre; discriminate.
  - destruct pre as [|x [|y pre]]; discriminate.
  - destruct pre as [|x [|y pre]]; discriminate.
  - destruct pre as [|x [|y [|z pre]]]; try discriminate.
    inversion Hnew; subst. replace (v + 1 - 1) with v by lia.
    split; [exists [], f; reflexivity|].
    unfold backups_of. cbn. rewrite Z.eqb_refl. reflexivity.
  - destruct pre as [|x [|y [|z pre]]]; try discriminate.
    + inversion Hnew; subst. replace (v + 1 - 1) with v by lia.
      split; [exists [], f; reflexivity|].
      unfold backups_of. cbn. rewrite Z.eqb_refl. cbn.
      pose proof (shape_no_earlier_backup _ _ _ _ Hrest v ltac:(lia)) as H0.
      unfold backups_of in H0. rewrite H0. reflexivity.
    + inversion Hnew; subst.
      destruct (IH _ _ _ eq_refl) as [(pre' & f' & ->) Hcount].
      split.
      * exists (Backup f v true :: Transform (v + 1) :: Saved (v + 1) :: pre'), f'. reflexivity.
      * unfold backups_of in *. cbn.
        destruct (Z.eqb_spec v (u - 1)) as [Heq|Hne]; [|exact Hcount].
        exfalso.
        pose proof (shape_no_earlier_backup _ _ _ _ Hrest (u - 1) ltac:(lia)) as H0.
        unfold backups_of in H0. lia.
Qed.

Lemma shape_transforms_later (v : Z) (new : list chain_event) (r : outcome unit) (v' : Z) :
  chain_shape v new r v' -> forall u, In (Transform u) new -> v < u <= v' + 1.
Proof.
  induction 1 as [v | v f | v f mn | v f r Hr | v f rest r v' Hrest IH]; intros u Hin;
    cbn in Hin.
  - contradiction.
  - destruct Hin as [Hin|[]]. discriminate.
  - destruct Hin as [Hin|[]]. discriminate.
  - destruct Hin as [Hin|[Hin|[]]]; [discriminate|]. inversion Hin. lia.
  - assert (Hle : v + 1 <= v' + 1).
    { clear -Hrest. induction Hrest; lia. }
    destruct Hin as [Hin|[Hin|[Hin|Hin]]]; try discriminate.
    + inversion Hin. lia.
    + specialize (IH _ Hin). lia.
Qed.

Lemma shape_backups_later (v : Z) (new : list chain_event) (r : outcome unit) (v' : Z) :
  chain_shape v new r v' -> forall f u ok, In (Backup f u ok) new -> v <= u.
Proof.
  induction 1 as [v | v f0 | v f0 mn | v f0 r Hr | v f0 rest r v' Hrest IH];
    intros f u ok Hin; cbn in Hin.
  - contradiction.
  - destruct Hin as [Hin|[]]. inversion Hin. lia.
  - destruct Hin as [Hin|[]]. inversion Hin. lia.
  - destruct Hin as [Hin|[Hin|[]]]; [|discriminate]. inversion Hin. lia.
  - destruct Hin as [Hin|[Hin|[Hin|Hin]]]; try discriminate.
    + inversion Hin. lia.
    + specialize (IH _ _ _ Hin). lia.
Qed.

Lemma shape_failed_backup_is_last (v : Z) (new : list chain_event) (r : outcome unit)
    (v' : Z) :
  chain_shape v new r v' ->
  forall pre f u post, new = pre ++ Backup f u false :: post ->
    post = [] /\ r = Exit 1 /\ v' = u /\ ~ In (Transform (u + 1)) new.
Proof.
  induction 1 as [v | v f0 | v f0 mn | v f0 r Hr | v f0 rest r v' Hrest IH];
    intros pre f u post Hnew.
  - destruct pre; discriminate.
  - destruct pre as [|x [|y pre]]; try discriminate.
    inversion Hnew; subst. repeat split; try reflexivity.
    intros [Hin|[]]. discriminate.
  - destruct pre as [|x [|y pre]]; discriminate.
  - destruct pre as [|x [|y [|z pre]]]; discriminate.
  - destruct pre as [|x [|y [|z pre]]]; try discriminate.
    inversion Hnew; subst.
    destruct (IH _ _ _ _ eq_refl) as (Hpost & Hr & Hv & Hnot).
    repeat split; try assumption.
    assert (Hle : v + 1 <= u).
    { eapply (shape_backups_later _ _ _ _ Hrest f u false).
      apply in_or_app. right. left. reflexivity. }
    intros [Hin|[Hin|[Hin|Hin]]]; try discriminate.
    + inversion Hin. lia.
    + exact (Hnot Hin).
Qed.

(** *** A second run *)

Section SecondRun.

Variable backup_versioned_file : value -> Z -> list chain_event -> bool.
Variable method : Z -> option (run world unit).

(** A loop that returns has used up the distance: the condition is false
    at the end, and [app.CONFIG_VERSION] agrees with [config_version]. *)
Lemma upgrade_loop_done (passes : nat) (m m' : migrator) :
  expected_config_version m - config_version m <= Z.of_nat passes ->
  app (surroundings m) !! "CONFIG_VERSION" = Some (VInt (config_version m)) ->
  upgrade_loop backup_versioned_file method passes m = (Ret tt, m') ->
  expected_config_version m' <= config_version m' /\
  (config_version m <= expected_config_version m ->
   config_version m' = expected_config_version m') /\
  app (surroundings m') !! "CONFIG_VERSION" = Some (VInt (config_version m')).
Proof.
  revert m. induction passes as [|k IH]; intros m Hgap Hledger H;
    cbn [Migration.upgrade_loop] in H.
  - destruct (Z.ltb_spec (config_version m) (expected_config_version m)); [lia|].
    inversion H; subst. repeat split; [assumption|lia|assumption].
  - destruct (Z.ltb_spec (config_version m) (expected_config_version m)) as [Hlt|Hge].
    2: { inversion H; subst. repeat split; [assumption|lia|assumption]. }
    destruct (upgrade_once backup_versioned_file method m) as [r1 m1] eqn:Hone.
    destruct (upgrade_once_cases _ _ m r1 m1 Hone) as [Hexp Hcases].
    cbv zeta in Hcases.
    destruct Hcases as [(-> & _) | [(mn & -> & _) | [(Hr & _) | (-> & _ & Hv & Happ)]]].
    + rewrite (bind_exit _ _ _ _ _ Hone) in H. discriminate.
    + rewrite (bind_raise _ _ _ _ _ Hone) in H. discriminate.
    + destruct r1 as [[] | x | n]; [congruence| |].
      * rewrite (bind_raise _ _ _ _ _ Hone) in H. discriminate.
      * rewrite (bind_exit _ _ _ _ _ Hone) in H. discriminate.
    + rewrite (bind_ret _ _ _ _ _ Hone) in H.
      rewrite <- Hv in Happ.
      destruct (IH m1 ltac:(lia) Happ H) as (H1 & H2 & H3).
      repeat split; [assumption| |assumption].
      intros _. apply H2. lia.
Qed.

(** Setting [app.CONFIG_VERSION] to the value it has changes nothing. *)
Lemma set_app_same (attr : string) (v : value) (w : world) :
  app w !! attr = Some v -> set_app attr v w = (Ret tt, w).
Proof.
  intros H. unfold set_app, modify. destruct w as [st a rss nzb lg]. cbn in *.
  rewrite (insert_id a attr v H). reflexivity.
Qed.

(** A migrator that is up to date is left as it is: the loop body does
    not run, so nothing is backed up, transformed, saved or logged. *)
Lemma migrate_config_up_to_date (m : migrator) :
  config_version m = expected_config_version m ->
  app (surroundings m) !! "CONFIG_VERSION" = Some (VInt (config_version m)) ->
  migrate_config backup_versioned_file method m = (Ret tt, m).
Proof.
  intros Hv Happ. unfold Migration.migrate_config.
  destruct (Z.ltb_spec (expected_config_version m) (config_version m)); [lia|].
  unfold bind, on_world, zoom. rewrite (set_app_same _ _ _ Happ).
  replace (set_surroundings (surroundings m) m) with m by (destruct m; reflexivity).
  destruct (Z.to_nat _); cbn [Migration.upgrade_loop];
    destruct (Z.ltb_spec (config_version m) (expected_config_version m)); try lia;
    reflexivity.
Qed.

(** C9.  A run of the chain that succeeds leaves a migrator on which a
    second run is the identity: the loop body runs zero times, so the trace
    gains no backup, no transform and no save, and the configuration, the
    [app] globals, the log and the version are what they were. *)
Theorem migrate_config_twice (m m' : migrator) :
  migrate_config backup_versioned_file method m = (Ret tt, m') ->
  config_version m' = expected_config_version m' /\
  migrate_config backup_versioned_file method m' = (Ret tt, m').
Proof.
  intros H.
  assert (Hdone : config_version m' = expected_config_version m' /\
                  app (surroundings m') !! "CONFIG_VERSION" = Some (VInt (config_version m'))).
  { unfold Migration.migrate_config in H.
    destruct (Z.ltb_spec (expected_config_version m) (config_version m)) as [Hlt|Hge].
    - unfold log_error_and_exit in H. discriminate.
    - unfold bind, on_world, zoom, set_app, modify in H. cbn [fst snd] in H.
      apply upgrade_loop_done in H.
      + cbn in H. destruct H as (_ & H2 & H3). split; [apply H2; exact Hge|exact H3].
      + cbn. lia.
      + cbn. apply lookup_insert_eq. }
  destruct Hdone as [Hv Happ]. split; [exact Hv|].
  apply migrate_config_up_to_date; assumption.
Qed.

End SecondRun.

(** *** The methods of [ConfigMigrator] *)

Section Methods.

Variable decrypt : value -> value -> outcome value.
Variable encrypt : value -> value -> outcome value.
Variable privacy_levels : value -> outcome Z.
Variable get_providers_list : value -> outcome (list NewznabProvider).

(** [_migrate_v1] rebuilds the naming pattern from the old naming
    settings with the help of the database and of the [naming] module; it
    is a parameter here. *)
Variable _migrate_v1 : run world unit.

Definition ConfigMigrator_method (version : Z) : option (run world unit) :=
  match version with
  | 1 => Some _migrate_v1
  | 2 => Some _migrate_v2
  | 3 => Some (_migrate_v3 decrypt encrypt privacy_levels)
  | 4 => Some (_migrate_v4 decrypt encrypt privacy_levels)
  | 5 => Some (_migrate_v5 decrypt encrypt privacy_levels)
  | 6 => Some (_migrate_v6 decrypt encrypt privacy_levels)
  | 7 => Some _migrate_v7
  | 8 => Some (_migrate_v8 decrypt encrypt privacy_levels)
  | 9 => Some _migrate_v9
  | 10 => Some (_migrate_v10 get_providers_list)
  | _ => None
  end.

End Methods.

(** *** A sample run *)

Definition no_newznab (data : value) : outcome (list NewznabProvider) := Ret [].

(** Stands for [_migrate_v1] in the sample runs, none of which starts
    below version 1. *)
Definition not_reached : run world unit := raise Exception.

Definition sample_method : Z -> option (run world unit) :=
  ConfigMigrator_method plain_text plain_text sample_levels no_newznab not_reached.

Definition always_backs_up (file : value) (version : Z) (before : list chain_event) : bool :=
  true.

Definition never_backs_up (file : value) (version : Z) (before : list chain_event) : bool :=
  false.

(** A configuration written at version 1, read by a build at version 5. *)
Definition old_world : world :=
  World (Store {[ "General" := {[ "config_version" := VStr "1";
                                  "metadata_xbmc" := VStr "1|1|1|1|1|1";
                                  "metadata_ps3" := VStr "1|2|3";
                                  "use_banner" := VStr "1" ]};
                  "Newznab" := {[ "newznab_data" :=
                                    VStr "NZBs.org|https://nzbs.org/|key|1!!!broken|entry" ]} ]}
               ∅)
        {[ "CONFIG_VERSION" := VInt 5; "CONFIG_FILE" := VStr "config.ini";
           "PRIVACY_LEVEL" := VStr "normal"; "ENCRYPTION_VERSION" := VInt 0 ]}
        [] [] [].

Definition old_migrator : migrator :=
  match init [] old_world with
  | (Ret m, _) => m
  | _ => Migrator old_world 0 0 []
  end.

Example old_migrator_versions :
  config_version old_migrator = 1 /\ expected_config_version old_migrator = 5.
Proof. split; vm_compute; reflexivity. Qed.

Definition migrated : outcome unit * migrator :=
  migrate_config always_backs_up sample_method old_migrator.

Example sample_run_trace :
  fst migrated = Ret tt /\
  trace (snd migrated) =
    [ Backup (VStr "config.ini") 1 true; Transform 2; Saved 2;
      Backup (VStr "config.ini") 2 true; Transform 3; Saved 3;
      Backup (VStr "config.ini") 3 true; Transform 4; Saved 4;
      Backup (VStr "config.ini") 4 true; Transform 5; Saved 5 ] /\
  config_version (snd migrated) = 5.
Proof. repeat split; vm_compute; reflexivity. Qed.

Example sample_run_results :
  app (surroundings (snd migrated)) !! "METADATA_XBMC" = Some (VStr "1|1|1|0|1|1|1|0|0|0") /\
  app (surroundings (snd migrated)) !! "METADATA_PS3" = Some (VStr "0|0|0|0|0|0|0|0|0|0") /\
  app (surroundings (snd migrated)) !! "NEWZNAB_DATA" =
    Some (VStr "NZBs.org|https://nzbs.org/|key|5030,5040,5060,5070,5090|1").
Proof. repeat split; vm_compute; reflexivity. Qed.

(** The premise of [migrate_config_twice] holds for the sample run. *)
Lemma migrate_config_twice_witness :
  config_version (snd migrated) = expected_config_version (snd migrated) /\
  migrate_config always_backs_up sample_method (snd migrated) = (Ret tt, snd migrated).
Proof.
  apply (migrate_config_twice always_backs_up sample_method old_migrator (snd migrated)).
  vm_compute. reflexivity.
Defined.

(** *** Step 10 on incomplete and on malformed configurations *)

(** A configuration at version 9 that has every item step 10 converts,
    each set to [text]. *)
Definition csv_items : list (string * string) :=
  [ ("General", "git_reset_branches"); ("General", "allowed_extensions");
    ("General", "provider_order"); ("General", "root_dirs"); ("General", "sync_files");
    ("General", "ignore_words"); ("General", "preferred_words");
    ("General", "undesired_words"); ("General", "trackers_list");
    ("General", "require_words"); ("General", "ignored_subs_list");
    ("General", "broken_providers"); ("General", "extra_scripts");
    ("General", "metadata_kodi"); ("General", "metadata_kodi_12plus");
    ("General", "metadata_mediabrowser"); ("General", "metadata_ps3");
    ("General", "metadata_wdtv"); ("General", "metadata_tivo");
    ("General", "metadata_mede8er"); ("Subtitles", "subtitles_languages");
    ("Subtitles", "SUBTITLES_SERVICES_LIST"); ("Subtitles", "SUBTITLES_SERVICES_ENABLED");
    ("KODI", "kodi_host"); ("Plex", "plex_server_host"); ("Plex", "plex_client_host");
    ("Prowl", "prowl_api"); ("Pushover", "pushover_device"); ("NMA", "nma_api");
    ("Email", "email_list") ].

Definition complete_config (text : string) : config :=
  fold_right (fun item c => written c (fst item) (snd item) (VStr text))
             {[ "General" := {[ "config_version" := VStr "9" ]} ]} csv_items.

Definition world_of (c : config) : world :=
  World (Store c ∅)
        {[ "CONFIG_VERSION" := VInt 10; "CONFIG_FILE" := VStr "config.ini";
           "PRIVACY_LEVEL" := VStr "normal"; "ENCRYPTION_VERSION" := VInt 2 ]}
        [] [] [].

(** The same configuration with one descriptor list of RSS torrent
    providers. *)
Definition with_torrentrss (data : string) : world :=
  world_of (written (complete_config "a,b") "TorrentRss" "torrentrss_data" (VStr data)).

(** A configuration at version 9 in which General lacks
    git_reset_branches, and one without the Subtitles section. *)
Definition without_git_reset_branches : world :=
  world_of (<["General" := delete "git_reset_branches"
                             (default ∅ (complete_config "a,b" !! "General"))]>
              (complete_config "a,b")).

Definition without_subtitles : world :=
  world_of (delete "Subtitles" (complete_config "a,b")).

Definition migrator_at_9 (w : world) : migrator := Migrator w 9 10 [].

Example step_10_on_a_complete_configuration :
  let r := _migrate_v10 no_newznab (world_of (complete_config "a,b")) in
  fst r = Ret tt /\
  app (snd r) !! "ROOT_DIRS" = Some (VList [VStr "a,b"]) /\
  app (snd r) !! "SYNC_FILES" = Some (VList [VStr "a"; VStr "b"]) /\
  app (snd r) !! "TORRENTRSS_PROVIDERS" = Some (VList []) /\
  app (snd r) !! "NEWZNAB_PROVIDERS" = Some (VList []).
Proof. repeat split; vm_compute; reflexivity. Qed.

Example step_10_on_readable_descriptors :
  let r := _migrate_v10 no_newznab (with_torrentrss "A|url1|k|t|1!!!A|url2|k|t|1") in
  fst r = Ret tt /\
  app (snd r) !! "TORRENTRSS_PROVIDERS" = Some (VList [VStr "A"; VStr "A"]) /\
  map url (torrentRssProviderList (snd r)) = ["url1"].
Proof. repeat split; vm_compute; reflexivity. Qed.

(** C8: step 10 reads the items of General, Subtitles and the notifier
    sections by plain indexing, outside any [try]: on a configuration that
    lacks one of them the step raises [KeyError] and the run of the chain
    ends there, at version 9, with nothing saved.  The steps built on
    [check_setting_str] (step 3 here) do complete on the same
    configuration. *)
Theorem step_10_fails_on_missing_item :
  fst (_migrate_v10 no_newznab without_git_reset_branches)
    = Raise (KeyError "git_reset_branches") /\
  fst (_migrate_v10 no_newznab without_subtitles) = Raise (KeyError "Subtitles") /\
  (let run := migrate_config always_backs_up sample_method
                (migrator_at_9 without_git_reset_branches) in
   fst run = Raise (KeyError "git_reset_branches") /\
   trace (snd run) = [Backup (VStr "config.ini") 9 true; Transform 10] /\
   config_version (snd run) = 9) /\
  fst (_migrate_v3 plain_text plain_text sample_levels without_subtitles) = Ret tt.
Proof. repeat split; vm_compute; reflexivity. Qed.

(** C6: a descriptor of fewer than five fields makes
    [make_rss_torrent_provider] raise [IndexError] at [values[4]]; the
    handler of that function catches [ValueError] only and the one around
    the provider block of step 10 catches [KeyError] only, so the error
    leaves the step and ends the run, although the second descriptor of the
    list is a readable one.  Step 4 does skip its malformed descriptor and
    goes on. *)
Theorem malformed_rss_descriptor_aborts_step_10 :
  fst (make_rss_torrent_provider "A|url1|k|1" []) = Raise IndexError /\
  fst (get_rss_torrent_providers_list "A|url1|k|1!!!B|url2|k|t|1" []) = Raise IndexError /\
  fst (_migrate_v10 no_newznab (with_torrentrss "A|url1|k|1!!!B|url2|k|t|1"))
    = Raise IndexError /\
  (let run := migrate_config always_backs_up sample_method
                (migrator_at_9 (with_torrentrss "A|url1|k|1!!!B|url2|k|t|1")) in
   fst run = Raise IndexError /\
   trace (snd run) = [Backup (VStr "config.ini") 9 true; Transform 10] /\
   config_version (snd run) = 9) /\
  fst (for_each add_cat_ids ["broken|entry"; "NZBs.org|https://nzbs.org/|key|1"] [])
    = Ret [None; Some "NZBs.org|https://nzbs.org/|key|5030,5040,5060,5070,5090|1"].
Proof. repeat split; vm_compute; reflexivity. Qed.

(** *** Step 5: the result always has ten slots *)


(** *** Step 4: category ids *)





(** *** Step 10: provider ids *)











(** *** Steps 2 to 9 on any configuration *)

Section StepsComplete.

Variable decrypt : value -> value -> outcome value.
Variable encrypt : value -> value -> outcome value.
Variable privacy_levels : value -> outcome Z.










(** The table has the levels the steps ask for, the cipher always
    answers, and what it decrypts is text. *)
Hypothesis level_of_stupid : exists cl, privacy_levels (VStr "stupid") = Ret cl.
Hypothesis level_of_True : exists cl, privacy_levels (VBool true) = Ret cl.
Hypothesis encrypt_answers : forall v ver, exists enc, encrypt v ver = Ret enc.
Hypothesis decrypt_text :
  forall v ver, (exists e, decrypt v ver = Raise e) \/ (exists t, decrypt v ver = Ret (VStr t)).







End StepsComplete.





(** *** The level of [True] *)

Section CensorLog.

Variable decrypt : value -> value -> outcome value.
Variable encrypt : value -> value -> outcome value.
Variable privacy_levels : value -> outcome Z.




End CensorLog.


(** *** A run that returns *)







(** *** A configuration without its version *)




(** *** Step 1: the naming pattern *)

(** [naming_sep_type] of [medusa/config/__init__.py] and the tuple
    [naming_ep_type] local to [_name_to_pattern]. *)
Definition naming_sep_type : list string := [" - "; " "].

Definition naming_ep_type : list string := ["%Sx%0E"; "s%0Se%0E"; "S%0SE%0E"; "%0Sx%0E"].

(** [t[i]] on a tuple: a negative index counts from the end, and an
    index that is no number raises [TypeError]. *)
Definition tuple_index {A : Type} (t : list A) (i : value) : outcome A :=
  match i with
  | VInt i =>
      let n := Z.of_nat (length t) in
      let j := if Z.ltb i 0 then i + n else i in
      if Z.leb 0 j && Z.ltb j n
      then match t !! Z.to_nat j with
           | Some x => Ret x
           | None => Raise IndexError
           end
      else Raise IndexError
  | _ => Raise TypeError
  end.

(** [re.sub(r'\s+', '.', text)]: each run of whitespace becomes one
    full stop. *)
Fixpoint sub_go (in_run : bool) (text : string) : string :=
  match text with
  | "" => ""
  | String c rest =>
      if is_space c
      then if in_run then sub_go true rest else String "." (sub_go true rest)
      else String c (sub_go false rest)
  end.

Definition sub_spaces (text : string) : string := sub_go false text.

(** What [_name_to_pattern] makes of the six settings it has read. *)
Definition pattern_of (abd use_periods : bool) (ep_type sep_type : value)
    (use_quality use_show_name use_ep_name : bool) : outcome string :=
  (* set up our data to use *)
  let show_name := if use_periods then "%S.N" else "%SN" in
  let ep_name := if use_periods then "%E.N" else "%EN" in
  let ep_quality := if use_periods then "%Q.N" else "%QN" in
  let abd_string := if use_periods then "%A.D" else "%A-D" in
  match (if abd && truthy (VStr abd_string)
         then Ret abd_string
         else tuple_index naming_ep_type ep_type) with
  | Ret ep_string =>
      let finalName := "" in
      (* start with the show name *)
      match (if use_show_name && truthy (VStr show_name)
             then match tuple_index naming_sep_type sep_type with
                  | Ret sep => Ret (finalName +:+ (show_name +:+ sep))
                  | Raise e => Raise e
                  | Exit n => Exit n
                  end
             else Ret finalName) with
      | Ret finalName =>
          (* add the season/ep stuff *)
          let finalName := finalName +:+ ep_string in
          (* add the episode name *)
          match (if use_ep_name && truthy (VStr ep_name)
                 then match tuple_index naming_sep_type sep_type with
                      | Ret sep => Ret (finalName +:+ (sep +:+ ep_name))
                      | Raise e => Raise e
                      | Exit n => Exit n
                      end
                 else Ret finalName) with
          | Ret finalName =>
              (* add the quality *)
              match (if use_quality && truthy (VStr ep_quality)
                     then match tuple_index naming_sep_type sep_type with
                          | Ret sep => Ret (finalName +:+ (sep +:+ ep_quality))
                          | Raise e => Raise e
                          | Exit n => Exit n
                          end
                     else Ret finalName) with
              | Ret finalName =>
                  Ret (if use_periods then sub_spaces finalName else finalName)
              | Raise e => Raise e
              | Exit n => Exit n
              end
          | Raise e => Raise e
          | Exit n => Exit n
          end
      | Raise e => Raise e
      | Exit n => Exit n
      end
  | Raise e => Raise e
  | Exit n => Exit n
  end.

(** [self._name_to_pattern(abd)] *)
Definition _name_to_pattern (abd : bool) : run world string :=
  (* get the old settings from the file *)
  let* use_periods := check_setting_int "General" "naming_use_periods" (VInt 0) in
  let* ep_type := check_setting_int "General" "naming_ep_type" (VInt 0) in
  let* sep_type := check_setting_int "General" "naming_sep_type" (VInt 0) in
  let* use_quality := check_setting_int "General" "naming_quality" (VInt 0) in
  let* use_show_name := check_setting_int "General" "naming_show_name" (VInt 1) in
  let* use_ep_name := check_setting_int "General" "naming_ep_name" (VInt 1) in
  lift (pattern_of abd (truthy use_periods) ep_type sep_type (truthy use_quality)
                   (truthy use_show_name) (truthy use_ep_name)).

Example name_to_pattern_examples :
  fst (_name_to_pattern false (World (Store ∅ ∅) ∅ [] [] [])) = Ret "%SN - %Sx%0E - %EN" /\
  fst (_name_to_pattern true (World (Store ∅ ∅) ∅ [] [] [])) = Ret "%SN - %A-D - %EN" /\
  fst (_name_to_pattern false
         (World (Store {[ "General" := {[ "naming_use_periods" := VStr "1";
                                          "naming_ep_type" := VStr "2";
                                          "naming_quality" := VStr "1" ]} ]} ∅) ∅ [] [] []))
    = Ret "%S.N.-.S%0SE%0E.-.%E.N.-.%Q.N".
Proof. repeat split; vm_compute; reflexivity. Qed.












(** *** Step 10 on a complete configuration *)









End Migration.

(** ** The main database: sanity checks and schema upgrades
       ([medusa/databases/main_db.py]) *)

Module MainDB.

Import Migration.

(** oldest db version we support migrating from *)
Definition MIN_DB_VERSION : Z := 40.
Definition MAX_DB_VERSION : Z := 44.
Definition CURRENT_MINOR_DB_VERSION : Z := 8.

(** *** [MainSanityCheck.check] *)

Section SanityCheck.

(** The connection the routines work on, and the routines themselves:
    [check] only calls them, one after the other. *)
Variable connection : Type.

Variable fix_missing_table_indexes : run connection unit.
Variable fix_duplicate_shows : run connection unit.
Variable fix_duplicate_episodes : run connection unit.
Variable fix_orphan_episodes : run connection unit.
Variable fix_unaired_episodes : run connection unit.
Variable fix_indexer_show_statues : run connection unit.
Variable fix_episode_statuses : run connection unit.
Variable fix_invalid_airdates : run connection unit.
Variable fix_show_nfo_lang : run connection unit.
Variable convert_archived_to_compound : run connection unit.
Variable fix_subtitle_reference : run connection unit.
Variable clean_null_indexer_mappings : run connection unit.

Definition check : run connection unit :=
  let* _ := fix_missing_table_indexes in
  let* _ := fix_duplicate_shows in
  let* _ := fix_duplicate_episodes in
  let* _ := fix_orphan_episodes in
  let* _ := fix_unaired_episodes in
  let* _ := fix_indexer_show_statues in
  let* _ := fix_episode_statuses in
  let* _ := fix_invalid_airdates in
  (*  self.fix_subtitles_codes() *)
  let* _ := fix_show_nfo_lang in
  let* _ := convert_archived_to_compound in
  let* _ := fix_subtitle_reference in
  clean_null_indexer_mappings.

(** The routines of the batch, in the order [check] calls them. *)
Definition routines : list (run connection unit) :=
  [ fix_missing_table_indexes; fix_duplicate_shows; fix_duplicate_episodes;
    fix_orphan_episodes; fix_unaired_episodes; fix_indexer_show_statues;
    fix_episode_statuses; fix_invalid_airdates; fix_show_nfo_lang;
    convert_archived_to_compound; fix_subtitle_reference; clean_null_indexer_mappings ].

End SanityCheck.

(** Running a list of routines one after the other. *)
Section Sequences.

Context {S : Type}.
Implicit Types (l pre post : list (run S unit)) (routine : run S unit).

Lemma sequence_app_ret pre post s s1 :
  sequence_ pre s = (Ret tt, s1) -> sequence_ (pre ++ post) s = sequence_ post s1.
Proof.
  revert s. induction pre as [|m pre IH]; intros s H; cbn in *.
  - inversion H. reflexivity.
  - unfold bind in *. destruct (m s) as [[[] | e | n] s'] eqn:Hm; try discriminate.
    apply IH. exact H.
Qed.

Lemma sequence_stops_at_error pre routine post s s1 e s2 :
  sequence_ pre s = (Ret tt, s1) ->
  routine s1 = (Raise e, s2) ->
  sequence_ (pre ++ routine :: post) s = (Raise e, s2).
Proof.
  intros Hpre Hr. rewrite (sequence_app_ret _ _ _ _ Hpre). cbn.
  apply bind_raise. exact Hr.
Qed.

Lemma sequence_ret_all pre routine post s s' :
  sequence_ (pre ++ routine :: post) s = (Ret tt, s') ->
  exists s1 s2, sequence_ pre s = (Ret tt, s1) /\ routine s1 = (Ret tt, s2) /\
                sequence_ post s2 = (Ret tt, s').
Proof.
  revert s. induction pre as [|m pre IH]; intros s H; cbn in *.
  - unfold bind in H. destruct (routine s) as [[[] | e | n] s2] eqn:Hr; try discriminate.
    exists s, s2. auto.
  - unfold bind in *. destruct (m s) as [[[] | e | n] s1] eqn:Hm; try discriminate.
    apply IH. exact H.
Qed.

End Sequences.

(** A batch that records which routines were started; the routine named
    [failing] raises. *)
Definition started (failing routine_name : string) : run (list string) unit :=
  fun names =>
    (if String.eqb routine_name failing then Raise Exception else Ret tt,
     names ++ [routine_name]).

Definition sample_check (failing : string) : run (list string) unit :=
  check (list string)
    (started failing "fix_missing_table_indexes") (started failing "fix_duplicate_shows")
    (started failing "fix_duplicate_episodes") (started failing "fix_orphan_episodes")
    (started failing "fix_unaired_episodes") (started failing "fix_indexer_show_statues")
    (started failing "fix_episode_statuses") (started failing "fix_invalid_airdates")
    (started failing "fix_show_nfo_lang") (started failing "convert_archived_to_compound")
    (started failing "fix_subtitle_reference") (started failing "clean_null_indexer_mappings").

Example sample_check_all_return :
  sample_check "" [] =
  (Ret tt,
   [ "fix_missing_table_indexes"; "fix_duplicate_shows"; "fix_duplicate_episodes";
     "fix_orphan_episodes"; "fix_unaired_episodes"; "fix_indexer_show_statues";
     "fix_episode_statuses"; "fix_invalid_airdates"; "fix_show_nfo_lang";
     "convert_archived_to_compound"; "fix_subtitle_reference";
     "clean_null_indexer_mappings" ]).
Proof. reflexivity. Qed.

(** C3, as stated, fails: [check] has no handler around its calls.  When
    [fix_duplicate_episodes] raises, the error leaves [check] and none of
    the nine routines after it is started. *)
Lemma a_failing_check_ends_the_batch :
  sample_check "fix_duplicate_episodes" [] =
  (Raise Exception,
   [ "fix_missing_table_indexes"; "fix_duplicate_shows"; "fix_duplicate_episodes" ]).
Proof. reflexivity. Qed.

Section SanityCheckFacts.

Variable connection : Type.

Variable fix_missing_table_indexes : run connection unit.
Variable fix_duplicate_shows : run connection unit.
Variable fix_duplicate_episodes : run connection unit.
Variable fix_orphan_episodes : run connection unit.
Variable fix_unaired_episodes : run connection unit.
Variable fix_indexer_show_statues : run connection unit.
Variable fix_episode_statuses : run connection unit.
Variable fix_invalid_airdates : run connection unit.
Variable fix_show_nfo_lang : run connection unit.
Variable convert_archived_to_compound : run connection unit.
Variable fix_subtitle_reference : run connection unit.
Variable clean_null_indexer_mappings : run connection unit.

Abbreviation the_check :=
  (check connection fix_missing_table_indexes fix_duplicate_shows fix_duplicate_episodes
     fix_orphan_episodes fix_unaired_episodes fix_indexer_show_statues
     fix_episode_statuses fix_invalid_airdates fix_show_nfo_lang
     convert_archived_to_compound fix_subtitle_reference clean_null_indexer_mappings).

Abbreviation the_routines :=
  (routines connection fix_missing_table_indexes fix_duplicate_shows fix_duplicate_episodes
     fix_orphan_episodes fix_unaired_episodes fix_indexer_show_statues
     fix_episode_statuses fix_invalid_airdates fix_show_nfo_lang
     convert_archived_to_compound fix_subtitle_reference clean_null_indexer_mappings).

Lemma check_is_sequence (c : connection) : the_check c = sequence_ the_routines c.
Proof.
  unfold check, routines. cbn [sequence_].
  unfold bind.
  repeat match goal with
         | |- context [let (_, _) := ?m c in _] => destruct (m c) as [[[] | ? | ?] ?]
         | |- context [match ?m ?x with _ => _ end] =>
             destruct (m x) as [[[] | ? | ?] ?]
         end; reflexivity.
Qed.

(** C3 (amended).  [check] runs the twelve routines in a fixed order
    with no handler of its own.  The first routine that raises ends the
    batch: its error is the result of [check], and the connection is left
    as that routine left it, no later routine having run.  [check] returns
    only if every routine returned, each started on the connection its
    predecessor left. *)
Theorem check_stops_at_first_error :
  (forall pre routine post c c1 e c2,
     the_routines = pre ++ routine :: post ->
     sequence_ pre c = (Ret tt, c1) ->
     routine c1 = (Raise e, c2) ->
     the_check c = (Raise e, c2)) /\
  (forall pre routine post c c',
     the_routines = pre ++ routine :: post ->
     the_check c = (Ret tt, c') ->
     exists c1 c2, sequence_ pre c = (Ret tt, c1) /\ routine c1 = (Ret tt, c2) /\
                   sequence_ post c2 = (Ret tt, c')).
Proof.
  split.
  - intros pre routine post c c1 e c2 Hsplit Hpre Hr.
    rewrite check_is_sequence, Hsplit.
    eapply sequence_stops_at_error; eassumption.
  - intros pre routine post c c' Hsplit Hret.
    rewrite check_is_sequence, Hsplit in Hret.
    apply sequence_ret_all. exact Hret.
Qed.

End SanityCheckFacts.

(** The sample batch in which the third routine raises, as an instance of
    [check_stops_at_first_error]. *)
Lemma check_stops_at_first_error_witness :
  sample_check "fix_duplicate_episodes" [] =
  (Raise Exception,
   [ "fix_missing_table_indexes"; "fix_duplicate_shows"; "fix_duplicate_episodes" ]).
Proof.
  pose (f := started "fix_duplicate_episodes").
  refine (proj1 (check_stops_at_first_error (list string)
            (f "fix_missing_table_indexes") (f "fix_duplicate_shows")
            (f "fix_duplicate_episodes") (f "fix_orphan_episodes")
            (f "fix_unaired_episodes") (f "fix_indexer_show_statues")
            (f "fix_episode_statuses") (f "fix_invalid_airdates")
            (f "fix_show_nfo_lang") (f "convert_archived_to_compound")
            (f "fix_subtitle_reference") (f "clean_null_indexer_mappings"))
          [f "fix_missing_table_indexes"; f "fix_duplicate_shows"]
          (f "fix_duplicate_episodes") _ [] _ Exception _ eq_refl eq_refl eq_refl).
Defined.

(** *** Duplicate shows and episodes *)

(** The columns of [tv_shows] and [tv_episodes] that the two repairs
    read.  [show_id] and [episode_id] are the INTEGER PRIMARY KEY of their
    tables.  A table is the list of its rows in the order in which the
    engine returns them to a SELECT without ORDER BY. *)
Record show : Type := Show { show_id : Z; indexer_id : Z }.
Record episode_row : Type := Episode { episode_id : Z; showid : Z; season : Z; episode : Z }.

Record tables : Type := Tables {
  tv_shows : list show;
  tv_episodes : list episode_row;
  messages : list log_entry;
}.

(** The distinct values of [l], each at its first place. *)
Fixpoint distinct {A : Type} `{EqDecision A} (l : list A) : list A :=
  match l with
  | [] => []
  | x :: rest => x :: List.filter (fun y => negb (bool_decide (y = x))) (distinct rest)
  end.

(** [SELECT show_id, indexer_id, COUNT(indexer_id) as count FROM tv_shows
    GROUP BY indexer_id HAVING count > 1]: the key and the count of each
    group of more than one row. *)
Definition same_show (key : Z) (r : show) : bool := Z.eqb (indexer_id r) key.

Definition count_shows (key : Z) (rows : list show) : nat :=
  length (List.filter (same_show key) rows).

Definition duplicate_shows (rows : list show) : list (Z * nat) :=
  List.filter (fun g => Nat.ltb 1 (snd g))
              (map (fun key => (key, count_shows key rows)) (distinct (map indexer_id rows))).

(** [SELECT show_id, indexer_id FROM tv_shows WHERE indexer_id = ? LIMIT ?]:
    no ORDER BY, so the rows come in the order of the table. *)
Definition select_shows_limit (key : Z) (limit : nat) (rows : list show) : list show :=
  take limit (List.filter (same_show key) rows).

(** [DELETE FROM tv_shows WHERE show_id = ?] *)
Definition delete_show (id : Z) (rows : list show) : list show :=
  List.filter (fun r => negb (Z.eqb (show_id r) id)) rows.

Definition info (template : string) (args : list (string * value)) (t : tables) : tables :=
  Tables (tv_shows t) (tv_episodes t) (messages t ++ [Log INFO template args]).

Definition debug (template : string) (args : list (string * value)) (t : tables) : tables :=
  Tables (tv_shows t) (tv_episodes t) (messages t ++ [Log DEBUG template args]).

(** [fix_duplicate_shows(column='indexer_id')] *)
Definition delete_duplicate_show (cur_dupe_id : show) (t : tables) : tables :=
  let t := info "Deleting duplicate show with {0}: {1!s} show_id: {2!s}"
                [("0", VStr "indexer_id"); ("1", VInt (indexer_id cur_dupe_id));
                 ("2", VInt (show_id cur_dupe_id))] t in
  Tables (delete_show (show_id cur_dupe_id) (tv_shows t)) (tv_episodes t) (messages t).

Definition fix_duplicate_show (cur_duplicate : Z * nat) (t : tables) : tables :=
  let t := info "Duplicate show detected! {0}: {1!s} count: {2!s}"
                [("0", VStr "indexer_id"); ("1", VInt (fst cur_duplicate));
                 ("2", VInt (Z.of_nat (snd cur_duplicate)))] t in
  let cur_dupe_results :=
    select_shows_limit (fst cur_duplicate) (snd cur_duplicate - 1) (tv_shows t) in
  fold_left (fun t cur_dupe_id => delete_duplicate_show cur_dupe_id t) cur_dupe_results t.

Definition fix_duplicate_shows (t : tables) : tables :=
  let sql_results := duplicate_shows (tv_shows t) in
  fold_left (fun t cur_duplicate => fix_duplicate_show cur_duplicate t) sql_results t.

(** [SELECT showid, season, episode, COUNT(showid) as count FROM
    tv_episodes GROUP BY showid, season, episode HAVING count > 1] *)
Definition episode_key (r : episode_row) : Z * Z * Z := (showid r, season r, episode r).

Definition same_episode (key : Z * Z * Z) (r : episode_row) : bool :=
  bool_decide (episode_key r = key).

Definition count_episodes (key : Z * Z * Z) (rows : list episode_row) : nat :=
  length (List.filter (same_episode key) rows).

Definition duplicate_episodes (rows : list episode_row) : list (Z * Z * Z * nat) :=
  List.filter (fun g => Nat.ltb 1 (snd g))
              (map (fun key => (key, count_episodes key rows))
                   (distinct (map episode_key rows))).

(** [ORDER BY episode_id DESC], by insertion. *)
Fixpoint insert_desc (r : episode_row) (sorted : list episode_row) : list episode_row :=
  match sorted with
  | [] => [r]
  | x :: rest =>
      if Z.leb (episode_id x) (episode_id r) then r :: sorted else x :: insert_desc r rest
  end.

Definition order_by_episode_id_desc (rows : list episode_row) : list episode_row :=
  fold_right insert_desc [] rows.

(** [SELECT episode_id FROM tv_episodes WHERE showid = ? AND season = ? and
    episode = ? ORDER BY episode_id DESC LIMIT ?] *)
Definition select_episodes_limit (key : Z * Z * Z) (limit : nat) (rows : list episode_row) :
    list Z :=
  map episode_id (take limit (order_by_episode_id_desc (List.filter (same_episode key) rows))).

(** [DELETE FROM tv_episodes WHERE episode_id = ?] *)
Definition delete_episode (id : Z) (rows : list episode_row) : list episode_row :=
  List.filter (fun r => negb (Z.eqb (episode_id r) id)) rows.

(** [fix_duplicate_episodes()] *)
Definition delete_duplicate_episode (cur_dupe_id : Z) (t : tables) : tables :=
  let t := info "Deleting duplicate episode with episode_id: {0!s}"
                [("0", VInt cur_dupe_id)] t in
  Tables (tv_shows t) (delete_episode cur_dupe_id (tv_episodes t)) (messages t).

Definition fix_duplicate_episode (cur_duplicate : Z * Z * Z * nat) (t : tables) : tables :=
  let key := fst cur_duplicate in
  let t := debug ("Duplicate episode detected! showid: {0!s} season: {1!s} " +:+
                  "episode: {2!s} count: {3!s}")
                 [("0", VInt (fst (fst key))); ("1", VInt (snd (fst key)));
                  ("2", VInt (snd key)); ("3", VInt (Z.of_nat (snd cur_duplicate)))] t in
  let cur_dupe_results :=
    select_episodes_limit key (snd cur_duplicate - 1) (tv_episodes t) in
  fold_left (fun t cur_dupe_id => delete_duplicate_episode cur_dupe_id t) cur_dupe_results t.

Definition fix_duplicate_episodes (t : tables) : tables :=
  let sql_results := duplicate_episodes (tv_episodes t) in
  fold_left (fun t cur_duplicate => fix_duplicate_episode cur_duplicate t) sql_results t.

(** *** What the two repairs leave

    Both repairs have one shape: for each key that more than one row has,
    select all the rows of the key but one, in some order, and delete the
    selected rows by their primary key.  The section proves, for any such
    repair, which rows are left; the two repairs are then its instances. *)
Section Survivors.

(** The rows of a table, their primary key [id], the [key] that the
    repair groups them by, the test [same] of the WHERE clause and the
    [order] in which the engine returns the rows it selects. *)
Context {A K : Type} `{EqDecision K}.
Variable id : A -> Z.
Variable key : A -> K.
Variable same : K -> A -> bool.
Variable order : list A -> list A.

(** One DELETE by primary key for each selected id. *)
Definition delete_ids (ids : list Z) (rows : list A) : list A :=
  fold_left (fun rows i => List.filter (fun r => negb (Z.eqb (id r) i)) rows) ids rows.

(** The ids of the first [limit] rows of key [k], in the engine's order. *)
Definition selected (k : K) (limit : nat) (rows : list A) : list Z :=
  map id (take limit (order (List.filter (same k) rows))).

(** The body of the outer loop for one group [(key, count)]. *)
Definition repair_group (g : K * nat) (rows : list A) : list A :=
  delete_ids (selected (fst g) (snd g - 1) rows) rows.

(** [GROUP BY key HAVING count > 1] *)
Definition groups (rows : list A) : list (K * nat) :=
  List.filter (fun g => Nat.ltb 1 (snd g))
              (map (fun k => (k, length (List.filter (same k) rows))) (distinct (map key rows))).

Definition repair (rows : list A) : list A :=
  fold_left (fun rows g => repair_group g rows) (groups rows) rows.

(** The id that the selection of key [k] puts last, which the LIMIT of
    one less than the count leaves out. *)
Definition kept (k : K) (rows : list A) : Z :=
  List.last (map id (order (List.filter (same k) rows))) 0.

Definition survives (rows : list A) (r : A) : bool :=
  Z.eqb (id r) (kept (key r) rows).

Lemma filter_true (p : A -> bool) (l : list A) :
  (forall x, In x l -> p x = true) -> List.filter p l = l.
Proof.
  induction l as [|x l IH]; intros H; [reflexivity|].
  cbn. rewrite (H x (or_introl eq_refl)). f_equal. apply IH.
  intros y Hy. apply H. right. exact Hy.
Qed.

Lemma filter_both (p q : A -> bool) (l : list A) :
  List.filter p (List.filter q l) = List.filter (fun x => q x && p x) l.
Proof.
  induction l as [|x l IH]; [reflexivity|].
  cbn. destruct (q x); cbn; [destruct (p x)|]; rewrite IH; reflexivity.
Qed.

Lemma delete_ids_filter (ids : list Z) (rows : list A) :
  delete_ids ids rows = List.filter (fun r => negb (existsb (Z.eqb (id r)) ids)) rows.
Proof.
  unfold delete_ids. revert rows.
  induction ids as [|i ids IH]; intros rows; cbn [fold_left existsb].
  - symmetry. apply filter_true. reflexivity.
  - rewrite IH, filter_both. apply List.filter_ext. intros r.
    rewrite Bool.negb_orb. reflexivity.
Qed.

Lemma NoDup_map_filter (p : A -> bool) (l : list A) :
  List.NoDup (map id l) -> List.NoDup (map id (List.filter p l)).
Proof.
  induction l as [|x l IH]; intros H; [exact H|].
  cbn in H. apply List.NoDup_cons_iff in H as [Hx Hl].
  cbn. destruct (p x); [|auto].
  cbn. apply List.NoDup_cons; [|auto].
  intros Hin. apply Hx. apply List.in_map_iff in Hin as (y & Hy & Hin).
  apply List.in_map_iff. exists y. split; [exact Hy|].
  apply List.filter_In in Hin. tauto.
Qed.

Lemma NoDup_map_inj (l : list A) x y :
  List.NoDup (map id l) -> In x l -> In y l -> id x = id y -> x = y.
Proof.
  induction l as [|a l IH]; intros H Hx Hy E; [destruct Hx|].
  cbn in H. apply List.NoDup_cons_iff in H as [Ha Hl].
  destruct Hx as [->|Hx], Hy as [->|Hy]; auto.
  - exfalso. apply Ha. rewrite E. apply List.in_map. exact Hy.
  - exfalso. apply Ha. rewrite <- E. apply List.in_map. exact Hx.
Qed.

Lemma last_map (l : list A) (d : A) :
  l <> [] -> List.last (map id l) 0 = id (List.last l d).
Proof.
  induction l as [|a l IH]; intros H; [congruence|].
  destruct l as [|b l]; [reflexivity|].
  change (List.last (map id (b :: l)) 0 = id (List.last (b :: l) d)).
  apply IH. congruence.
Qed.

Hypothesis order_perm : forall l, Permutation (order l) l.
Hypothesis same_key : forall k r, same k r = true <-> key r = k.

Lemma existsb_id_in (r : A) (l : list A) :
  existsb (Z.eqb (id r)) (map id l) = true <-> exists s, In s l /\ id s = id r.
Proof.
  rewrite List.existsb_exists. split.
  - intros (i & Hi & E). apply List.in_map_iff in Hi as (s & <- & Hs).
    apply Z.eqb_eq in E. exists s. auto.
  - intros (s & Hs & E). exists (id s). split; [apply List.in_map; exact Hs|].
    apply Z.eqb_eq. auto.
Qed.

Lemma repair_group_filter (k : K) (rows : list A) :
  List.NoDup (map id rows) ->
  repair_group (k, length (List.filter (same k) rows)) rows =
  List.filter (fun r => negb (same k r) || Z.eqb (id r) (kept k rows)) rows.
Proof.
  intros Hnd. unfold repair_group, selected, kept. cbn [fst snd].
  rewrite delete_ids_filter.
  set (L := List.filter (same k) rows). set (S := order L).
  assert (HSL : forall s, In s S <-> In s L).
  { intros s. split; apply Permutation_in; [|symmetry]; apply order_perm. }
  assert (HL : forall s, In s L <-> In s rows /\ same k s = true).
  { intros s. apply List.filter_In. }
  assert (HndS : List.NoDup (map id S)).
  { apply (Permutation_NoDup (l := map id L)).
    - symmetry. apply Permutation_map, order_perm.
    - apply NoDup_map_filter, Hnd. }
  replace (length L) with (length S) by apply Permutation_length, order_perm.
  rewrite Nat.sub_1_r, <- List.removelast_firstn_len.
  apply List.filter_ext_in. intros r Hr.
  destruct (same k r) eqn:Hk; cbn [negb orb].
  - assert (HrS : In r S) by (apply HSL, HL; auto).
    assert (HS : S <> []) by (intros E; rewrite E in HrS; destruct HrS).
    rewrite (last_map S r HS).
    pose proof (List.app_removelast_last r HS) as Happ.
    assert (Hlast : ~ In (id (List.last S r)) (map id (List.removelast S))).
    { rewrite Happ in HndS at 1. rewrite List.map_app in HndS.
      apply List.NoDup_remove_2 in HndS. rewrite List.app_nil_r in HndS. exact HndS. }
    apply Bool.eq_iff_eq_true. rewrite Bool.negb_true_iff, Z.eqb_eq.
    rewrite <- Bool.not_true_iff_false, existsb_id_in. split.
    + intros Hno. rewrite Happ in HrS. apply List.in_app_iff in HrS as [Hin|Hin].
      * exfalso. apply Hno. exists r. auto.
      * destruct Hin as [E|[]]. rewrite E. reflexivity.
    + intros E (s & Hs & Es). apply Hlast. rewrite <- E, <- Es.
      apply List.in_map. exact Hs.
  - apply Bool.negb_true_iff, Bool.not_true_iff_false.
    rewrite existsb_id_in. intros (s & Hs & Es).
    assert (HsS : In s S).
    { destruct S as [|a S']; [destruct Hs|].
      rewrite (List.app_removelast_last a (l := a :: S')) by congruence.
      apply List.in_app_iff. left. exact Hs. }
    apply HSL, HL in HsS as [Hsr Hsk].
    assert (s = r) by (apply (NoDup_map_inj rows); auto).
    subst s. congruence.
Qed.

Definition group_ok (rows : list A) (r : A) (g : K * nat) : bool :=
  negb (same (fst g) r) || Z.eqb (id r) (kept (fst g) rows).

Lemma kept_same_group (k : K) (rows rows' : list A) :
  List.filter (same k) rows = List.filter (same k) rows' -> kept k rows = kept k rows'.
Proof. unfold kept. intros ->. reflexivity. Qed.

Lemma repair_fold (rows0 : list A) (gs : list (K * nat)) (cur : list A) :
  List.NoDup (map fst gs) ->
  (forall g, In g gs -> snd g = length (List.filter (same (fst g)) rows0)) ->
  List.NoDup (map id cur) ->
  (forall g, In g gs ->
     List.filter (same (fst g)) cur = List.filter (same (fst g)) rows0) ->
  fold_left (fun rows g => repair_group g rows) gs cur =
  List.filter (fun r => forallb (group_ok rows0 r) gs) cur.
Proof.
  revert cur. induction gs as [|[k c] gs IH]; intros cur Hkeys Hcount Hnd Hsame.
  - symmetry. apply filter_true. reflexivity.
  - cbn [fold_left forallb]. cbn [map fst] in Hkeys.
    apply List.NoDup_cons_iff in Hkeys as [Hk Hkeys].
    pose proof (Hcount (k, c) (or_introl eq_refl)) as Hc.
    pose proof (Hsame (k, c) (or_introl eq_refl)) as Hg.
    cbn [fst snd] in Hc, Hg. rewrite Hc, <- Hg, repair_group_filter by exact Hnd.
    rewrite (kept_same_group k cur rows0 Hg).
    rewrite IH.
    + apply filter_both.
    + exact Hkeys.
    + intros g Hin. apply Hcount. right. exact Hin.
    + apply NoDup_map_filter, Hnd.
    + intros g Hin. rewrite <- (Hsame g (or_intror Hin)), filter_both.
      apply List.filter_ext. intros x.
      destruct (same (fst g) x) eqn:Hx; [|apply Bool.andb_false_r].
      rewrite Bool.andb_true_r.
      destruct (same k x) eqn:Hkx; [|reflexivity].
      exfalso. apply Hk. apply same_key in Hx, Hkx. rewrite <- Hkx, Hx.
      apply List.in_map. exact Hin.
Qed.

Lemma distinct_In {B : Type} `{EqDecision B} (l : list B) (x : B) :
  In x (distinct l) <-> In x l.
Proof.
  induction l as [|a l IH]; [reflexivity|].
  cbn. rewrite List.filter_In, IH, Bool.negb_true_iff, bool_decide_eq_false.
  destruct (decide (x = a)) as [->|Hne]; [tauto|].
  split; [tauto|]. intros [E|Hin]; [congruence|tauto].
Qed.

Lemma distinct_NoDup {B : Type} `{EqDecision B} (l : list B) : List.NoDup (distinct l).
Proof.
  induction l as [|a l IH]; cbn; constructor.
  - rewrite List.filter_In, Bool.negb_true_iff, bool_decide_eq_false. tauto.
  - apply List.NoDup_filter, IH.
Qed.

Lemma groups_In (rows : list A) (g : K * nat) :
  In g (groups rows) <->
  In (fst g) (map key rows) /\ snd g = length (List.filter (same (fst g)) rows) /\
  (1 < snd g)%nat.
Proof.
  unfold groups. rewrite List.filter_In, List.in_map_iff, Nat.ltb_lt. split.
  - intros [(k & <- & Hk) Hlt]. apply (proj1 (distinct_In _ _)) in Hk. cbn [fst snd] in *. auto.
  - intros (Hk & Hc & Hlt). split; [|exact Hlt].
    exists (fst g). split; [|apply distinct_In, Hk].
    destruct g as [k c]. cbn in *. congruence.
Qed.

Lemma groups_keys_NoDup (rows : list A) : List.NoDup (map fst (groups rows)).
Proof.
  unfold groups. generalize (distinct_NoDup (map key rows)).
  induction (distinct (map key rows)) as [|k ks IH]; intros H; [constructor|].
  apply List.NoDup_cons_iff in H as [Hk Hks]. cbn [map List.filter snd].
  destruct (Nat.ltb 1 _); [|auto].
  cbn [map fst]. constructor; [|auto].
  intros Hin. apply Hk. apply List.in_map_iff in Hin as (g & <- & Hg).
  apply List.filter_In in Hg as [Hg _]. apply List.in_map_iff in Hg as (k' & <- & Hk').
  exact Hk'.
Qed.

Lemma kept_alone (r : A) (rows : list A) :
  In r rows -> (length (List.filter (same (key r)) rows) <= 1)%nat ->
  kept (key r) rows = id r.
Proof.
  intros Hr Hlen. unfold kept.
  assert (Hin : In r (List.filter (same (key r)) rows)).
  { apply List.filter_In. split; [exact Hr|]. apply same_key. reflexivity. }
  destruct (List.filter (same (key r)) rows) as [|a [|b l]]; cbn in Hlen, Hin.
  - destruct Hin.
  - destruct Hin as [->|[]].
    rewrite (Permutation_length_1_inv (Permutation_sym (order_perm [r]))).
    reflexivity.
  - lia.
Qed.

(** On a table whose primary key is unique the repair leaves, of the rows
    of each key, the one that the ordered selection puts last. *)
Lemma repair_survivors (rows : list A) :
  List.NoDup (map id rows) -> repair rows = List.filter (survives rows) rows.
Proof.
  intros Hnd. unfold repair.
  rewrite (repair_fold rows); [|apply groups_keys_NoDup| |exact Hnd|reflexivity].
  2: { intros g Hg. apply groups_In in Hg. tauto. }
  apply List.filter_ext_in. intros r Hr. unfold survives.
  apply Bool.eq_iff_eq_true. rewrite List.forallb_forall. split.
  - intros H.
    destruct (Nat.ltb 1 (length (List.filter (same (key r)) rows))) eqn:Hlt.
    + apply Nat.ltb_lt in Hlt.
      specialize (H (key r, length (List.filter (same (key r)) rows))).
      unfold group_ok in H. cbn [fst] in H.
      rewrite (proj2 (same_key (key r) r) eq_refl) in H. apply H.
      apply groups_In. cbn [fst snd]. split; [apply List.in_map, Hr|auto].
    + apply Nat.ltb_ge in Hlt. rewrite kept_alone by assumption. apply Z.eqb_refl.
  - intros H g _. unfold group_ok.
    destruct (same (fst g) r) eqn:Hg; [|reflexivity].
    apply same_key in Hg. rewrite <- Hg. exact H.
Qed.

End Survivors.

(** **** Shows: the last row of each indexer id, in the order of the scan *)

Lemma shows_deleted (cur_dupe_results : list show) (t : tables) :
  tv_shows (fold_left (fun t cur_dupe_id => delete_duplicate_show cur_dupe_id t)
                      cur_dupe_results t) =
  delete_ids show_id (map show_id cur_dupe_results) (tv_shows t).
Proof.
  revert t. induction cur_dupe_results as [|r sel IH]; intros t; [reflexivity|].
  cbn [fold_left map]. rewrite IH. reflexivity.
Qed.

Lemma fix_duplicate_show_rows (cur_duplicate : Z * nat) (t : tables) :
  tv_shows (fix_duplicate_show cur_duplicate t) =
  repair_group show_id same_show (fun rows => rows) cur_duplicate (tv_shows t).
Proof. unfold fix_duplicate_show. cbv zeta. rewrite shows_deleted. reflexivity. Qed.

Lemma fix_duplicate_shows_rows (t : tables) :
  tv_shows (fix_duplicate_shows t) =
  repair show_id indexer_id same_show (fun rows => rows) (tv_shows t).
Proof.
  unfold fix_duplicate_shows, repair. cbv zeta.
  change (duplicate_shows (tv_shows t)) with (groups indexer_id same_show (tv_shows t)).
  generalize (groups indexer_id same_show (tv_shows t)). intros gs. revert t.
  induction gs as [|g gs IH]; intros t; [reflexivity|].
  cbn [fold_left]. rewrite IH, fix_duplicate_show_rows. reflexivity.
Qed.

(** The rows that no later row of the table shares its indexer id with. *)
Fixpoint last_of_each_show (rows : list show) : list show :=
  match rows with
  | [] => []
  | r :: rest =>
      if existsb (same_show (indexer_id r)) rest then last_of_each_show rest
      else r :: last_of_each_show rest
  end.

Lemma existsb_filter_nil {A : Type} (p : A -> bool) (l : list A) :
  existsb p l = false <-> List.filter p l = [].
Proof.
  induction l as [|x l IH]; cbn; [tauto|].
  destruct (p x); cbn; [split; discriminate|exact IH].
Qed.

Lemma last_cons_nonempty {A : Type} (x : A) (l : list A) (d : A) :
  l <> [] -> List.last (x :: l) d = List.last l d.
Proof. destruct l; [congruence|reflexivity]. Qed.

Lemma last_In {A : Type} (l : list A) (d : A) : l <> [] -> In (List.last l d) l.
Proof.
  induction l as [|x l IH]; intros H; [congruence|].
  destruct l as [|y l]; [left; reflexivity|].
  right. apply IH. congruence.
Qed.

Lemma survives_last_of_each_show (rows : list show) :
  List.NoDup (map show_id rows) ->
  List.filter (survives show_id indexer_id same_show (fun rows => rows) rows) rows =
  last_of_each_show rows.
Proof.
  induction rows as [|r rest IH]; intros Hnd; [reflexivity|].
  cbn [map] in Hnd. apply List.NoDup_cons_iff in Hnd as [Hr Hnd].
  assert (Hrest : List.filter (survives show_id indexer_id same_show (fun rows => rows)
                                        (r :: rest)) rest = last_of_each_show rest).
  { rewrite <- IH by exact Hnd. apply List.filter_ext_in. intros x Hx.
    unfold survives, kept. cbn [List.filter].
    assert (Hne : List.filter (same_show (indexer_id x)) rest <> []).
    { intros E. apply existsb_filter_nil in E.
      apply Bool.not_true_iff_false in E. apply E.
      apply List.existsb_exists. exists x. split; [exact Hx|apply Z.eqb_refl]. }
    destruct (same_show (indexer_id x) r); [|reflexivity].
    cbn [map]. rewrite last_cons_nonempty; [reflexivity|].
    intros E. apply List.map_eq_nil in E. contradiction. }
  cbn [List.filter last_of_each_show]. rewrite Hrest.
  unfold survives at 1, kept. cbn [List.filter].
  unfold same_show at 1. rewrite Z.eqb_refl. cbn [map].
  destruct (existsb (same_show (indexer_id r)) rest) eqn:Hex.
  - assert (Hne : map show_id (List.filter (same_show (indexer_id r)) rest) <> []).
    { intros E. apply List.map_eq_nil, existsb_filter_nil in E. congruence. }
    rewrite last_cons_nonempty by exact Hne.
    destruct (Z.eqb_spec (show_id r)
                (List.last (map show_id (List.filter (same_show (indexer_id r)) rest)) 0))
      as [E|_]; [|reflexivity].
    exfalso. apply Hr. rewrite E.
    apply (List.incl_map show_id (List.incl_filter (same_show (indexer_id r)) rest)).
    apply last_In, Hne.
  - apply existsb_filter_nil in Hex. rewrite Hex. cbn. rewrite Z.eqb_refl. reflexivity.
Qed.

(** When [show_id] is unique in [tv_shows], what [fix_duplicate_shows]
    leaves of the rows of one indexer id is the row that the SELECT
    without ORDER BY returns last. *)
Lemma fix_duplicate_shows_keeps_last (t : tables) :
  List.NoDup (map show_id (tv_shows t)) ->
  tv_shows (fix_duplicate_shows t) = last_of_each_show (tv_shows t).
Proof.
  intros Hnd. rewrite fix_duplicate_shows_rows, repair_survivors.
  - apply survives_last_of_each_show, Hnd.
  - intros l. reflexivity.
  - intros k r. unfold same_show. apply Z.eqb_eq.
  - exact Hnd.
Qed.

(** **** Episodes: the lowest episode id of each key *)

Lemma episodes_deleted (cur_dupe_results : list Z) (t : tables) :
  tv_episodes (fold_left (fun t cur_dupe_id => delete_duplicate_episode cur_dupe_id t)
                         cur_dupe_results t) =
  delete_ids episode_id cur_dupe_results (tv_episodes t).
Proof.
  revert t. induction cur_dupe_results as [|i sel IH]; intros t; [reflexivity|].
  cbn [fold_left]. rewrite IH. reflexivity.
Qed.

Lemma fix_duplicate_episode_rows (cur_duplicate : Z * Z * Z * nat) (t : tables) :
  tv_episodes (fix_duplicate_episode cur_duplicate t) =
  repair_group episode_id same_episode order_by_episode_id_desc cur_duplicate
               (tv_episodes t).
Proof. unfold fix_duplicate_episode. cbv zeta. rewrite episodes_deleted. reflexivity. Qed.

Lemma fix_duplicate_episodes_rows (t : tables) :
  tv_episodes (fix_duplicate_episodes t) =
  repair episode_id episode_key same_episode order_by_episode_id_desc (tv_episodes t).
Proof.
  unfold fix_duplicate_episodes, repair. cbv zeta.
  change (duplicate_episodes (tv_episodes t))
    with (groups episode_key same_episode (tv_episodes t)).
  generalize (groups episode_key same_episode (tv_episodes t)). intros gs. revert t.
  induction gs as [|g gs IH]; intros t; [reflexivity|].
  cbn [fold_left]. rewrite IH, fix_duplicate_episode_rows. reflexivity.
Qed.

Lemma insert_desc_perm (r : episode_row) (l : list episode_row) :
  Permutation (insert_desc r l) (r :: l).
Proof.
  induction l as [|x l IH]; cbn; [reflexivity|].
  destruct (Z.leb (episode_id x) (episode_id r)); [reflexivity|].
  rewrite IH. apply perm_swap.
Qed.

Lemma order_by_episode_id_desc_perm (l : list episode_row) :
  Permutation (order_by_episode_id_desc l) l.
Proof.
  induction l as [|x l IH]; cbn; [reflexivity|].
  rewrite insert_desc_perm, IH. reflexivity.
Qed.

(** Every row is followed by rows of lower or equal id only. *)
Fixpoint descending (l : list episode_row) : Prop :=
  match l with
  | [] => True
  | x :: rest => (forall y, In y rest -> episode_id y <= episode_id x) /\ descending rest
  end.

Lemma insert_desc_descending (r : episode_row) (l : list episode_row) :
  descending l -> descending (insert_desc r l).
Proof.
  induction l as [|x l IH]; intros H.
  - cbn. split; [intros y []|exact I].
  - destruct H as [Hx Hl]. cbn [insert_desc].
    destruct (Z.leb_spec (episode_id x) (episode_id r)) as [Hle|Hlt].
    + split; [|split; assumption].
      intros y [<-|Hy]; [exact Hle|]. specialize (Hx y Hy). lia.
    + split; [|auto].
      intros y Hy. apply (Permutation_in _ (insert_desc_perm r l)) in Hy.
      destruct Hy as [<-|Hy]; [lia|auto].
Qed.

Lemma order_by_episode_id_desc_descending (l : list episode_row) :
  descending (order_by_episode_id_desc l).
Proof.
  induction l as [|x l IH]; [exact I|]. cbn. apply insert_desc_descending, IH.
Qed.

Lemma descending_last (l : list episode_row) (d y : episode_row) :
  descending l -> In y l -> episode_id (List.last l d) <= episode_id y.
Proof.
  induction l as [|x l IH]; intros H Hy; [destruct Hy|].
  destruct H as [Hx Hl]. destruct l as [|b l].
  - destruct Hy as [<-|[]]. reflexivity.
  - change (List.last (x :: b :: l) d) with (List.last (b :: l) d).
    destruct Hy as [<-|Hy]; [|auto].
    apply Hx, last_In. congruence.
Qed.

(** No row of the same episode has a lower id. *)
Definition lowest_of_episode (rows : list episode_row) (r : episode_row) : bool :=
  forallb (fun s => implb (same_episode (episode_key r) s)
                          (Z.leb (episode_id r) (episode_id s))) rows.

Lemma survives_lowest (rows : list episode_row) (r : episode_row) :
  List.NoDup (map episode_id rows) -> In r rows ->
  survives episode_id episode_key same_episode order_by_episode_id_desc rows r =
  lowest_of_episode rows r.
Proof.
  intros Hnd Hr. unfold survives, kept, lowest_of_episode.
  set (L := List.filter (same_episode (episode_key r)) rows).
  set (S := order_by_episode_id_desc L).
  assert (HSL : forall s, In s S <-> In s rows /\ same_episode (episode_key r) s = true).
  { intros s. unfold L, S. rewrite <- List.filter_In.
    split; apply Permutation_in; [|symmetry]; apply order_by_episode_id_desc_perm. }
  assert (HrS : In r S).
  { apply HSL. split; [exact Hr|]. unfold same_episode. apply bool_decide_eq_true.
    reflexivity. }
  assert (HS : S <> []) by (intros E; rewrite E in HrS; destruct HrS).
  rewrite (last_map episode_id S r HS).
  pose proof (order_by_episode_id_desc_descending L) as Hdesc. fold S in Hdesc.
  apply Bool.eq_iff_eq_true. rewrite Z.eqb_eq, List.forallb_forall. split.
  - intros E s Hs. destruct (same_episode (episode_key r) s) eqn:Hk; [|reflexivity].
    cbn [implb]. apply Z.leb_le. rewrite E. apply descending_last; [exact Hdesc|].
    apply HSL. auto.
  - intros H.
    assert (Hlast : In (List.last S r) S) by (apply last_In, HS).
    pose proof (descending_last S r r Hdesc HrS) as Hle.
    apply HSL in Hlast as [Hin Hk]. specialize (H _ Hin). rewrite Hk in H.
    cbn [implb] in H. apply Z.leb_le in H. lia.
Qed.

(** When [episode_id] is unique in [tv_episodes], what
    [fix_duplicate_episodes] leaves of the rows of one episode is the row
    of the lowest [episode_id], wherever it stands in the table. *)
Lemma fix_duplicate_episodes_keeps_lowest (t : tables) :
  List.NoDup (map episode_id (tv_episodes t)) ->
  tv_episodes (fix_duplicate_episodes t) =
  List.filter (lowest_of_episode (tv_episodes t)) (tv_episodes t).
Proof.
  intros Hnd. rewrite fix_duplicate_episodes_rows, repair_survivors.
  - apply List.filter_ext_in. intros r Hr. apply survives_lowest; assumption.
  - apply order_by_episode_id_desc_perm.
  - intros k r. unfold same_episode. apply bool_decide_eq_true.
  - exact Hnd.
Qed.

(** **** The order of a scan *)

(** [show_id] and [episode_id] are declared INTEGER PRIMARY KEY
    (the CREATE TABLE statements of [InitialSchema.execute]), so each is
    the key of the b-tree its table is stored in, and a SELECT without
    ORDER BY walks that tree: it returns the rows in strictly ascending
    primary key, in whatever order they were inserted.  A table in the
    order of the scan is [ascending] in its primary key. *)
Fixpoint ascending (ids : list Z) : Prop :=
  match ids with
  | [] => True
  | i :: rest => (forall j, In j rest -> i < j) /\ ascending rest
  end.

Lemma ascending_NoDup (ids : list Z) : ascending ids -> List.NoDup ids.
Proof.
  induction ids as [|i rest IH]; intros H; [constructor|].
  destruct H as [Hi Hrest]. constructor; [|auto].
  intros Hin. specialize (Hi i Hin). lia.
Qed.

Lemma NoDup_map_on {A B : Type} (f : A -> B) (l : list A) :
  (forall x y, In x l -> In y l -> f x = f y -> x = y) ->
  List.NoDup l -> List.NoDup (map f l).
Proof.
  induction l as [|a l IH]; intros Hinj Hnd; [constructor|].
  apply List.NoDup_cons_iff in Hnd as [Ha Hl]. cbn [map]. constructor.
  - intros Hin. apply List.in_map_iff in Hin as (x & Hx & Hin).
    apply Ha. rewrite <- (Hinj x a); [exact Hin|right; exact Hin|left; reflexivity|exact Hx].
  - apply IH; [|exact Hl]. intros x y Hx Hy. apply Hinj; right; assumption.
Qed.

Lemma NoDup_of_map {A B : Type} (f : A -> B) (l : list A) :
  List.NoDup (map f l) -> List.NoDup l.
Proof.
  induction l as [|a l IH]; intros H; [constructor|].
  cbn [map] in H. apply List.NoDup_cons_iff in H as [Ha Hl]. constructor; [|auto].
  intros Hin. apply Ha. apply List.in_map. exact Hin.
Qed.

Lemma NoDup_map_same {A B : Type} (f : A -> B) (l : list A) (x y : A) :
  List.NoDup (map f l) -> In x l -> In y l -> f x = f y -> x = y.
Proof.
  induction l as [|a l IH]; intros H Hx Hy E; [destruct Hx|].
  cbn [map] in H. apply List.NoDup_cons_iff in H as [Ha Hl].
  destruct Hx as [Ex|Hx], Hy as [Ey|Hy]; [congruence| | |auto].
  - exfalso. apply Ha. rewrite Ex, E. apply List.in_map, Hy.
  - exfalso. apply Ha. rewrite Ey, <- E. apply List.in_map, Hx.
Qed.

Lemma NoDup_map_kept {A B : Type} (f : A -> B) (p : A -> bool) (l : list A) :
  List.NoDup (map f l) -> List.NoDup (map f (List.filter p l)).
Proof.
  induction l as [|a l IH]; intros H; [exact H|].
  cbn [map] in H. apply List.NoDup_cons_iff in H as [Ha Hl].
  cbn [List.filter]. destruct (p a); [|auto].
  cbn [map]. constructor; [|auto].
  intros Hin. apply Ha. apply List.in_map_iff in Hin as (x & Hx & Hin).
  apply List.filter_In in Hin as [Hin _]. rewrite <- Hx. apply List.in_map, Hin.
Qed.

(** **** Shows: the highest show id of each indexer id *)

(** No row of the same indexer id has a higher id. *)
Definition highest_of_show (rows : list show) (r : show) : bool :=
  forallb (fun s => implb (same_show (indexer_id r) s)
                          (Z.leb (show_id s) (show_id r))) rows.

Lemma highest_of_show_le (rows : list show) (r s : show) :
  highest_of_show rows r = true -> In s rows -> indexer_id s = indexer_id r ->
  show_id s <= show_id r.
Proof.
  unfold highest_of_show. rewrite List.forallb_forall. intros H Hs Hk.
  specialize (H s Hs). unfold same_show in H. rewrite (proj2 (Z.eqb_eq _ _) Hk) in H.
  apply Z.leb_le. exact H.
Qed.

(** In the order of the scan, the last row of an indexer id is the one
    of the highest [show_id]. *)
Lemma last_of_each_show_highest (rows : list show) :
  ascending (map show_id rows) ->
  last_of_each_show rows = List.filter (highest_of_show rows) rows.
Proof.
  induction rows as [|r rest IH]; intros Hasc; [reflexivity|].
  cbn [map ascending] in Hasc. destruct Hasc as [Hr Hrest].
  assert (Hlater : forall s, In s rest -> show_id r < show_id s).
  { intros s Hs. apply Hr, List.in_map, Hs. }
  assert (Etail : List.filter (highest_of_show (r :: rest)) rest =
                  List.filter (highest_of_show rest) rest).
  { apply List.filter_ext_in. intros x Hx. unfold highest_of_show. cbn [forallb].
    replace (Z.leb (show_id r) (show_id x)) with true
      by (symmetry; apply Z.leb_le; specialize (Hlater x Hx); lia).
    rewrite Bool.implb_true_r. reflexivity. }
  cbn [last_of_each_show List.filter]. rewrite Etail, <- (IH Hrest).
  assert (Ehead : highest_of_show (r :: rest) r =
                  negb (existsb (same_show (indexer_id r)) rest)).
  { unfold highest_of_show. cbn [forallb]. rewrite Z.leb_refl, Bool.implb_true_r.
    cbn [andb]. destruct (existsb (same_show (indexer_id r)) rest) eqn:E; cbn [negb].
    - apply List.existsb_exists in E as (s & Hs & Hk).
      apply Bool.not_true_iff_false. intros H.
      rewrite List.forallb_forall in H. specialize (H s Hs). rewrite Hk in H.
      cbn [implb] in H. apply Z.leb_le in H. specialize (Hlater s Hs). lia.
    - apply List.forallb_forall. intros s Hs.
      destruct (same_show (indexer_id r) s) eqn:Hk; [|reflexivity].
      exfalso. apply Bool.not_true_iff_false in E. apply E.
      apply List.existsb_exists. exists s. auto. }
  rewrite Ehead. destruct (existsb (same_show (indexer_id r)) rest); reflexivity.
Qed.

Lemma last_of_each_show_incl (rows : list show) (s : show) :
  In s (last_of_each_show rows) -> In s rows.
Proof.
  induction rows as [|a rest IH]; [tauto|]. cbn [last_of_each_show].
  destruct (existsb (same_show (indexer_id a)) rest); cbn [In]; tauto.
Qed.

Lemma last_of_each_show_keys (rows : list show) (r : show) :
  In r rows -> exists s, In s (last_of_each_show rows) /\ indexer_id s = indexer_id r.
Proof.
  revert r. induction rows as [|a rest IH]; intros r; [intros []|].
  cbn [last_of_each_show].
  destruct (existsb (same_show (indexer_id a)) rest) eqn:E.
  - intros [Ea|Hin]; [|auto]. subst r.
    apply List.existsb_exists in E as (a' & Ha' & Hk). apply Z.eqb_eq in Hk.
    destruct (IH a' Ha') as (s & Hs & Hks). exists s. split; [exact Hs|congruence].
  - intros [Ea|Hin].
    + subst r. exists a. split; [left; reflexivity|reflexivity].
    + destruct (IH r Hin) as (s & Hs & Hks). exists s. split; [right; exact Hs|exact Hks].
Qed.

Lemma last_of_each_show_NoDup (rows : list show) :
  List.NoDup (map indexer_id (last_of_each_show rows)).
Proof.
  induction rows as [|a rest IH]; [constructor|]. cbn [last_of_each_show].
  destruct (existsb (same_show (indexer_id a)) rest) eqn:E; [exact IH|].
  cbn [map]. constructor; [|exact IH].
  intros Hin. apply List.in_map_iff in Hin as (s & Hk & Hs).
  apply last_of_each_show_incl in Hs.
  apply Bool.not_true_iff_false in E. apply E. apply List.existsb_exists.
  exists s. split; [exact Hs|]. apply Z.eqb_eq. exact Hk.
Qed.

(** A table that has no indexer id twice is left as it is. *)
Lemma last_of_each_show_fixed (rows : list show) :
  List.NoDup (map indexer_id rows) -> last_of_each_show rows = rows.
Proof.
  induction rows as [|a rest IH]; intros H; [reflexivity|].
  cbn [map] in H. apply List.NoDup_cons_iff in H as [Ha Hrest].
  cbn [last_of_each_show].
  destruct (existsb (same_show (indexer_id a)) rest) eqn:E.
  - exfalso. apply List.existsb_exists in E as (s & Hs & Hk). apply Z.eqb_eq in Hk.
    apply Ha. rewrite <- Hk. apply List.in_map, Hs.
  - rewrite (IH Hrest). reflexivity.
Qed.

(** **** Episodes: one row of each key *)

Lemma same_episode_key (k : Z * Z * Z) (r : episode_row) :
  same_episode k r = true <-> episode_key r = k.
Proof. unfold same_episode. apply bool_decide_eq_true. Qed.

Lemma lowest_of_episode_le (rows : list episode_row) (r s : episode_row) :
  lowest_of_episode rows r = true -> In s rows -> episode_key s = episode_key r ->
  episode_id r <= episode_id s.
Proof.
  unfold lowest_of_episode. rewrite List.forallb_forall. intros H Hs Hk.
  specialize (H s Hs). rewrite (proj2 (same_episode_key _ _) Hk) in H.
  apply Z.leb_le. exact H.
Qed.

Lemma lowest_of_episode_exists (rows : list episode_row) (r : episode_row) :
  In r rows ->
  exists s, In s rows /\ lowest_of_episode rows s = true /\
            episode_key s = episode_key r /\ episode_id s <= episode_id r.
Proof.
  intros Hr.
  set (L := List.filter (same_episode (episode_key r)) rows).
  set (S := order_by_episode_id_desc L).
  assert (HSL : forall x, In x S <-> In x rows /\ episode_key x = episode_key r).
  { intros x. unfold S, L. rewrite <- same_episode_key, <- List.filter_In.
    split; apply Permutation_in; [|symmetry]; apply order_by_episode_id_desc_perm. }
  assert (HrS : In r S) by (apply HSL; auto).
  assert (HS : S <> []) by (intros E; rewrite E in HrS; destruct HrS).
  pose proof (order_by_episode_id_desc_descending L) as Hdesc. fold S in Hdesc.
  assert (Hlast : In (List.last S r) S) by (apply last_In, HS).
  destruct (proj1 (HSL _) Hlast) as [Hin Hk].
  exists (List.last S r). split; [exact Hin|]. split; [|split; [exact Hk|]].
  - unfold lowest_of_episode. apply List.forallb_forall. intros x Hx.
    destruct (same_episode (episode_key (List.last S r)) x) eqn:E; [|reflexivity].
    cbn [implb]. apply Z.leb_le. apply descending_last; [exact Hdesc|].
    apply HSL. split; [exact Hx|]. apply same_episode_key in E. congruence.
  - apply descending_last; assumption.
Qed.

Lemma lowest_of_episode_NoDup (rows : list episode_row) :
  List.NoDup (map episode_id rows) ->
  List.NoDup (map episode_key (List.filter (lowest_of_episode rows) rows)).
Proof.
  intros Hnd. apply NoDup_map_on.
  - intros x y Hx Hy Hk. apply List.filter_In in Hx as [Hx Hlx], Hy as [Hy Hly].
    apply (NoDup_map_inj episode_id rows); [exact Hnd|exact Hx|exact Hy|].
    pose proof (lowest_of_episode_le _ x y Hlx Hy (eq_sym Hk)).
    pose proof (lowest_of_episode_le _ y x Hly Hx Hk). lia.
  - apply List.NoDup_filter. exact (NoDup_of_map episode_id _ Hnd).
Qed.

(** A table that has no episode twice is left as it is. *)
Lemma lowest_of_episode_fixed (rows : list episode_row) :
  List.NoDup (map episode_key rows) ->
  List.filter (lowest_of_episode rows) rows = rows.
Proof.
  intros Hnd. apply filter_true. intros x Hx.
  unfold lowest_of_episode. apply List.forallb_forall. intros s Hs.
  destruct (same_episode (episode_key x) s) eqn:E; [|reflexivity].
  apply same_episode_key in E.
  rewrite (NoDup_map_same episode_key rows s x Hnd Hs Hx E).
  cbn [implb]. apply Z.leb_refl.
Qed.

(** Two shows that share an indexer id and two episodes that share their
    key, as a scan returns them. *)
Definition sample_shows : list show := [Show 1 10; Show 2 10; Show 3 11].
Definition sample_episodes : list episode_row :=
  [Episode 1 10 1 1; Episode 2 10 1 1; Episode 3 10 1 2].

(** C7: on tables in the order of the scan, each of the two repairs
    leaves exactly one row of every key: no key is left twice and none is
    lost.  The row left is fixed by the primary key alone:
    [fix_duplicate_shows] leaves the row of the highest [show_id] of each
    indexer id, [fix_duplicate_episodes] the row of the lowest
    [episode_id] of each (showid, season, episode).  A further run of
    either repair finds nothing to delete, so it leaves the same rows. *)
Theorem duplicate_repairs_keep_one_row_by_id (t : tables) :
  ascending (map show_id (tv_shows t)) ->
  ascending (map episode_id (tv_episodes t)) ->
  let shows := tv_shows (fix_duplicate_shows t) in
  let episodes := tv_episodes (fix_duplicate_episodes t) in
  (shows = List.filter (highest_of_show (tv_shows t)) (tv_shows t) /\
   List.NoDup (map indexer_id shows) /\
   (forall r, In r (tv_shows t) ->
      exists s, In s shows /\ indexer_id s = indexer_id r /\ show_id r <= show_id s)) /\
  (episodes = List.filter (lowest_of_episode (tv_episodes t)) (tv_episodes t) /\
   List.NoDup (map episode_key episodes) /\
   (forall r, In r (tv_episodes t) ->
      exists s, In s episodes /\ episode_key s = episode_key r /\
                episode_id s <= episode_id r)) /\
  tv_shows (fix_duplicate_shows (fix_duplicate_shows t)) = shows /\
  tv_episodes (fix_duplicate_episodes (fix_duplicate_episodes t)) = episodes.
Proof.
  intros Hshows Hepisodes. cbv zeta.
  pose proof (ascending_NoDup _ Hshows) as Hnds.
  pose proof (ascending_NoDup _ Hepisodes) as Hnde.
  pose proof (fix_duplicate_shows_keeps_last t Hnds) as Es.
  pose proof (fix_duplicate_episodes_keeps_lowest t Hnde) as Ee.
  split; [|split; [|split]].
  - rewrite Es. split; [apply last_of_each_show_highest, Hshows|].
    split; [apply last_of_each_show_NoDup|].
    intros r Hr. destruct (last_of_each_show_keys _ r Hr) as (s & Hs & Hk).
    exists s. split; [exact Hs|]. split; [exact Hk|].
    rewrite (last_of_each_show_highest _ Hshows) in Hs.
    apply List.filter_In in Hs as [_ Hhigh].
    apply (highest_of_show_le _ s r Hhigh Hr). congruence.
  - rewrite Ee. split; [reflexivity|]. split; [apply lowest_of_episode_NoDup, Hnde|].
    intros r Hr. destruct (lowest_of_episode_exists _ r Hr) as (s & Hs & Hlow & Hk & Hle).
    exists s. split; [|auto]. apply List.filter_In. auto.
  - rewrite fix_duplicate_shows_keeps_last.
    + apply last_of_each_show_fixed. rewrite Es. apply last_of_each_show_NoDup.
    + rewrite Es, (last_of_each_show_highest _ Hshows).
      apply NoDup_map_kept. exact Hnds.
  - rewrite fix_duplicate_episodes_keeps_lowest.
    + apply lowest_of_episode_fixed. rewrite Ee. apply lowest_of_episode_NoDup, Hnde.
    + rewrite Ee. apply NoDup_map_kept. exact Hnde.
Qed.

(** The sample tables, as an instance of
    [duplicate_repairs_keep_one_row_by_id]: show 2 is left of the shows 1
    and 2, episode row 1 of the episode rows 1 and 2. *)
Lemma duplicate_repairs_keep_one_row_by_id_witness :
  tv_shows (fix_duplicate_shows (Tables sample_shows sample_episodes [])) =
    [Show 2 10; Show 3 11] /\
  tv_episodes (fix_duplicate_episodes (Tables sample_shows sample_episodes [])) =
    [Episode 1 10 1 1; Episode 3 10 1 2].
Proof.
  assert (Hs : ascending (map show_id sample_shows)).
  { cbn. repeat split; intros j Hj; cbn in Hj; intuition lia. }
  assert (He : ascending (map episode_id sample_episodes)).
  { cbn. repeat split; intros j Hj; cbn in Hj; intuition lia. }
  pose proof (duplicate_repairs_keep_one_row_by_id
                (Tables sample_shows sample_episodes []) Hs He) as H.
  cbv zeta in H. destruct H as [[Eshows _] [[Eepisodes _] _]].
  split; [rewrite Eshows|rewrite Eepisodes]; vm_compute; reflexivity.
Defined.

(** *** Schema upgrades *)

(** What a backup of the database is labelled with: [checkDBVersion()]
    in the older steps, the pair [connection.version] in the newer ones. *)
Inductive db_label : Type :=
| Major (major : Z)
| MajorMinor (major minor : Z).

(** The calls an upgrade makes on its surroundings, in order. *)
Inductive db_call : Type :=
| BackupDatabase (label : db_label) (ok : bool)
| Action (sql : string) (args : list value)
| AddColumn (table column type : string) (default : value).

Definition is_backup (c : db_call) : bool :=
  match c with
  | BackupDatabase _ _ => true
  | _ => false
  end.

(** A row of a result set. *)
Abbreviation row := (gmap string value).

Section Upgrades.

(** The database behind [self.connection], of module [medusa.db], with
    what the upgrades ask of it: [connection.action], [connection.select],
    [hasTable], [hasColumn], [checkDBVersion], [connection.version] and
    [addColumn]. *)
Variable database : Type.
Variable action : string -> list value -> database -> outcome unit * database.
Variable select : string -> list value -> database -> outcome (list row).
Variable hasTable : string -> database -> bool.
Variable hasColumn : string -> string -> database -> bool.
Variable checkDBVersion : database -> Z.
Variable version : database -> Z * Z.
Variable addColumn : string -> string -> string -> value -> database -> outcome unit * database.

(** The answer of [helpers.backup_versioned_file(db.dbFilename(), version)],
    given the calls made so far. *)
Variable backup_versioned_file : db_label -> list db_call -> bool.

(** [NameParser()._parse_string(release).proper_tags] *)
Variable proper_tags_of : value -> outcome (list string).

(** A connection: the database, the calls made on it and the log. *)
Record connection : Type := Connection {
  db : database;
  calls : list db_call;
  db_log : list log_entry;
}.

Definition called (c : db_call) : run connection unit :=
  modify (fun x => Connection (db x) (calls x ++ [c]) (db_log x)).

Definition on_db {A : Type} (f : database -> outcome A * database) : run connection A :=
  zoom db (fun d x => Connection d (calls x) (db_log x)) f.

Definition logs (lvl : level) (template : string) (args : list (string * value)) :
    run connection unit :=
  modify (fun x => Connection (db x) (calls x) (db_log x ++ [Log lvl template args])).

(** [self.connection.action(sql, args)] *)
Definition do_action (sql : string) (args : list value) : run connection unit :=
  let* _ := called (Action sql args) in
  on_db (action sql args).

(** [self.connection.select(sql, args)] *)
Definition do_select (sql : string) (args : list value) : run connection (list row) :=
  on_db (fun d => (select sql args d, d)).

(** [self.addColumn(table, column, type, default)] *)
Definition do_addColumn (table column type : string) (default : value) :
    run connection unit :=
  let* _ := called (AddColumn table column type default) in
  on_db (addColumn table column type default).

(** [backupDatabase(version)] *)
Definition backupDatabase (label : db_label) : run connection unit :=
  let* _ := logs INFO "Backing up database before upgrade" [] in
  let* x := get in
  let ok := backup_versioned_file label (calls x) in
  let* _ := called (BackupDatabase label ok) in
  if negb ok then
    let* _ := logs ERROR "Database backup failed, abort upgrading database" [] in
    sys_exit 1
  else
    logs INFO "Proceeding with upgrade" [].

(** [backupDatabase(self.checkDBVersion())] and
    [backupDatabase(self.connection.version)] *)
Definition backup_major : run connection unit :=
  let* x := get in
  backupDatabase (Major (checkDBVersion (db x))).

Definition backup_version : run connection unit :=
  let* x := get in
  backupDatabase (MajorMinor (fst (version (db x))) (snd (version (db x)))).

(** Modelled from the spec: [db.SchemaUpgrade.incDBVersion] is not among
    the sources.  Section 4.3, step 4: on success the step's version
    increment helper is called and the new version is persisted via the
    version ledger. *)
Definition incDBVersion : run connection unit :=
  let* x := get in
  let new_version := checkDBVersion (db x) + 1 in
  do_action "UPDATE db_version SET db_version = ?" [VInt new_version].

Definition inc_major_version : run connection unit :=
  let* x := get in
  let major_version := fst (version (db x)) + 1 in
  let minor_version := 0 in
  do_action "UPDATE db_version SET db_version = ?, db_minor_version = ?"
            [VInt major_version; VInt minor_version].

Definition inc_minor_version : run connection unit :=
  let* x := get in
  let major_version := fst (version (db x)) in
  let minor_version := snd (version (db x)) + 1 in
  do_action "UPDATE db_version SET db_version = ?, db_minor_version = ?"
            [VInt major_version; VInt minor_version].

(** [MainSanityCheck(self.connection).update_old_propers()] *)
Definition update_old_proper (sql_result : row) : run connection unit :=
  match sql_result !! "resource" with
  | None => raise (KeyError "resource")
  | Some proper_release =>
      let* _ := logs DEBUG "Found old propers without proper tags: {0}"
                     [("0", proper_release)] in
      let* tags := lift (proper_tags_of proper_release) in
      if truthy (VList (map VStr tags)) then
        let proper_tags := join "|" tags in
        let* _ := logs DEBUG "Add proper tags {0!r} to {1!r}"
                       [("0", VStr proper_tags); ("1", proper_release)] in
        do_action "UPDATE history SET proper_tags = ? WHERE resource = ?"
                  [VStr proper_tags; proper_release]
      else ret tt
  end.

Definition update_old_propers : run connection unit :=
  let* _ := logs DEBUG "Checking for old propers without proper tags" [] in
  let query :=
    "SELECT resource FROM history WHERE (proper_tags is null or proper_tags is '') " +:+
    "AND (action LIKE '%2' OR action LIKE '%9') AND " +:+
    "(resource LIKE '%REPACK%' or resource LIKE '%PROPER%' or resource LIKE '%REAL%')" in
  let* sql_results := do_select query [] in
  sequence_ (map update_old_proper sql_results).

(** [when cond: m] *)
Definition when (cond : bool) (m : run connection unit) : run connection unit :=
  if cond then m else ret tt.

Definition unless_column (table column : string) (m : run connection unit) :
    run connection unit :=
  let* x := get in
  when (negb (hasColumn table column (db x))) m.

(** **** [InitialSchema] *)

Definition InitialSchema_queries : list string :=
  [
    "CREATE TABLE db_version(db_version INTEGER);";
    "CREATE TABLE history(action NUMERIC, date NUMERIC, showid NUMERIC, season NUMERIC, episode NUMERIC, quality NUMERIC, resource TEXT, provider TEXT, version NUMERIC DEFAULT -1);";
    "CREATE TABLE imdb_info(indexer_id INTEGER PRIMARY KEY, imdb_id TEXT, title TEXT, year NUMERIC, akas TEXT, runtimes NUMERIC, genres TEXT, countries TEXT, country_codes TEXT, certificates TEXT, rating TEXT, votes INTEGER, last_update NUMERIC, plot TEXT);";
    "CREATE TABLE info(last_backlog NUMERIC, last_indexer NUMERIC, last_proper_search NUMERIC);";
    "CREATE TABLE scene_numbering(indexer TEXT, indexer_id INTEGER, season INTEGER, episode INTEGER, scene_season INTEGER, scene_episode INTEGER, absolute_number NUMERIC, scene_absolute_number NUMERIC, PRIMARY KEY(indexer_id, season, episode));";
    "CREATE TABLE tv_shows(show_id INTEGER PRIMARY KEY, indexer_id NUMERIC, indexer NUMERIC, show_name TEXT, location TEXT, network TEXT, genre TEXT, classification TEXT, runtime NUMERIC, quality NUMERIC, airs TEXT, status TEXT, flatten_folders NUMERIC, paused NUMERIC, startyear NUMERIC, air_by_date NUMERIC, lang TEXT, subtitles NUMERIC, notify_list TEXT, imdb_id TEXT, last_update_indexer NUMERIC, dvdorder NUMERIC, archive_firstmatch NUMERIC, rls_require_words TEXT, rls_ignore_words TEXT, sports NUMERIC, anime NUMERIC, scene NUMERIC, default_ep_status NUMERIC DEFAULT -1);";
    "CREATE TABLE tv_episodes(episode_id INTEGER PRIMARY KEY, showid NUMERIC, indexerid INTEGER, indexer INTEGER, name TEXT, season NUMERIC, episode NUMERIC, description TEXT, airdate NUMERIC, hasnfo NUMERIC, hastbn NUMERIC, status NUMERIC, location TEXT, file_size NUMERIC, release_name TEXT, subtitles TEXT, subtitles_searchcount NUMERIC, subtitles_lastsearch TIMESTAMP, is_proper NUMERIC, scene_season NUMERIC, scene_episode NUMERIC, absolute_number NUMERIC, scene_absolute_number NUMERIC, version NUMERIC DEFAULT -1, release_group TEXT);";
    "CREATE TABLE blacklist (show_id INTEGER, range TEXT, keyword TEXT);";
    "CREATE TABLE whitelist (show_id INTEGER, range TEXT, keyword TEXT);";
    "CREATE TABLE xem_refresh (indexer TEXT, indexer_id INTEGER PRIMARY KEY, last_refreshed INTEGER);";
    "CREATE TABLE indexer_mapping (indexer_id INTEGER, indexer INTEGER, mindexer_id INTEGER, mindexer INTEGER, PRIMARY KEY (indexer_id, indexer, mindexer));";
    "CREATE UNIQUE INDEX idx_indexer_id ON tv_shows(indexer_id);";
    "CREATE INDEX idx_showid ON tv_episodes(showid);";
    "CREATE INDEX idx_sta_epi_air ON tv_episodes(status, episode, airdate);";
    "CREATE INDEX idx_sta_epi_sta_air ON tv_episodes(season, episode, status, airdate);";
    "CREATE INDEX idx_status ON tv_episodes(status, season, episode, airdate);";
    "CREATE INDEX idx_tv_episodes_showid_airdate ON tv_episodes(showid, airdate);";
    "INSERT INTO db_version(db_version) VALUES (42);"
  ].

Definition InitialSchema_test (d : database) : bool := hasTable "db_version" d.

Definition InitialSchema_execute : run connection unit :=
  let* x := get in
  if negb (hasTable "tv_shows" (db x)) && negb (hasTable "db_version" (db x)) then
    sequence_ (map (fun query => do_action query []) InitialSchema_queries)
  else
    let cur_db_version := checkDBVersion (db x) in
    let* _ :=
      when (Z.ltb cur_db_version MIN_DB_VERSION)
        (let* _ := logs ERROR
                     ("Your database version ({0!s}) is too old to migrate from what this " +:+
                      "version of the application supports ({1!s}).")
                     [("0", VInt cur_db_version); ("1", VInt MIN_DB_VERSION)] in
         sys_exit 1) in
    when (Z.ltb MAX_DB_VERSION cur_db_version)
      (logs ERROR
         ("Your database version ({0!s}) has been incremented past what this version " +:+
          "of the application supports ({1!s}).")
         [("0", VInt cur_db_version); ("1", VInt MAX_DB_VERSION)]).

(** **** The upgrades that subclass it, oldest first *)

Definition AddVersionToTvEpisodes_test (d : database) : bool :=
  Z.leb 40 (checkDBVersion d).

Definition AddVersionToTvEpisodes_execute : run connection unit :=
  let* _ := backup_major in
  let* _ := logs INFO "Adding column version to tv_episodes and history" [] in
  let* _ := do_addColumn "tv_episodes" "version" "NUMERIC" (VStr "-1") in
  let* _ := do_addColumn "tv_episodes" "release_group" "TEXT" (VStr "") in
  let* _ := do_addColumn "history" "version" "NUMERIC" (VStr "-1") in
  incDBVersion.

Definition AddDefaultEpStatusToTvShows_test (d : database) : bool :=
  Z.leb 41 (checkDBVersion d).

Definition AddDefaultEpStatusToTvShows_execute : run connection unit :=
  let* _ := backup_major in
  let* _ := logs INFO "Adding column default_ep_status to tv_shows" [] in
  let* _ := do_addColumn "tv_shows" "default_ep_status" "NUMERIC" (VStr "-1") in
  incDBVersion.

Definition AlterTVShowsFieldTypes_test (d : database) : bool :=
  Z.leb 42 (checkDBVersion d).

Definition AlterTVShowsFieldTypes_execute : run connection unit :=
  let* _ := backup_major in
  let* _ := logs INFO
              "Converting column indexer and default_ep_status field types to numeric" [] in
  let* _ := do_action "DROP TABLE IF EXISTS tmp_tv_shows" [] in
  let* _ := do_action "ALTER TABLE tv_shows RENAME TO tmp_tv_shows" [] in
  let* _ := do_action "CREATE TABLE tv_shows (show_id INTEGER PRIMARY KEY, indexer_id NUMERIC, indexer NUMERIC, show_name TEXT, location TEXT, network TEXT, genre TEXT, classification TEXT, runtime NUMERIC, quality NUMERIC, airs TEXT, status TEXT, flatten_folders NUMERIC, paused NUMERIC, startyear NUMERIC, air_by_date NUMERIC, lang TEXT, subtitles NUMERIC, notify_list TEXT, imdb_id TEXT, last_update_indexer NUMERIC, dvdorder NUMERIC, archive_firstmatch NUMERIC, rls_require_words TEXT, rls_ignore_words TEXT, sports NUMERIC, anime NUMERIC, scene NUMERIC, default_ep_status NUMERIC)" [] in
  let* _ := do_action "INSERT INTO tv_shows SELECT * FROM tmp_tv_shows" [] in
  let* _ := do_action "DROP TABLE tmp_tv_shows" [] in
  incDBVersion.

(** [log.info('Updated to: {}.{}', *self.connection.version)] *)
Definition updated_to : run connection unit :=
  let* x := get in
  logs INFO "Updated to: {}.{}" [("0", VInt (fst (version (db x))));
                                 ("1", VInt (snd (version (db x))))].

Definition AddMinorVersion_test (d : database) : bool :=
  Z.leb 42 (checkDBVersion d) && hasColumn "db_version" "db_minor_version" d.

Definition AddMinorVersion_execute : run connection unit :=
  let* _ := backup_major in
  let* _ := logs INFO "Add minor version numbers to database" [] in
  let* _ := do_addColumn "db_version" "db_minor_version" "NUMERIC" (VInt 0) in
  let* _ := inc_minor_version in
  updated_to.

(** [self.connection.version >= (major, minor)] *)
Definition version_at_least (major minor : Z) (d : database) : bool :=
  Z.ltb major (fst (version d)) ||
  (Z.eqb (fst (version d)) major && Z.leb minor (snd (version d))).

Definition TestIncreaseMajorVersion_test : database -> bool := version_at_least 44 0.

Definition TestIncreaseMajorVersion_execute : run connection unit :=
  let* _ := backup_version in
  let* _ := logs INFO "Test major and minor version updates database" [] in
  let* _ := inc_major_version in
  let* _ := inc_minor_version in
  updated_to.

Definition AddProperTags_test : database -> bool := version_at_least 44 2.

Definition AddProperTags_execute : run connection unit :=
  let* _ := backup_version in
  let* _ := unless_column "history" "proper_tags"
              (let* _ := logs INFO "Adding column proper_tags to history" [] in
               do_addColumn "history" "proper_tags" "TEXT" (VStr "")) in
  (* Call the update old propers once *)
  let* _ := update_old_propers in
  let* _ := inc_minor_version in
  updated_to.

Definition AddManualSearched_test : database -> bool := version_at_least 44 3.

Definition AddManualSearched_execute : run connection unit :=
  let* _ := backup_version in
  let* _ := unless_column "history" "manually_searched"
              (let* _ := logs INFO "Adding column manually_searched to history" [] in
               do_addColumn "history" "manually_searched" "NUMERIC" (VInt 0)) in
  let* _ := unless_column "tv_episodes" "manually_searched"
              (let* _ := logs INFO "Adding column manually_searched to tv_episodes" [] in
               do_addColumn "tv_episodes" "manually_searched" "NUMERIC" (VInt 0)) in
  let* _ := update_old_propers in
  let* _ := inc_minor_version in
  updated_to.

Definition AddInfoHash_test : database -> bool := version_at_least 44 4.

Definition AddInfoHash_execute : run connection unit :=
  let* _ := backup_version in
  let* _ := logs INFO "Adding column info_hash in history" [] in
  let* _ := unless_column "history" "info_hash"
              (do_addColumn "history" "info_hash" "TEXT" VNone) in
  inc_minor_version.

Definition AddPlot_test : database -> bool := version_at_least 44 5.

Definition AddPlot_execute : run connection unit :=
  let* _ := backup_version in
  let* _ := logs INFO "Adding column plot in imdb_info" [] in
  let* _ := unless_column "imdb_info" "plot"
              (do_addColumn "imdb_info" "plot" "TEXT" VNone) in
  let* _ := logs INFO "Adding column plot in tv_show" [] in
  let* _ := unless_column "tv_shows" "plot"
              (do_addColumn "tv_shows" "plot" "TEXT" VNone) in
  inc_minor_version.

Definition AddResourceSize_test : database -> bool := version_at_least 44 6.

Definition AddResourceSize_execute : run connection unit :=
  let* _ := backup_version in
  let* _ := logs INFO "Adding column size in history" [] in
  let* _ := unless_column "history" "size"
              (do_addColumn "history" "size" "NUMERIC" (VInt (-1))) in
  inc_minor_version.

Definition AddPKIndexerMapping_test : database -> bool := version_at_least 44 7.

Definition AddPKIndexerMapping_execute : run connection unit :=
  let* _ := backup_version in
  let* _ := logs INFO "Adding PK to mindexer column in indexer_mapping table" [] in
  let* _ := do_action "DROP TABLE IF EXISTS new_indexer_mapping;" [] in
  let* _ := do_action ("CREATE TABLE IF NOT EXISTS new_indexer_mapping" +:+
                       "(indexer_id INTEGER, indexer INTEGER, mindexer_id INTEGER, mindexer INTEGER," +:+
                       "PRIMARY KEY (indexer_id, indexer, mindexer));") [] in
  let* _ := do_action "INSERT INTO new_indexer_mapping SELECT * FROM indexer_mapping;" [] in
  let* _ := do_action "DROP TABLE IF EXISTS indexer_mapping;" [] in
  let* _ := do_action "ALTER TABLE new_indexer_mapping RENAME TO indexer_mapping;" [] in
  let* _ := do_action "DROP TABLE IF EXISTS new_indexer_mapping;" [] in
  inc_minor_version.

Definition AddIndexerInteger_test : database -> bool := version_at_least 44 8.

Definition AddIndexerInteger_execute : run connection unit :=
  let* _ := backup_version in
  let* _ := logs INFO "Make indexer and indexer_id as INTEGER in tv_episodes table" [] in
  let* _ := do_action "DROP TABLE IF EXISTS new_tv_episodes;" [] in
  let* _ := do_action ("CREATE TABLE new_tv_episodes(episode_id INTEGER PRIMARY KEY, showid NUMERIC," +:+
                       "indexerid INTEGER, indexer INTEGER, name TEXT, season NUMERIC, episode NUMERIC," +:+
                       "description TEXT, airdate NUMERIC, hasnfo NUMERIC, hastbn NUMERIC, status NUMERIC," +:+
                       "location TEXT, file_size NUMERIC, release_name TEXT, subtitles TEXT," +:+
                       "subtitles_searchcount NUMERIC, subtitles_lastsearch TIMESTAMP," +:+
                       "is_proper NUMERIC, scene_season NUMERIC, scene_episode NUMERIC," +:+
                       "absolute_number NUMERIC, scene_absolute_number NUMERIC, version NUMERIC DEFAULT -1," +:+
                       "release_group TEXT, manually_searched NUMERIC);") [] in
  let* _ := do_action "INSERT INTO new_tv_episodes SELECT * FROM tv_episodes;" [] in
  let* _ := do_action "DROP TABLE IF EXISTS tv_episodes;" [] in
  let* _ := do_action "ALTER TABLE new_tv_episodes RENAME TO tv_episodes;" [] in
  let* _ := do_action "DROP TABLE IF EXISTS new_tv_episodoes;" [] in
  inc_minor_version.

(** An upgrade of the chain: its class name, [test] and [execute]. *)
Record upgrade : Type := Upgrade {
  class_name : string;
  test : database -> bool;
  execute : run connection unit;
}.

Definition InitialSchema : upgrade :=
  Upgrade "InitialSchema" InitialSchema_test InitialSchema_execute.

(** The classes that subclass [InitialSchema], each the previous one. *)
Definition upgrades : list upgrade :=
  [ Upgrade "AddVersionToTvEpisodes" AddVersionToTvEpisodes_test AddVersionToTvEpisodes_execute;
    Upgrade "AddDefaultEpStatusToTvShows" AddDefaultEpStatusToTvShows_test
            AddDefaultEpStatusToTvShows_execute;
    Upgrade "AlterTVShowsFieldTypes" AlterTVShowsFieldTypes_test AlterTVShowsFieldTypes_execute;
    Upgrade "AddMinorVersion" AddMinorVersion_test AddMinorVersion_execute;
    Upgrade "TestIncreaseMajorVersion" TestIncreaseMajorVersion_test
            TestIncreaseMajorVersion_execute;
    Upgrade "AddProperTags" AddProperTags_test AddProperTags_execute;
    Upgrade "AddManualSearched" AddManualSearched_test AddManualSearched_execute;
    Upgrade "AddInfoHash" AddInfoHash_test AddInfoHash_execute;
    Upgrade "AddPlot" AddPlot_test AddPlot_execute;
    Upgrade "AddResourceSize" AddResourceSize_test AddResourceSize_execute;
    Upgrade "AddPKIndexerMapping" AddPKIndexerMapping_test AddPKIndexerMapping_execute;
    Upgrade "AddIndexerInteger" AddIndexerInteger_test AddIndexerInteger_execute ].

(** **** Backups come first *)

(** Code that makes no backup call: the calls it adds are actions and
    column additions. *)
Definition no_backup {A : Type} (m : run connection A) : Prop :=
  forall c r c', m c = (r, c') ->
    exists rest, calls c' = calls c ++ rest /\ forallb (fun e => negb (is_backup e)) rest = true.

(** An upgrade that begins with its backup: the first call it makes is
    the backup, no other backup follows, and when the backup fails the
    process exits with status 1 before any other call, the database being
    what it was. *)
Definition backed_up (m : run connection unit) : Prop :=
  forall c r c', m c = (r, c') ->
    exists label ok rest,
      calls c' = calls c ++ BackupDatabase label ok :: rest /\
      forallb (fun e => negb (is_backup e)) rest = true /\
      (ok = false -> r = Exit 1 /\ rest = [] /\ db c' = db c).

Lemma no_backup_ret {A : Type} (a : A) : no_backup (ret a).
Proof.
  intros c r c' H. inversion H; subst. exists []. split; [symmetry; apply app_nil_r|reflexivity].
Qed.

Lemma no_backup_exit {A : Type} (n : Z) : no_backup (@sys_exit connection A n).
Proof.
  intros c r c' H. inversion H; subst. exists []. split; [symmetry; apply app_nil_r|reflexivity].
Qed.

Lemma no_backup_raise {A : Type} (e : exn) : no_backup (@raise connection A e).
Proof.
  intros c r c' H. inversion H; subst. exists []. split; [symmetry; apply app_nil_r|reflexivity].
Qed.

Lemma no_backup_lift {A : Type} (o : outcome A) : no_backup (lift o).
Proof.
  intros c r c' H. inversion H; subst. exists []. split; [symmetry; apply app_nil_r|reflexivity].
Qed.

Lemma no_backup_get : no_backup get.
Proof.
  intros c r c' H. inversion H; subst. exists []. split; [symmetry; apply app_nil_r|reflexivity].
Qed.

Lemma no_backup_logs (lvl : level) (template : string) (args : list (string * value)) :
  no_backup (logs lvl template args).
Proof.
  intros c r c' H. inversion H; subst. exists []. split; [symmetry; apply app_nil_r|reflexivity].
Qed.

Lemma no_backup_on_db {A : Type} (f : database -> outcome A * database) : no_backup (on_db f).
Proof.
  intros c r c' H. unfold on_db, zoom in H. destruct (f (db c)) as [o d].
  inversion H; subst. exists []. split; [symmetry; apply app_nil_r|reflexivity].
Qed.

Lemma no_backup_called (e : db_call) : is_backup e = false -> no_backup (called e).
Proof.
  intros He c r c' H. inversion H; subst. exists [e]. split; [reflexivity|].
  cbn. rewrite He. reflexivity.
Qed.

Lemma no_backup_bind {A B : Type} (m : run connection A) (k : A -> run connection B) :
  no_backup m -> (forall a, no_backup (k a)) -> no_backup (bind m k).
Proof.
  intros Hm Hk c r c' H. unfold bind in H.
  destruct (m c) as [[a | e | n] c1] eqn:E; destruct (Hm _ _ _ E) as (rest1 & Hc1 & Hr1).
  - destruct (Hk a _ _ _ H) as (rest2 & Hc2 & Hr2).
    exists (rest1 ++ rest2). split; [rewrite Hc2, Hc1, <- app_assoc; reflexivity|].
    rewrite forallb_app, Hr1, Hr2. reflexivity.
  - inversion H; subst. exists rest1. auto.
  - inversion H; subst. exists rest1. auto.
Qed.

Lemma no_backup_when (cond : bool) (m : run connection unit) :
  no_backup m -> no_backup (when cond m).
Proof. intros Hm. destruct cond; [exact Hm|apply no_backup_ret]. Qed.

Lemma no_backup_sequence (l : list (run connection unit)) :
  Forall no_backup l -> no_backup (sequence_ l).
Proof.
  induction 1 as [|m l Hm Hl IH]; cbn; [apply no_backup_ret|].
  apply no_backup_bind; [exact Hm|intros _; exact IH].
Qed.

Create HintDb no_backup.

#[local] Hint Resolve no_backup_ret no_backup_exit no_backup_raise no_backup_lift
  no_backup_get no_backup_logs no_backup_on_db no_backup_when : no_backup.

Ltac no_backup_step :=
  first
    [ solve [auto with no_backup]
    | apply no_backup_called; reflexivity
    | apply no_backup_bind; [|intros ?]
    | apply no_backup_when ].

Ltac solve_no_backup := repeat no_backup_step.

Lemma no_backup_do_action (sql : string) (args : list value) : no_backup (do_action sql args).
Proof. unfold do_action. solve_no_backup. Qed.

Lemma no_backup_do_select (sql : string) (args : list value) : no_backup (do_select sql args).
Proof. unfold do_select. solve_no_backup. Qed.

Lemma no_backup_do_addColumn (table column type : string) (default : value) :
  no_backup (do_addColumn table column type default).
Proof. unfold do_addColumn. solve_no_backup. Qed.

#[local] Hint Resolve no_backup_do_action no_backup_do_select no_backup_do_addColumn :
  no_backup.

Lemma no_backup_incDBVersion : no_backup incDBVersion.
Proof. unfold incDBVersion. solve_no_backup. Qed.

Lemma no_backup_inc_major_version : no_backup inc_major_version.
Proof. unfold inc_major_version. solve_no_backup. Qed.

Lemma no_backup_inc_minor_version : no_backup inc_minor_version.
Proof. unfold inc_minor_version. solve_no_backup. Qed.

Lemma no_backup_updated_to : no_backup updated_to.
Proof. unfold updated_to. solve_no_backup. Qed.

Lemma no_backup_unless_column (table column : string) (m : run connection unit) :
  no_backup m -> no_backup (unless_column table column m).
Proof. intros Hm. unfold unless_column. solve_no_backup. Qed.

Lemma no_backup_update_old_proper (sql_result : row) : no_backup (update_old_proper sql_result).
Proof.
  unfold update_old_proper. destruct (sql_result !! "resource"); [|apply no_backup_raise].
  solve_no_backup.
Qed.

Lemma no_backup_update_old_propers : no_backup update_old_propers.
Proof.
  unfold update_old_propers. solve_no_backup.
  apply no_backup_sequence. apply List.Forall_forall. intros m Hm.
  apply in_map_iff in Hm. destruct Hm as (x & <- & _). apply no_backup_update_old_proper.
Qed.

#[local] Hint Resolve no_backup_incDBVersion no_backup_inc_major_version
  no_backup_inc_minor_version no_backup_updated_to no_backup_update_old_propers
  no_backup_unless_column : no_backup.

(** [backupDatabase], case by case. *)
Lemma backupDatabase_cases (label : db_label) (c : connection) :
  let ok := backup_versioned_file label (calls c) in
  exists c',
    backupDatabase label c = (if ok then Ret tt else Exit 1, c') /\
    calls c' = calls c ++ [BackupDatabase label ok] /\ db c' = db c.
Proof.
  cbv zeta. unfold backupDatabase, bind, logs, get, called, modify, sys_exit. cbn.
  destruct (backup_versioned_file label (calls c)); cbn; eexists; repeat split.
Qed.

Lemma backed_up_after (backup : run connection unit) (body : run connection unit) :
  (forall c, exists label c',
      backup c = (if backup_versioned_file label (calls c) then Ret tt else Exit 1, c') /\
      calls c' = calls c ++ [BackupDatabase label (backup_versioned_file label (calls c))] /\
      db c' = db c) ->
  no_backup body ->
  backed_up (let* _ := backup in body).
Proof.
  intros Hbackup Hbody c r c' H.
  destruct (Hbackup c) as (label & c1 & Hrun & Hcalls & Hdb).
  exists label, (backup_versioned_file label (calls c)).
  destruct (backup_versioned_file label (calls c)) eqn:Hok.
  - rewrite (bind_ret _ _ _ _ _ Hrun) in H.
    destruct (Hbody _ _ _ H) as (rest & Hrest & Hnone).
    exists rest. split; [rewrite Hrest, Hcalls, <- app_assoc; reflexivity|].
    split; [exact Hnone|]. discriminate.
  - rewrite (bind_exit _ _ _ _ _ Hrun) in H. inversion H; subst.
    exists []. split; [exact Hcalls|]. split; [reflexivity|]. intros _. auto.
Qed.

Lemma backup_major_cases (c : connection) :
  exists label c',
    backup_major c = (if backup_versioned_file label (calls c) then Ret tt else Exit 1, c') /\
    calls c' = calls c ++ [BackupDatabase label (backup_versioned_file label (calls c))] /\
    db c' = db c.
Proof.
  unfold backup_major, bind, get.
  destruct (backupDatabase_cases (Major (checkDBVersion (db c))) c) as (c' & H).
  eexists _, c'. exact H.
Qed.

Lemma backup_version_cases (c : connection) :
  exists label c',
    backup_version c = (if backup_versioned_file label (calls c) then Ret tt else Exit 1, c') /\
    calls c' = calls c ++ [BackupDatabase label (backup_versioned_file label (calls c))] /\
    db c' = db c.
Proof.
  unfold backup_version, bind, get.
  destruct (backupDatabase_cases
              (MajorMinor (fst (version (db c))) (snd (version (db c)))) c) as (c' & H).
  eexists _, c'. exact H.
Qed.

(** Every upgrade after [InitialSchema] begins with its backup. *)
Lemma upgrades_backed_up (u : upgrade) : In u upgrades -> backed_up (execute u).
Proof.
  unfold upgrades. cbn [In].
  intros [<- | [<- | [<- | [<- | [<- | [<- | [<- | [<- | [<- | [<- | [<- | [<- | []]]]]]]]]]]]];
    cbn [execute];
    first [apply (backed_up_after _ _ backup_major_cases)
          |apply (backed_up_after _ _ backup_version_cases)];
    solve_no_backup.
Qed.

(** [InitialSchema.execute] makes no backup call at all. *)
Lemma InitialSchema_no_backup : no_backup InitialSchema_execute.
Proof.
  unfold InitialSchema_execute. solve_no_backup.
  destruct (_ && _).
  - apply no_backup_sequence. apply List.Forall_forall. intros m Hm.
    apply in_map_iff in Hm. destruct Hm as (x & <- & _). apply no_backup_do_action.
  - solve_no_backup.
Qed.

(** [InitialSchema.execute] on a database that has tables: a version
    below [MIN_DB_VERSION] ends the process with status 1, a version above
    [MAX_DB_VERSION] is logged as an error and the method returns. *)
Lemma InitialSchema_execute_too_old (c : connection) :
  hasTable "tv_shows" (db c) || hasTable "db_version" (db c) = true ->
  checkDBVersion (db c) < MIN_DB_VERSION ->
  exists msg args,
    InitialSchema_execute c =
    (Exit 1, Connection (db c) (calls c) (db_log c ++ [Log ERROR msg args])).
Proof.
  intros Htables Hold. unfold InitialSchema_execute, bind, get.
  replace (negb (hasTable "tv_shows" (db c)) && negb (hasTable "db_version" (db c)))
    with false
    by (destruct (hasTable "tv_shows" (db c)), (hasTable "db_version" (db c));
        cbn in *; congruence).
  apply Z.ltb_lt in Hold. rewrite Hold. cbn. eexists _, _. reflexivity.
Qed.

Lemma InitialSchema_execute_too_new (c : connection) :
  hasTable "tv_shows" (db c) || hasTable "db_version" (db c) = true ->
  MAX_DB_VERSION < checkDBVersion (db c) ->
  exists msg args,
    InitialSchema_execute c =
    (Ret tt, Connection (db c) (calls c) (db_log c ++ [Log ERROR msg args])).
Proof.
  intros Htables Hnew. unfold InitialSchema_execute, bind, get.
  replace (negb (hasTable "tv_shows" (db c)) && negb (hasTable "db_version" (db c)))
    with false
    by (destruct (hasTable "tv_shows" (db c)), (hasTable "db_version" (db c));
        cbn in *; congruence).
  assert (Hmin : Z.ltb (checkDBVersion (db c)) MIN_DB_VERSION = false).
  { apply Z.ltb_ge. unfold MIN_DB_VERSION, MAX_DB_VERSION in *. lia. }
  apply Z.ltb_lt in Hnew. rewrite Hmin, Hnew. cbn. eexists _, _. reflexivity.
Qed.

(** Modelled from the spec: the driver of the chain, [db.upgradeDatabase],
    is not among the sources.  Section 2: the chain "runs every step whose
    version exceeds the ledger, in increasing order"; whether a step still
    has to run is what its [test] answers. *)
Definition run_upgrade (u : upgrade) : run connection unit :=
  fun c => if test u (db c) then (Ret tt, c) else execute u c.

Definition upgradeDatabase : run connection unit :=
  sequence_ (map run_upgrade (InitialSchema :: upgrades)).

(** On a database at the last version every [test] is satisfied, and the
    chain leaves the connection as it is: no backup, no statement. *)
Lemma version_at_least_weaken (major minor minor' : Z) (d : database) :
  minor' <= minor ->
  version_at_least major minor d = true -> version_at_least major minor' d = true.
Proof.
  unfold version_at_least. intros Hle H.
  apply orb_true_iff in H. apply orb_true_iff.
  destruct H as [H|H]; [left; exact H|right].
  apply andb_true_iff in H. destruct H as [H1 H2].
  apply andb_true_iff. split; [exact H1|]. apply Z.leb_le in H2. apply Z.leb_le. lia.
Qed.

Lemma skip_satisfied (l : list upgrade) (c : connection) :
  Forall (fun u => test u (db c) = true) l ->
  sequence_ (map run_upgrade l) c = (Ret tt, c).
Proof.
  induction 1 as [|u l Hu Hl IH]; [reflexivity|].
  cbn [map sequence_].
  rewrite (bind_ret _ _ c tt c); [exact IH|].
  unfold run_upgrade. rewrite Hu. reflexivity.
Qed.

Lemma upgradeDatabase_up_to_date (c : connection) :
  hasTable "db_version" (db c) = true ->
  hasColumn "db_version" "db_minor_version" (db c) = true ->
  42 <= checkDBVersion (db c) ->
  version_at_least 44 8 (db c) = true ->
  upgradeDatabase c = (Ret tt, c).
Proof.
  intros Htable Hcolumn Hmajor Hversion.
  assert (Hk : forall k, k <= 8 -> version_at_least 44 k (db c) = true).
  { intros k Hk. exact (version_at_least_weaken 44 8 k (db c) Hk Hversion). }
  assert (Hn : forall n, n <= 42 -> Z.leb n (checkDBVersion (db c)) = true).
  { intros n Hn. apply Z.leb_le. lia. }
  apply skip_satisfied. unfold upgrades.
  repeat (apply List.Forall_cons; [cbn [test InitialSchema] |]); [.. | apply List.Forall_nil].
  - exact Htable.
  - apply Hn. lia.
  - apply Hn. lia.
  - apply Hn. lia.
  - unfold AddMinorVersion_test. rewrite Hcolumn, Hn by lia. reflexivity.
  - apply Hk. lia.
  - apply Hk. lia.
  - apply Hk. lia.
  - apply Hk. lia.
  - apply Hk. lia.
  - apply Hk. lia.
  - apply Hk. lia.
  - apply Hk. lia.
Qed.

(** **** The version is raised last *)

(** The statements that write the version row. *)
Definition is_version_update (c : db_call) : bool :=
  match c with
  | Action sql _ => String.prefix "UPDATE db_version SET " sql
  | _ => false
  end.

(** Code whose calls all satisfy [p]. *)
Definition adds (p : db_call -> bool) {A : Type} (m : run connection A) : Prop :=
  forall c r c', m c = (r, c') ->
    exists rest, calls c' = calls c ++ rest /\ forallb p rest = true.



Ltac adds_nothing :=
  let c := fresh "c" in let r := fresh "r" in let c' := fresh "c'" in let H := fresh "H" in
  intros c r c' H; inversion H; subst; exists [];
  split; [symmetry; apply app_nil_r|reflexivity].

Lemma adds_ret (p : db_call -> bool) {A : Type} (a : A) : adds p (ret a).
Proof. adds_nothing. Qed.

Lemma adds_exit (p : db_call -> bool) {A : Type} (n : Z) : adds p (@sys_exit connection A n).
Proof. adds_nothing. Qed.

Lemma adds_raise (p : db_call -> bool) {A : Type} (e : exn) : adds p (@raise connection A e).
Proof. adds_nothing. Qed.

Lemma adds_lift (p : db_call -> bool) {A : Type} (o : outcome A) : adds p (lift o).
Proof. adds_nothing. Qed.

Lemma adds_get (p : db_call -> bool) : adds p get.
Proof. adds_nothing. Qed.

Lemma adds_logs (p : db_call -> bool) (lvl : level) (template : string)
    (args : list (string * value)) :
  adds p (logs lvl template args).
Proof. adds_nothing. Qed.

Lemma adds_on_db (p : db_call -> bool) {A : Type} (f : database -> outcome A * database) :
  adds p (on_db f).
Proof.
  intros c r c' H. unfold on_db, zoom in H. destruct (f (db c)) as [o d].
  inversion H; subst. exists []. split; [symmetry; apply app_nil_r|reflexivity].
Qed.

Lemma adds_called (p : db_call -> bool) (e : db_call) : p e = true -> adds p (called e).
Proof.
  intros He c r c' H. inversion H; subst. exists [e]. split; [reflexivity|].
  cbn. rewrite He. reflexivity.
Qed.

Lemma adds_bind (p : db_call -> bool) {A B : Type} (m : run connection A)
    (k : A -> run connection B) :
  adds p m -> (forall a, adds p (k a)) -> adds p (bind m k).
Proof.
  intros Hm Hk c r c' H. unfold bind in H.
  destruct (m c) as [[a | e | n] c1] eqn:E; destruct (Hm _ _ _ E) as (rest1 & Hc1 & Hr1).
  - destruct (Hk a _ _ _ H) as (rest2 & Hc2 & Hr2).
    exists (rest1 ++ rest2). split; [rewrite Hc2, Hc1, <- app_assoc; reflexivity|].
    rewrite forallb_app, Hr1, Hr2. reflexivity.
  - inversion H; subst. exists rest1. auto.
  - inversion H; subst. exists rest1. auto.
Qed.

Lemma adds_when (p : db_call -> bool) (cond : bool) (m : run connection unit) :
  adds p m -> adds p (when cond m).
Proof. intros Hm. destruct cond; [exact Hm|apply adds_ret]. Qed.


Ltac adds_step :=
  first
    [ apply adds_ret | apply adds_exit | apply adds_raise | apply adds_lift
    | apply adds_get | apply adds_logs | apply adds_on_db
    | apply adds_called; reflexivity
    | apply adds_bind; [|intros ?]
    | apply adds_when ].

Ltac solve_adds := repeat adds_step.


Lemma adds_do_select (p : db_call -> bool) (sql : string) (args : list value) :
  adds p (do_select sql args).
Proof. unfold do_select. solve_adds. Qed.








Lemma version_inc_major_version : adds is_version_update inc_major_version.
Proof. unfold inc_major_version. solve_adds. Qed.











(** **** [InitialSchema] on a database that exists *)


End Upgrades.

(** **** A toy engine for the examples *)

(** It keeps the names of the tables, the columns added, and the version
    row. *)
Record toy : Type := Toy {
  toy_tables : list string;
  toy_columns : list (string * string);
  toy_version : Z * Z;
}.

Definition created_table (sql : string) : option string :=
  if String.prefix "CREATE TABLE " sql
  then match split "(" (String.substring 13 (String.length sql - 13) sql) with
       | table :: _ => Some (strip table)
       | [] => None
       end
  else None.

Definition toy_action (sql : string) (args : list value) (d : toy) : outcome unit * toy :=
  match args with
  | [VInt major] =>
      if String.eqb sql "UPDATE db_version SET db_version = ?"
      then (Ret tt, Toy (toy_tables d) (toy_columns d) (major, snd (toy_version d)))
      else (Ret tt, d)
  | [VInt major; VInt minor] =>
      if String.eqb sql "UPDATE db_version SET db_version = ?, db_minor_version = ?"
      then (Ret tt, Toy (toy_tables d) (toy_columns d) (major, minor))
      else (Ret tt, d)
  | _ =>
      if String.eqb sql "INSERT INTO db_version(db_version) VALUES (42);"
      then (Ret tt, Toy (toy_tables d) (toy_columns d) (42, 0))
      else match created_table sql with
           | Some table => (Ret tt, Toy (toy_tables d ++ [table]) (toy_columns d) (toy_version d))
           | None => (Ret tt, d)
           end
  end.

Definition toy_select (sql : string) (args : list value) (d : toy) : outcome (list row) :=
  Ret [].

Definition toy_hasTable (table : string) (d : toy) : bool :=
  existsb (String.eqb table) (toy_tables d).

Definition toy_hasColumn (table column : string) (d : toy) : bool :=
  existsb (fun tc => String.eqb table (fst tc) && String.eqb column (snd tc)) (toy_columns d).

Definition toy_checkDBVersion (d : toy) : Z :=
  if toy_hasTable "db_version" d then fst (toy_version d) else 0.

Definition toy_addColumn (table column type : string) (default : value) (d : toy) :
    outcome unit * toy :=
  (Ret tt, Toy (toy_tables d) (toy_columns d ++ [(table, column)]) (toy_version d)).

Definition backup_succeeds (label : db_label) (before : list db_call) : bool := true.
Definition backup_fails (label : db_label) (before : list db_call) : bool := false.

Definition no_tags (release : value) : outcome (list string) := Ret [].

Abbreviation toy_connection := (connection toy).

Definition toy_execute (backup : db_label -> list db_call -> bool) (u : upgrade toy) :
    run toy_connection unit :=
  execute toy u.

Definition toy_upgrades (backup : db_label -> list db_call -> bool) : list (upgrade toy) :=
  upgrades toy toy_action toy_select toy_hasColumn toy_checkDBVersion toy_version
           toy_addColumn backup no_tags.

Definition toy_InitialSchema : upgrade toy :=
  InitialSchema toy toy_action toy_hasTable toy_checkDBVersion.

Definition toy_upgradeDatabase (backup : db_label -> list db_call -> bool) :
    run toy_connection unit :=
  upgradeDatabase toy toy_action toy_select toy_hasTable toy_hasColumn toy_checkDBVersion
                  toy_version toy_addColumn backup no_tags.

(** A store just created, and stores at given versions. *)
Definition fresh : toy_connection := Connection toy (Toy [] [] (0, 0)) [] [].

Definition at_version (major minor : Z) : toy_connection :=
  Connection toy (Toy ["tv_shows"; "db_version"] [("db_version", "db_minor_version")]
                      (major, minor)) [] [].

Example toy_chain_from_44_1 :
  let r := toy_upgradeDatabase backup_succeeds (at_version 44 1) in
  fst r = Ret tt /\
  toy_version (db toy (snd r)) = (44, 8) /\
  List.filter is_backup (calls toy (snd r)) =
    [ BackupDatabase (MajorMinor 44 1) true; BackupDatabase (MajorMinor 44 2) true;
      BackupDatabase (MajorMinor 44 3) true; BackupDatabase (MajorMinor 44 4) true;
      BackupDatabase (MajorMinor 44 5) true; BackupDatabase (MajorMinor 44 6) true;
      BackupDatabase (MajorMinor 44 7) true ].
Proof. repeat split; vm_compute; reflexivity. Qed.

Example toy_chain_backup_fails :
  let r := toy_upgradeDatabase backup_fails (at_version 44 1) in
  fst r = Exit 1 /\
  toy_version (db toy (snd r)) = (44, 1) /\
  calls toy (snd r) = [BackupDatabase (MajorMinor 44 1) false].
Proof. repeat split; vm_compute; reflexivity. Qed.

(** *** Backup before mutation, on both chains *)

(** C1, as stated, fails for the first step of the database chain:
    [InitialSchema.execute] on a store just created runs its eighteen
    statements, the first of them creating the version table, and takes no
    backup. *)
Lemma initial_schema_runs_without_backup :
  let r := execute toy toy_InitialSchema fresh in
  fst r = Ret tt /\
  length (calls toy (snd r)) = 18%nat /\
  head (calls toy (snd r)) = Some (Action "CREATE TABLE db_version(db_version INTEGER);" []) /\
  List.filter is_backup (calls toy (snd r)) = [].
Proof. repeat split; vm_compute; reflexivity. Qed.

(** What a run of the configuration chain from [m], with result [r] and
    final state [m'], owes to backups: each call of a step method is
    immediately preceded by the successful backup of the version being
    left, which is backed up exactly once in the run; a backup that fails
    is the last event of the run, the process exits with status 1, the
    method of the next version is not called, and [config_version] and
    [app.CONFIG_VERSION] stay at the version that was to be left. *)
Definition backs_up_first (m : migrator) (r : outcome unit) (m' : migrator) : Prop :=
  exists new,
    trace m' = trace m ++ new /\
    (forall pre u post, new = pre ++ Transform u :: post ->
       (exists pre' f, pre = pre' ++ [Backup f (u - 1) true]) /\
       backups_of (u - 1) new = 1%nat) /\
    (forall pre f u post, new = pre ++ Backup f u false :: post ->
       post = [] /\ r = Exit 1 /\ ~ In (Transform (u + 1)) new /\
       config_version m' = u /\
       app (surroundings m') !! "CONFIG_VERSION" = Some (VInt u)).

(** C1 (amended).  A run of the configuration chain backs up first
    ([backs_up_first]), whatever the step methods do, also when they change
    nothing, and whatever the backups answer.  In the database chain every
    upgrade after [InitialSchema] begins with its backup and makes no other
    backup call; when that backup fails the process exits with status 1
    before any statement is executed, the database being what it was
    ([backed_up]). *)
Theorem backup_precedes_every_step :
  (forall (backup_versioned_file : value -> Z -> list chain_event -> bool)
          (method : Z -> option (run world unit)) (m : migrator) (r : outcome unit)
          (m' : migrator),
     migrate_config backup_versioned_file method m = (r, m') ->
     backs_up_first m r m') /\
  (forall (database : Type)
          (action : string -> list value -> database -> outcome unit * database)
          (select : string -> list value -> database -> outcome (list row))
          (hasColumn : string -> string -> database -> bool)
          (checkDBVersion : database -> Z) (version : database -> Z * Z)
          (addColumn : string -> string -> string -> value -> database ->
                       outcome unit * database)
          (backup_versioned_file : db_label -> list db_call -> bool)
          (proper_tags_of : value -> outcome (list string))
          (u : upgrade database),
     In u (upgrades database action select hasColumn checkDBVersion version addColumn
                    backup_versioned_file proper_tags_of) ->
     backed_up database (execute database u)).
Proof.
  split.
  - intros backup method m r m' H. unfold backs_up_first.
    destruct (migrate_config_cases _ _ _ _ _ H)
      as [(_ & _ & Htr & _) | (_ & new & Htr & Hshape & _ & Hkept)].
    + exists []. split; [rewrite Htr; symmetry; apply app_nil_r|].
      split; intros pre; intros; destruct pre; discriminate.
    + exists new. split; [exact Htr|]. split.
      * intros pre u post Hnew.
        exact (shape_backup_before_transform _ _ _ _ Hshape _ _ _ Hnew).
      * intros pre f u post Hnew.
        destruct (shape_failed_backup_is_last _ _ _ _ Hshape _ _ _ _ Hnew)
          as (-> & -> & Hv & Hnot).
        repeat split; try assumption.
        eapply Hkept. exact Hnew.
  - intros. apply (upgrades_backed_up database action select hasColumn checkDBVersion
                     version addColumn backup_versioned_file proper_tags_of).
    assumption.
Qed.

(** The sample runs as instances of [backup_precedes_every_step]: the
    configuration run from version 1 to 5, and the last upgrade of the
    database chain. *)
Definition toy_AddIndexerInteger : upgrade toy :=
  Upgrade toy "AddIndexerInteger"
    (AddIndexerInteger_test toy toy_version)
    (AddIndexerInteger_execute toy toy_action toy_version backup_succeeds).

Lemma backup_precedes_every_step_witness :
  backs_up_first old_migrator (fst migrated) (snd migrated) /\
  backed_up toy (execute toy toy_AddIndexerInteger).
Proof.
  split.
  - apply (proj1 backup_precedes_every_step always_backs_up sample_method).
    vm_compute. reflexivity.
  - apply (proj2 backup_precedes_every_step toy toy_action toy_select toy_hasColumn
             toy_checkDBVersion toy_version toy_addColumn backup_succeeds no_tags
             toy_AddIndexerInteger).
    unfold upgrades, toy_AddIndexerInteger. cbn [In]. do 11 right. left. reflexivity.
Defined.

Example sample_run_backup_fails :
  let r := migrate_config never_backs_up sample_method old_migrator in
  fst r = Exit 1 /\
  trace (snd r) = [Backup (VStr "config.ini") 1 false] /\
  config_version (snd r) = 1 /\
  app (surroundings (snd r)) !! "CONFIG_VERSION" = Some (VInt 1).
Proof. repeat split; vm_compute; reflexivity. Qed.

(** *** A version ahead of the build *)

(** C2: the two stores differ.  The configuration chain exits with
    status 1 when the configuration is ahead of the build, and runs no
    step.  [InitialSchema.execute] exits with status 1 on a database that
    is too old, but on one that is too new (version 45, with
    [MAX_DB_VERSION] 44) it only logs the error and returns; the chain then
    goes on and, every [test] being satisfied, returns as well. *)
Theorem too_new_database_is_only_logged :
  (let r := migrate_config always_backs_up sample_method
              (Migrator (world_of (complete_config "a,b")) 11 10 []) in
   fst r = Exit 1 /\ trace (snd r) = []) /\
  (let r := execute toy toy_InitialSchema (at_version 39 0) in
   fst r = Exit 1 /\ calls toy (snd r) = []) /\
  (let r := execute toy toy_InitialSchema (at_version 45 0) in
   fst r = Ret tt /\ calls toy (snd r) = [] /\ length (db_log toy (snd r)) = 1%nat) /\
  (let r := toy_upgradeDatabase backup_succeeds (at_version 45 0) in
   fst r = Ret tt /\ calls toy (snd r) = [] /\ db_log toy (snd r) = []).
Proof. repeat split; vm_compute; reflexivity. Qed.

(** *** Orphan episodes *)

(** [SELECT episode_id, showid, tv_shows.indexer_id FROM tv_episodes LEFT
    JOIN tv_shows ON tv_episodes.showid=tv_shows.indexer_id WHERE
    tv_shows.indexer_id is NULL]: the episodes whose [showid] is the
    indexer id of no show. *)
Definition has_show (shows : list show) (r : episode_row) : bool :=
  existsb (same_show (showid r)) shows.

Definition orphan_episodes (t : tables) : list episode_row :=
  List.filter (fun r => negb (has_show (tv_shows t) r)) (tv_episodes t).

(** [fix_orphan_episodes()] *)
Definition delete_orphan_episode (cur_orphan : episode_row) (t : tables) : tables :=
  let t := debug "Orphan episode detected! episode_id: {0!s} showid: {1!s}"
                 [("0", VInt (episode_id cur_orphan)); ("1", VInt (showid cur_orphan))] t in
  let t := info "Deleting orphan episode with episode_id: {0!s}"
                [("0", VInt (episode_id cur_orphan))] t in
  Tables (tv_shows t) (delete_episode (episode_id cur_orphan) (tv_episodes t)) (messages t).

Definition fix_orphan_episodes (t : tables) : tables :=
  let sql_results := orphan_episodes t in
  fold_left (fun t cur_orphan => delete_orphan_episode cur_orphan t) sql_results t.





(** *** The upgrades on the toy engine *)



End MainDB.
